(** * Photo Client Manager API: the domain rules, embedded and verified

    A shallow embedding of the request handlers of [app/routers/*.py] over an
    explicit model of the relational store described by [app/models.py].

    Conventions of the embedding.
    - Money ([Decimal], columns [DECIMAL(10,2)]) is an integer number of cents
      in [Z]: exact decimal arithmetic on two fractional digits.
    - [date] and [datetime] values are [Z] (ordinal day, timestamp); only their
      order matters to the handlers.
    - A table is the list of its rows in insertion order; primary keys are
      handed out by a per-table counter that only grows (AUTO_INCREMENT).
    - A handler that raises leaves the store as it was: every [raise] of the
      source precedes the first write, and a failed [commit] rolls back.  So a
      writing handler is a function [Store -> Result (_ * Store)] and a reading
      handler a function [Store -> Result _].
    - String comparison in the store (the unique indexes on [clients.email] and
      [packages.name], the [==] filters on them) follows the collation of the
      database, which the source does not fix: it is the parameter [collate],
      a normal form under which two strings are compared.
    - Column widths ([String(120)] ...) are not modelled: payloads are taken to
      fit the columns. *)

From Stdlib Require Import ZArith List String Bool Lia Permutation Sorted.
Import ListNotations.

Local Open Scope string_scope.
Local Open Scope list_scope.
Local Open Scope Z_scope.

(** ** Failures *)

Inductive Error : Type :=
| HTTPException (status_code : Z) (detail : string)
    (* raised by the handlers themselves *)
| RequestValidationError
    (* a [Query] or [Path] bound ([ge], [le]) is violated: the handler is not entered *)
| IntegrityError
    (* raised by [db.commit()]: NOT NULL or UNIQUE constraint of the store *)
| ValidationError (missing : list string).
    (* pydantic: a schema object built without some required fields *)

Inductive Result (A : Type) : Type :=
| Ok (a : A)
| Raise (e : Error).
Arguments Ok {A} a.
Arguments Raise {A} e.

Definition bind {A B} (r : Result A) (k : A -> Result B) : Result B :=
  match r with
  | Ok a => k a
  | Raise e => Raise e
  end.

Notation "x <- r ;; k" := (bind r (fun x => k))
  (at level 61, r at next level, right associativity).
Notation "' p <- r ;; k" := (bind r (fun p => k))
  (at level 61, p pattern, r at next level, right associativity).

(** The failure kinds of the specification, as the responses the handlers
    build for them. *)
Definition InvalidAmount : Error :=
  HTTPException 400 "Amount must be greater than zero".
Definition InvoiceNotFound : Error :=
  HTTPException 404 "Invoice not found".
Definition OverpaymentError : Error :=
  HTTPException 400 "Payment exceeds invoice amount".
Definition DuplicateEmail : Error :=
  HTTPException 409 "A client with this email already exists".
Definition DuplicateEmailOnUpdate : Error :=
  HTTPException 409 "Oops another client already uses this email".

(** ** models.py: the rows of the five tables *)

Module Client.
Record t : Type := mk
  { client_id : Z;
    name : string;
    email : string;
    phone : option string }.
End Client.

Module Shoot.
Record t : Type := mk
  { shoot_id : Z;
    client_id : Z;
    shoot_date : Z;
    location : option string }.
End Shoot.

Module Package.
Record t : Type := mk
  { package_id : Z;
    name : string;
    description : option string;
    price : Z;
    is_active : bool }.
End Package.

Module Invoice.
Record t : Type := mk
  { invoice_id : Z;
    client_id : Z;
    shoot_id : option Z;
    package_id : option Z;
    amount : Z;
    status : string;
    issued_date : Z;
    due_date : option Z }.
End Invoice.

Module Payment.
Record t : Type := mk
  { payment_id : Z;
    invoice_id : Z;
    amount : Z;
    method : option string;
    paid_at : Z }.
End Payment.

(** ** schemas.py: request payloads and response objects *)

(** A field of a patch-style payload: left out of the request, or present with
    a value that may be [null].  [model_dump(exclude_unset=True)] keeps exactly
    the [Present] ones. *)
Inductive Field (A : Type) : Type :=
| Absent
| Present (v : option A).
Arguments Absent {A}.
Arguments Present {A} v.

Module ClientCreate.
Record t : Type := mk
  { name : string;
    email : string;
    phone : option string }.
End ClientCreate.

Module ClientUpdate.
Record t : Type := mk
  { name : Field string;
    email : Field string;
    phone : Field string }.
End ClientUpdate.

Module ShootCreate.
Record t : Type := mk
  { client_id : Z;
    shoot_date : Z;
    location : option string }.
End ShootCreate.

Module ShootUpdate.
Record t : Type := mk
  { shoot_date : Field Z;
    location : Field string }.
End ShootUpdate.

Module PackageCreate.
Record t : Type := mk
  { name : string;
    description : option string;
    price : Z;
    is_active : bool }.
End PackageCreate.

Module PackageUpdate.
Record t : Type := mk
  { name : Field string;
    description : Field string;
    price : Field Z;
    is_active : Field bool }.
End PackageUpdate.

Module InvoiceCreate.
Record t : Type := mk
  { client_id : Z;
    amount : Z;
    issued_date : Z;
    status : string;
    due_date : option Z;
    shoot_id : option Z;
    package_id : option Z }.
End InvoiceCreate.

Module InvoiceUpdate.
Record t : Type := mk
  { amount : Field Z;
    status : Field string;
    issued_date : Field Z;
    due_date : Field Z;
    shoot_id : Field Z;
    package_id : Field Z }.
End InvoiceUpdate.

Module PaymentCreate.
Record t : Type := mk
  { invoice_id : Z;
    amount : Z;
    method : option string;
    paid_at : option Z }.
End PaymentCreate.

Module InvoiceSummary.
Record t : Type := mk
  { invoice_id : Z;
    amount : Z;
    total_paid : Z;
    balance : Z;
    status : string }.
End InvoiceSummary.

Module ReportInvoiceRow.
Record t : Type := mk
  { client_name : string;
    package_name : option string;
    invoice_amount : Z;
    total_paid : Z;
    balance : Z;
    shoot_location : option string;
    payment_status : string;
    invoice_id : Z;
    issued_date : Z }.
End ReportInvoiceRow.

(** ** The store *)

Record Store : Type := mkStore
  { clients : list Client.t;
    shoots : list Shoot.t;
    packages : list Package.t;
    invoices : list Invoice.t;
    payments : list Payment.t;
    next_client_id : Z;
    next_shoot_id : Z;
    next_package_id : Z;
    next_invoice_id : Z;
    next_payment_id : Z }.

Definition empty_store : Store :=
  mkStore [] [] [] [] [] 1 1 1 1 1.

(** ** Query helpers *)

(** [query.first()]. *)
Definition first {A} (f : A -> bool) (rows : list A) : option A := find f rows.

(** [func.sum]: NULL over no rows. *)
Fixpoint sql_sum (xs : list Z) : option Z :=
  match xs with
  | [] => None
  | x :: rest =>
      match sql_sum rest with
      | None => Some x
      | Some s => Some (x + s)
      end
  end.

(** [func.coalesce(x, d)], and Python's [x or d] on a value that may be NULL. *)
Definition coalesce {A} (x : option A) (d : A) : A :=
  match x with
  | Some v => v
  | None => d
  end.

(** [.offset(skip).limit(limit)]. *)
Definition window {A} (skip limit : Z) (rows : list A) : list A :=
  firstn (Z.to_nat limit) (skipn (Z.to_nat skip) rows).

(** [.order_by(...)]: the rows sorted under [leb], a total preorder given by
    the sort keys; rows that tie keep their order. *)
Fixpoint insert_sorted {A} (leb : A -> A -> bool) (x : A) (rows : list A) : list A :=
  match rows with
  | [] => [x]
  | y :: rest => if leb x y then x :: rows else y :: insert_sorted leb x rest
  end.

Definition order_by {A} (leb : A -> A -> bool) (rows : list A) : list A :=
  fold_right (insert_sorted leb) [] rows.

(** [skip: int = Query(0, ge=0)], [limit: int = Query(50, ge=1, le=200)]. *)
Definition page_params (skip limit : option Z) : Result (Z * Z) :=
  let skip := coalesce skip 0 in
  let limit := coalesce limit 50 in
  if (0 <=? skip) && (1 <=? limit) && (limit <=? 200)
  then Ok (skip, limit)
  else Raise RequestValidationError.

(** [id: int = Path(..., ge=1)]. *)
Definition path_id (id : Z) : Result Z :=
  if 1 <=? id then Ok id else Raise RequestValidationError.

(** The paid total of an invoice:
    [db.query(func.coalesce(func.sum(Payment.amount), 0))
       .filter(Payment.invoice_id == invoice_id).scalar()]. *)
Definition payments_of (db : Store) (invoice_id : Z) : list Payment.t :=
  filter (fun p => Payment.invoice_id p =? invoice_id) (payments db).

Definition total_paid_of (db : Store) (invoice_id : Z) : Z :=
  coalesce (sql_sum (map Payment.amount (payments_of db invoice_id))) 0.

(** ** routers/payments.py *)

Definition _get_invoice_or_404 (db : Store) (invoice_id : Z) : Result Invoice.t :=
  match first (fun i => Invoice.invoice_id i =? invoice_id) (invoices db) with
  | Some obj => Ok obj
  | None => Raise (HTTPException 404 "Invoice not found")
  end.

Definition _get_payment_or_404 (db : Store) (payment_id : Z) : Result Payment.t :=
  match first (fun p => Payment.payment_id p =? payment_id) (payments db) with
  | Some obj => Ok obj
  | None => Raise (HTTPException 404 "Payment not found")
  end.

(** Lines 54-70 of [create_payment]: the checks, which only read the store. *)
Definition create_payment_check (payload : PaymentCreate.t) (db : Store) : Result unit :=
  if PaymentCreate.amount payload <=? 0
  then Raise (HTTPException 400 "Amount must be greater than zero")
  else
    invoice <- _get_invoice_or_404 db (PaymentCreate.invoice_id payload) ;;
    let total_paid := total_paid_of db (Invoice.invoice_id invoice) in
    let new_total := total_paid + PaymentCreate.amount payload in
    if new_total >? Invoice.amount invoice
    then Raise (HTTPException 400 "Payment exceeds invoice amount")
    else Ok tt.

(** Lines 72-76: the [Payment] row built from the dumped payload, [add],
    [commit], [refresh].
    A [paid_at] left out is filled by the server default [now()]. *)
Definition create_payment_insert (now : Z) (payload : PaymentCreate.t) (db : Store)
  : Payment.t * Store :=
  let payment :=
    Payment.mk (next_payment_id db)
               (PaymentCreate.invoice_id payload)
               (PaymentCreate.amount payload)
               (PaymentCreate.method payload)
               (coalesce (PaymentCreate.paid_at payload) now) in
  (payment,
   mkStore (clients db) (shoots db) (packages db) (invoices db)
           (payments db ++ [payment])
           (next_client_id db) (next_shoot_id db) (next_package_id db)
           (next_invoice_id db) (next_payment_id db + 1)).

Definition create_payment (now : Z) (payload : PaymentCreate.t) (db : Store)
  : Result (Payment.t * Store) :=
  _ <- create_payment_check payload db ;;
  Ok (create_payment_insert now payload db).

Definition payment_order (p q : Payment.t) : bool :=
  Payment.payment_id q <=? Payment.payment_id p.

Definition list_payments (skip limit : option Z) (db : Store) : Result (list Payment.t) :=
  '(skip, limit) <- page_params skip limit ;;
  Ok (window skip limit (order_by payment_order (payments db))).

Definition get_payment (payment_id : Z) (db : Store) : Result Payment.t :=
  payment_id <- path_id payment_id ;;
  _get_payment_or_404 db payment_id.

Definition delete_payment (payment_id : Z) (db : Store) : Result (unit * Store) :=
  payment_id <- path_id payment_id ;;
  payment <- _get_payment_or_404 db payment_id ;;
  Ok (tt,
      mkStore (clients db) (shoots db) (packages db) (invoices db)
              (filter (fun p => negb (Payment.payment_id p =? Payment.payment_id payment))
                      (payments db))
              (next_client_id db) (next_shoot_id db) (next_package_id db)
              (next_invoice_id db) (next_payment_id db)).

(** ** Building response objects (pydantic [BaseModel.__init__])

    A schema object is built from keyword arguments.  A keyword that names no
    field of the schema is ignored; a field without a default that no keyword
    supplies, or that is supplied with a value of another type, makes the
    constructor raise [ValidationError]. *)

Inductive Value : Type :=
| VNone
| VInt (n : Z)
| VDecimal (cents : Z)
| VStr (s : string)
| VDate (d : Z).

Definition kwargs : Type := list (string * Value).

Definition kw (name : string) (args : kwargs) : option Value :=
  option_map snd (find (fun a => String.eqb (fst a) name) args).

Definition missing_fields (required : list string) (args : kwargs) : list string :=
  filter (fun f => match kw f args with None => true | Some _ => false end) required.

Definition get_int (name : string) (args : kwargs) : Result Z :=
  match kw name args with
  | Some (VInt n) => Ok n
  | _ => Raise (ValidationError [name])
  end.

Definition get_decimal (name : string) (args : kwargs) : Result Z :=
  match kw name args with
  | Some (VDecimal d) => Ok d
  | _ => Raise (ValidationError [name])
  end.

Definition get_str (name : string) (args : kwargs) : Result string :=
  match kw name args with
  | Some (VStr s) => Ok s
  | _ => Raise (ValidationError [name])
  end.

Definition get_date (name : string) (args : kwargs) : Result Z :=
  match kw name args with
  | Some (VDate d) => Ok d
  | _ => Raise (ValidationError [name])
  end.

(** [Optional[str] = None]. *)
Definition get_optional_str (name : string) (args : kwargs) : Result (option string) :=
  match kw name args with
  | None | Some VNone => Ok None
  | Some (VStr s) => Ok (Some s)
  | Some _ => Raise (ValidationError [name])
  end.

Definition optional_str (s : option string) : Value :=
  match s with
  | Some s => VStr s
  | None => VNone
  end.

Definition optional_date (d : option Z) : Value :=
  match d with
  | Some d => VDate d
  | None => VNone
  end.

(** [schemas.InvoiceSummary(...)]: five fields, all required. *)
Definition InvoiceSummary_init (args : kwargs) : Result InvoiceSummary.t :=
  match missing_fields ["invoice_id"; "amount"; "total_paid"; "balance"; "status"] args with
  | [] =>
      invoice_id <- get_int "invoice_id" args ;;
      amount <- get_decimal "amount" args ;;
      total_paid <- get_decimal "total_paid" args ;;
      balance <- get_decimal "balance" args ;;
      status <- get_str "status" args ;;
      Ok (InvoiceSummary.mk invoice_id amount total_paid balance status)
  | missing => Raise (ValidationError missing)
  end.

(** [schemas.ReportInvoiceRow(...)]: [package_name] and [shoot_location]
    default to [None], the other seven fields are required. *)
Definition ReportInvoiceRow_init (args : kwargs) : Result ReportInvoiceRow.t :=
  match missing_fields ["client_name"; "invoice_amount"; "total_paid"; "balance";
                        "payment_status"; "invoice_id"; "issued_date"] args with
  | [] =>
      client_name <- get_str "client_name" args ;;
      package_name <- get_optional_str "package_name" args ;;
      invoice_amount <- get_decimal "invoice_amount" args ;;
      total_paid <- get_decimal "total_paid" args ;;
      balance <- get_decimal "balance" args ;;
      shoot_location <- get_optional_str "shoot_location" args ;;
      payment_status <- get_str "payment_status" args ;;
      invoice_id <- get_int "invoice_id" args ;;
      issued_date <- get_date "issued_date" args ;;
      Ok (ReportInvoiceRow.mk client_name package_name invoice_amount total_paid
                              balance shoot_location payment_status invoice_id
                              issued_date)
  | missing => Raise (ValidationError missing)
  end.

(** ** Writing rows *)

(** The [setattr] loop followed by [commit], column by column: a field left
    out of the payload keeps the stored value; a column declared
    [nullable=False] refuses [None]. *)
Definition set_required {A} (f : Field A) (old : A) : Result A :=
  match f with
  | Absent => Ok old
  | Present (Some v) => Ok v
  | Present None => Raise IntegrityError
  end.

Definition set_nullable {A} (f : Field A) (old : option A) : option A :=
  match f with
  | Absent => old
  | Present v => v
  end.

(** Is the foreign key [fk] the id [id]? *)
Definition refers (fk : option Z) (id : Z) : bool :=
  match fk with
  | Some k => k =? id
  | None => false
  end.

(** ** routers/invoices.py *)

Definition create_invoice (payload : InvoiceCreate.t) (db : Store)
  : Result (Invoice.t * Store) :=
  match first (fun c => Client.client_id c =? InvoiceCreate.client_id payload) (clients db) with
  | None => Raise (HTTPException 400 "Client does not exist")
  | Some client =>
      _ <- match InvoiceCreate.shoot_id payload with
           | Some sid =>
               match first (fun s => Shoot.shoot_id s =? sid) (shoots db) with
               | None => Raise (HTTPException 400 "Shoot does not exist")
               | Some shoot => Ok tt
               end
           | None => Ok tt
           end ;;
      _ <- match InvoiceCreate.package_id payload with
           | Some pid =>
               match first (fun p => Package.package_id p =? pid) (packages db) with
               | None => Raise (HTTPException 400 "Package does not exist")
               | Some package => Ok tt
               end
           | None => Ok tt
           end ;;
      let invoice :=
        Invoice.mk (next_invoice_id db)
                   (InvoiceCreate.client_id payload)
                   (InvoiceCreate.shoot_id payload)
                   (InvoiceCreate.package_id payload)
                   (InvoiceCreate.amount payload)
                   (InvoiceCreate.status payload)
                   (InvoiceCreate.issued_date payload)
                   (InvoiceCreate.due_date payload) in
      Ok (invoice,
          mkStore (clients db) (shoots db) (packages db)
                  (invoices db ++ [invoice]) (payments db)
                  (next_client_id db) (next_shoot_id db) (next_package_id db)
                  (next_invoice_id db + 1) (next_payment_id db))
  end.

(** [issued_date.desc(), invoice_id.desc()]. *)
Definition invoice_order (a b : Invoice.t) : bool :=
  (Invoice.issued_date b <? Invoice.issued_date a)
  || ((Invoice.issued_date b =? Invoice.issued_date a)
      && (Invoice.invoice_id b <=? Invoice.invoice_id a)).

(** The optional [issued_date] range, inclusive at both ends. *)
Definition in_date_range (date_from date_to : option Z) (i : Invoice.t) : bool :=
  match date_from with
  | Some d => d <=? Invoice.issued_date i
  | None => true
  end
  && match date_to with
     | Some d => Invoice.issued_date i <=? d
     | None => true
     end.

Definition list_invoices (skip limit : option Z) (date_from date_to : option Z)
                         (db : Store) : Result (list Invoice.t) :=
  '(skip, limit) <- page_params skip limit ;;
  let q := filter (in_date_range date_from date_to) (invoices db) in
  Ok (window skip limit (order_by invoice_order q)).

Definition get_invoice (invoice_id : Z) (db : Store) : Result Invoice.t :=
  invoice_id <- path_id invoice_id ;;
  _get_invoice_or_404 db invoice_id.

(** The row [update_invoice] writes for [invoice]. *)
Definition invoice_update_row (payload : InvoiceUpdate.t) (invoice : Invoice.t)
  : Result Invoice.t :=
  amount <- set_required (InvoiceUpdate.amount payload) (Invoice.amount invoice) ;;
  status <- set_required (InvoiceUpdate.status payload) (Invoice.status invoice) ;;
  issued_date <- set_required (InvoiceUpdate.issued_date payload)
                              (Invoice.issued_date invoice) ;;
  Ok (Invoice.mk (Invoice.invoice_id invoice)
                 (Invoice.client_id invoice)
                 (set_nullable (InvoiceUpdate.shoot_id payload) (Invoice.shoot_id invoice))
                 (set_nullable (InvoiceUpdate.package_id payload) (Invoice.package_id invoice))
                 amount status issued_date
                 (set_nullable (InvoiceUpdate.due_date payload) (Invoice.due_date invoice))).

Definition update_invoice (invoice_id : Z) (payload : InvoiceUpdate.t) (db : Store)
  : Result (Invoice.t * Store) :=
  invoice_id <- path_id invoice_id ;;
  invoice <- _get_invoice_or_404 db invoice_id ;;
  _ <- match InvoiceUpdate.shoot_id payload with
       | Present (Some sid) =>
           match first (fun s => Shoot.shoot_id s =? sid) (shoots db) with
           | None => Raise (HTTPException 400 "Shoot does not exist")
           | Some _ => Ok tt
           end
       | _ => Ok tt
       end ;;
  _ <- match InvoiceUpdate.package_id payload with
       | Present (Some pid) =>
           match first (fun p => Package.package_id p =? pid) (packages db) with
           | None => Raise (HTTPException 400 "Package does not exist")
           | Some _ => Ok tt
           end
       | _ => Ok tt
       end ;;
  invoice' <- invoice_update_row payload invoice ;;
  Ok (invoice',
      mkStore (clients db) (shoots db) (packages db)
              (map (fun i => if Invoice.invoice_id i =? Invoice.invoice_id invoice
                             then invoice' else i) (invoices db))
              (payments db)
              (next_client_id db) (next_shoot_id db) (next_package_id db)
              (next_invoice_id db) (next_payment_id db)).

(** [db.delete(invoice)]: the relationship [Invoice.payments] cascades. *)
Definition delete_invoice (invoice_id : Z) (db : Store) : Result (unit * Store) :=
  invoice_id <- path_id invoice_id ;;
  invoice <- _get_invoice_or_404 db invoice_id ;;
  Ok (tt,
      mkStore (clients db) (shoots db) (packages db)
              (filter (fun i => negb (Invoice.invoice_id i =? Invoice.invoice_id invoice))
                      (invoices db))
              (filter (fun p => negb (Payment.invoice_id p =? Invoice.invoice_id invoice))
                      (payments db))
              (next_client_id db) (next_shoot_id db) (next_package_id db)
              (next_invoice_id db) (next_payment_id db)).

Definition get_invoice_summary (invoice_id : Z) (db : Store) : Result InvoiceSummary.t :=
  invoice_id <- path_id invoice_id ;;
  invoice <- _get_invoice_or_404 db invoice_id ;;
  let total_paid := total_paid_of db (Invoice.invoice_id invoice) in
  let balance := Invoice.amount invoice - total_paid in
  let status :=
    if balance =? 0 then "paid"
    else if (0 <? total_paid) && (total_paid <? Invoice.amount invoice) then "partial"
    else "unpaid" in
  InvoiceSummary_init
    [("invoice_id", VInt (Invoice.invoice_id invoice));
     ("amount", VDecimal (Invoice.amount invoice));
     ("total_paid", VDecimal total_paid);
     ("balance", VDecimal balance);
     ("status", VStr status)].

(** ** routers/reports.py *)

(** A row of the joined, grouped query of [report_invoices]. *)
Module ReportQueryRow.
Record t : Type := mk
  { invoice_id : Z;
    issued_date : Z;
    due_date : option Z;
    client_name : string;
    package_name : option string;
    amount : Z;
    total_paid : Z }.
End ReportQueryRow.

(** The query: invoices in the date range, inner-joined to their client and
    outer-joined to their package by primary key, with the payments of each
    invoice summed in its group, ordered by [issued_date] then [invoice_id],
    both descending. *)
Definition report_query (date_from date_to : option Z) (db : Store)
  : list ReportQueryRow.t :=
  flat_map
    (fun inv =>
       match first (fun c => Client.client_id c =? Invoice.client_id inv) (clients db) with
       | None => []
       | Some cli =>
           let pkg := first (fun p => refers (Invoice.package_id inv) (Package.package_id p))
                            (packages db) in
           [ReportQueryRow.mk
              (Invoice.invoice_id inv) (Invoice.issued_date inv) (Invoice.due_date inv)
              (Client.name cli) (option_map Package.name pkg) (Invoice.amount inv)
              (coalesce (sql_sum (map Payment.amount
                                      (payments_of db (Invoice.invoice_id inv)))) 0)]
       end)
    (order_by invoice_order (filter (in_date_range date_from date_to) (invoices db))).

(** Python's [x or 0] on a number. *)
Definition or_zero (x : Z) : Z := if x =? 0 then 0 else x.

(** The body of the loop of [report_invoices] up to the construction of the
    row: [amount], [total_paid], [balance] and [status] of a query row. *)
Definition report_derive (r : ReportQueryRow.t) : Z * Z * Z * string :=
  let total_paid := or_zero (ReportQueryRow.total_paid r) in
  let amount := or_zero (ReportQueryRow.amount r) in
  let balance := amount - total_paid in
  let status :=
    if balance =? 0 then "paid"
    else if (0 <? total_paid) && (total_paid <? amount) then "partial"
    else "unpaid" in
  (amount, total_paid, balance, status).

(** The construction [schemas.ReportInvoiceRow(invoice_id=..., ..., status=status)]
    with the keywords the loop passes. *)
Definition report_row (r : ReportQueryRow.t) : Result ReportInvoiceRow.t :=
  let '(amount, total_paid, balance, status) := report_derive r in
  ReportInvoiceRow_init
    [("invoice_id", VInt (ReportQueryRow.invoice_id r));
     ("issued_date", VDate (ReportQueryRow.issued_date r));
     ("due_date", optional_date (ReportQueryRow.due_date r));
     ("client_name", VStr (ReportQueryRow.client_name r));
     ("package_name", optional_str (ReportQueryRow.package_name r));
     ("amount", VDecimal amount);
     ("total_paid", VDecimal total_paid);
     ("balance", VDecimal balance);
     ("status", VStr status)].

(** The loop [for r in rows: results.append(...)]. *)
Fixpoint report_loop (rows : list ReportQueryRow.t) : Result (list ReportInvoiceRow.t) :=
  match rows with
  | [] => Ok []
  | r :: rest =>
      row <- report_row r ;;
      results <- report_loop rest ;;
      Ok (row :: results)
  end.

Definition report_invoices (date_from date_to : option Z) (db : Store)
  : Result (list ReportInvoiceRow.t) :=
  report_loop (report_query date_from date_to db).

Section Routers.

(** The collation of the store: two strings are equal for the database when
    their normal forms are. *)
Variable collate : string -> string.

Definition same_text (a b : string) : bool := String.eqb (collate a) (collate b).

(** [column == value] in a filter, where [value] may be [None]: a comparison
    with NULL selects no row of a NOT NULL column. *)
Definition sql_eq (stored : string) (value : option string) : bool :=
  match value with
  | Some v => same_text stored v
  | None => false
  end.

(** ** routers/clients.py *)

Definition _get_client_or_404 (db : Store) (client_id : Z) : Result Client.t :=
  match first (fun c => Client.client_id c =? client_id) (clients db) with
  | Some obj => Ok obj
  | None => Raise (HTTPException 404 "Client not found")
  end.

Definition create_client (payload : ClientCreate.t) (db : Store)
  : Result (Client.t * Store) :=
  match first (fun c => same_text (Client.email c) (ClientCreate.email payload))
              (clients db) with
  | Some existing =>
      Raise (HTTPException 409 "A client with this email already exists")
  | None =>
      let client :=
        Client.mk (next_client_id db)
                  (ClientCreate.name payload)
                  (ClientCreate.email payload)
                  (ClientCreate.phone payload) in
      Ok (client,
          mkStore (clients db ++ [client]) (shoots db) (packages db)
                  (invoices db) (payments db)
                  (next_client_id db + 1) (next_shoot_id db) (next_package_id db)
                  (next_invoice_id db) (next_payment_id db))
  end.

Definition client_order (a b : Client.t) : bool :=
  Client.client_id a <=? Client.client_id b.

Definition list_clients (skip limit : option Z) (db : Store) : Result (list Client.t) :=
  '(skip, limit) <- page_params skip limit ;;
  Ok (window skip limit (order_by client_order (clients db))).

Definition get_client (client_id : Z) (db : Store) : Result Client.t :=
  client_id <- path_id client_id ;;
  _get_client_or_404 db client_id.

(** The row [update_client] writes for [client]. *)
Definition client_update_row (payload : ClientUpdate.t) (client : Client.t)
  : Result Client.t :=
  name <- set_required (ClientUpdate.name payload) (Client.name client) ;;
  email <- set_required (ClientUpdate.email payload) (Client.email client) ;;
  Ok (Client.mk (Client.client_id client) name email
                (set_nullable (ClientUpdate.phone payload) (Client.phone client))).

Definition update_client (client_id : Z) (payload : ClientUpdate.t) (db : Store)
  : Result (Client.t * Store) :=
  client_id <- path_id client_id ;;
  client <- _get_client_or_404 db client_id ;;
  _ <- match ClientUpdate.email payload with
       | Present email =>
           match first (fun c => sql_eq (Client.email c) email
                                 && negb (Client.client_id c =? client_id))
                       (clients db) with
           | Some clash =>
               Raise (HTTPException 409 "Oops another client already uses this email")
           | None => Ok tt
           end
       | Absent => Ok tt
       end ;;
  client' <- client_update_row payload client ;;
  Ok (client',
      mkStore (map (fun c => if Client.client_id c =? Client.client_id client
                             then client' else c) (clients db))
              (shoots db) (packages db) (invoices db) (payments db)
              (next_client_id db) (next_shoot_id db) (next_package_id db)
              (next_invoice_id db) (next_payment_id db)).

(** An invoice whose shoot is deleted and that stays: [Shoot.invoices] has no
    delete cascade and the foreign key is [ON DELETE SET NULL]. *)
Definition clear_shoot (gone : Z -> bool) (i : Invoice.t) : Invoice.t :=
  match Invoice.shoot_id i with
  | Some sid =>
      if gone sid
      then Invoice.mk (Invoice.invoice_id i) (Invoice.client_id i) None
                      (Invoice.package_id i) (Invoice.amount i) (Invoice.status i)
                      (Invoice.issued_date i) (Invoice.due_date i)
      else i
  | None => i
  end.

(** The same for the package of an invoice. *)
Definition clear_package (gone : Z -> bool) (i : Invoice.t) : Invoice.t :=
  match Invoice.package_id i with
  | Some pid =>
      if gone pid
      then Invoice.mk (Invoice.invoice_id i) (Invoice.client_id i) (Invoice.shoot_id i)
                      None (Invoice.amount i) (Invoice.status i)
                      (Invoice.issued_date i) (Invoice.due_date i)
      else i
  | None => i
  end.

(** [db.delete(client)]: [Client.shoots] and [Client.invoices] cascade
    ("all, delete-orphan"), and so does [Invoice.payments] of each invoice
    deleted that way; an invoice that stays loses its reference to a deleted
    shoot. *)
Definition delete_client (client_id : Z) (db : Store) : Result (unit * Store) :=
  client_id <- path_id client_id ;;
  client <- _get_client_or_404 db client_id ;;
  let own_shoot := fun s => Shoot.client_id s =? Client.client_id client in
  let own_invoice := fun i => Invoice.client_id i =? Client.client_id client in
  let shoot_gone :=
    fun sid => existsb (fun s => Shoot.shoot_id s =? sid) (filter own_shoot (shoots db)) in
  let invoice_gone :=
    fun iid => existsb (fun i => Invoice.invoice_id i =? iid)
                       (filter own_invoice (invoices db)) in
  Ok (tt,
      mkStore (filter (fun c => negb (Client.client_id c =? Client.client_id client))
                      (clients db))
              (filter (fun s => negb (own_shoot s)) (shoots db))
              (packages db)
              (map (clear_shoot shoot_gone)
                   (filter (fun i => negb (own_invoice i)) (invoices db)))
              (filter (fun p => negb (invoice_gone (Payment.invoice_id p))) (payments db))
              (next_client_id db) (next_shoot_id db) (next_package_id db)
              (next_invoice_id db) (next_payment_id db)).

(** ** routers/shoots.py *)

Definition _get_shoot_or_404 (db : Store) (shoot_id : Z) : Result Shoot.t :=
  match first (fun s => Shoot.shoot_id s =? shoot_id) (shoots db) with
  | Some obj => Ok obj
  | None => Raise (HTTPException 404 "Shoot not found")
  end.

Definition create_shoot (payload : ShootCreate.t) (db : Store)
  : Result (Shoot.t * Store) :=
  match first (fun c => Client.client_id c =? ShootCreate.client_id payload) (clients db) with
  | None => Raise (HTTPException 400 "Client does not exist")
  | Some client =>
      let shoot :=
        Shoot.mk (next_shoot_id db)
                 (ShootCreate.client_id payload)
                 (ShootCreate.shoot_date payload)
                 (ShootCreate.location payload) in
      Ok (shoot,
          mkStore (clients db) (shoots db ++ [shoot]) (packages db)
                  (invoices db) (payments db)
                  (next_client_id db) (next_shoot_id db + 1) (next_package_id db)
                  (next_invoice_id db) (next_payment_id db))
  end.

(** [shoot_date.desc(), shoot_id.desc()]. *)
Definition shoot_order (a b : Shoot.t) : bool :=
  (Shoot.shoot_date b <? Shoot.shoot_date a)
  || ((Shoot.shoot_date b =? Shoot.shoot_date a)
      && (Shoot.shoot_id b <=? Shoot.shoot_id a)).

Definition list_shoots (skip limit : option Z) (db : Store) : Result (list Shoot.t) :=
  '(skip, limit) <- page_params skip limit ;;
  Ok (window skip limit (order_by shoot_order (shoots db))).

Definition get_shoot (shoot_id : Z) (db : Store) : Result Shoot.t :=
  shoot_id <- path_id shoot_id ;;
  _get_shoot_or_404 db shoot_id.

(** The row [update_shoot] writes for [shoot]. *)
Definition shoot_update_row (payload : ShootUpdate.t) (shoot : Shoot.t)
  : Result Shoot.t :=
  shoot_date <- set_required (ShootUpdate.shoot_date payload) (Shoot.shoot_date shoot) ;;
  Ok (Shoot.mk (Shoot.shoot_id shoot) (Shoot.client_id shoot) shoot_date
               (set_nullable (ShootUpdate.location payload) (Shoot.location shoot))).

Definition update_shoot (shoot_id : Z) (payload : ShootUpdate.t) (db : Store)
  : Result (Shoot.t * Store) :=
  shoot_id <- path_id shoot_id ;;
  shoot <- _get_shoot_or_404 db shoot_id ;;
  shoot' <- shoot_update_row payload shoot ;;
  Ok (shoot',
      mkStore (clients db)
              (map (fun s => if Shoot.shoot_id s =? Shoot.shoot_id shoot
                             then shoot' else s) (shoots db))
              (packages db) (invoices db) (payments db)
              (next_client_id db) (next_shoot_id db) (next_package_id db)
              (next_invoice_id db) (next_payment_id db)).

Definition delete_shoot (shoot_id : Z) (db : Store) : Result (unit * Store) :=
  shoot_id <- path_id shoot_id ;;
  shoot <- _get_shoot_or_404 db shoot_id ;;
  Ok (tt,
      mkStore (clients db)
              (filter (fun s => negb (Shoot.shoot_id s =? Shoot.shoot_id shoot)) (shoots db))
              (packages db)
              (map (clear_shoot (fun sid => sid =? Shoot.shoot_id shoot)) (invoices db))
              (payments db)
              (next_client_id db) (next_shoot_id db) (next_package_id db)
              (next_invoice_id db) (next_payment_id db)).

(** ** routers/packages.py *)

Definition _get_package_or_404 (db : Store) (package_id : Z) : Result Package.t :=
  match first (fun p => Package.package_id p =? package_id) (packages db) with
  | Some obj => Ok obj
  | None => Raise (HTTPException 404 "Package not found")
  end.

(** [commit] on the [packages] table: the unique index on [name]. *)
Definition package_name_taken (row : Package.t) (db : Store) : bool :=
  existsb (fun p => same_text (Package.name p) (Package.name row)
                    && negb (Package.package_id p =? Package.package_id row))
          (packages db).

Definition create_package (payload : PackageCreate.t) (db : Store)
  : Result (Package.t * Store) :=
  let package :=
    Package.mk (next_package_id db)
               (PackageCreate.name payload)
               (PackageCreate.description payload)
               (PackageCreate.price payload)
               (PackageCreate.is_active payload) in
  if package_name_taken package db then Raise IntegrityError
  else
    Ok (package,
        mkStore (clients db) (shoots db) (packages db ++ [package])
                (invoices db) (payments db)
                (next_client_id db) (next_shoot_id db) (next_package_id db + 1)
                (next_invoice_id db) (next_payment_id db)).

Definition package_order (a b : Package.t) : bool :=
  Package.package_id b <=? Package.package_id a.

Definition list_packages (skip limit : option Z) (db : Store) : Result (list Package.t) :=
  '(skip, limit) <- page_params skip limit ;;
  Ok (window skip limit (order_by package_order (packages db))).

Definition get_package (package_id : Z) (db : Store) : Result Package.t :=
  package_id <- path_id package_id ;;
  _get_package_or_404 db package_id.

(** The row [update_package] writes for [package]. *)
Definition package_update_row (payload : PackageUpdate.t) (package : Package.t)
  : Result Package.t :=
  name <- set_required (PackageUpdate.name payload) (Package.name package) ;;
  price <- set_required (PackageUpdate.price payload) (Package.price package) ;;
  is_active <- set_required (PackageUpdate.is_active payload) (Package.is_active package) ;;
  Ok (Package.mk (Package.package_id package) name
                 (set_nullable (PackageUpdate.description payload)
                               (Package.description package))
                 price is_active).

Definition update_package (package_id : Z) (payload : PackageUpdate.t) (db : Store)
  : Result (Package.t * Store) :=
  package_id <- path_id package_id ;;
  package <- _get_package_or_404 db package_id ;;
  package' <- package_update_row payload package ;;
  if package_name_taken package' db then Raise IntegrityError
  else
    Ok (package',
        mkStore (clients db) (shoots db)
                (map (fun p => if Package.package_id p =? Package.package_id package
                               then package' else p) (packages db))
                (invoices db) (payments db)
                (next_client_id db) (next_shoot_id db) (next_package_id db)
                (next_invoice_id db) (next_payment_id db)).

Definition delete_package (package_id : Z) (db : Store) : Result (unit * Store) :=
  package_id <- path_id package_id ;;
  package <- _get_package_or_404 db package_id ;;
  Ok (tt,
      mkStore (clients db) (shoots db)
              (filter (fun p => negb (Package.package_id p =? Package.package_id package))
                      (packages db))
              (map (clear_package (fun pid => pid =? Package.package_id package))
                   (invoices db))
              (payments db)
              (next_client_id db) (next_shoot_id db) (next_package_id db)
              (next_invoice_id db) (next_payment_id db)).

(** ** The system as a whole: the writing requests *)

Inductive Op : Type :=
| CreateClient (payload : ClientCreate.t)
| UpdateClient (client_id : Z) (payload : ClientUpdate.t)
| DeleteClient (client_id : Z)
| CreateShoot (payload : ShootCreate.t)
| UpdateShoot (shoot_id : Z) (payload : ShootUpdate.t)
| DeleteShoot (shoot_id : Z)
| CreatePackage (payload : PackageCreate.t)
| UpdatePackage (package_id : Z) (payload : PackageUpdate.t)
| DeletePackage (package_id : Z)
| CreateInvoice (payload : InvoiceCreate.t)
| UpdateInvoice (invoice_id : Z) (payload : InvoiceUpdate.t)
| DeleteInvoice (invoice_id : Z)
| CreatePayment (now : Z) (payload : PaymentCreate.t)
| DeletePayment (payment_id : Z).

(** The store a handler leaves: what it committed, or the store as it was when
    it raised. *)
Definition committed {A} (db : Store) (r : Result (A * Store)) : Store :=
  match r with
  | Ok (_, db') => db'
  | Raise _ => db
  end.

Definition step (db : Store) (op : Op) : Store :=
  match op with
  | CreateClient payload => committed db (create_client payload db)
  | UpdateClient id payload => committed db (update_client id payload db)
  | DeleteClient id => committed db (delete_client id db)
  | CreateShoot payload => committed db (create_shoot payload db)
  | UpdateShoot id payload => committed db (update_shoot id payload db)
  | DeleteShoot id => committed db (delete_shoot id db)
  | CreatePackage payload => committed db (create_package payload db)
  | UpdatePackage id payload => committed db (update_package id payload db)
  | DeletePackage id => committed db (delete_package id db)
  | CreateInvoice payload => committed db (create_invoice payload db)
  | UpdateInvoice id payload => committed db (update_invoice id payload db)
  | DeleteInvoice id => committed db (delete_invoice id db)
  | CreatePayment now payload => committed db (create_payment now payload db)
  | DeletePayment id => committed db (delete_payment id db)
  end.

Definition run (db : Store) (ops : list Op) : Store := fold_left step ops db.

End Routers.

(** ** Two payment requests at once

    [create_payment] talks to the store twice: the checks read the invoice and
    the sum of its payments, and the insert writes the new row.  Each request
    has its own session and the handler takes no lock on the invoice
    (no [with_for_update], no isolation level set on the engine), so between
    the two steps of one request the steps of another may run.  A request in
    flight is in one of three states, and a schedule says whose turn it is. *)

Inductive Request : Type :=
| Submitted (now : Z) (payload : PaymentCreate.t)
| Checked (now : Z) (payload : PaymentCreate.t)
| Finished (response : Result Payment.t).

Definition advance (req : Request) (db : Store) : Request * Store :=
  match req with
  | Submitted now payload =>
      match create_payment_check payload db with
      | Ok _ => (Checked now payload, db)
      | Raise e => (Finished (Raise e), db)
      end
  | Checked now payload =>
      let '(payment, db') := create_payment_insert now payload db in
      (Finished (Ok payment), db')
  | Finished response => (req, db)
  end.

(** [false]: the first request takes a step; [true]: the second does. *)
Fixpoint interleave (schedule : list bool) (r1 r2 : Request) (db : Store)
  : Request * Request * Store :=
  match schedule with
  | [] => (r1, r2, db)
  | false :: rest => let '(r1', db') := advance r1 db in interleave rest r1' r2 db'
  | true :: rest => let '(r2', db') := advance r2 db in interleave rest r1 r2' db'
  end.

Definition accepted (req : Request) : bool :=
  match req with
  | Finished (Ok _) => true
  | _ => false
  end.

(** * Vocabulary of the properties *)

(** ** Sums of payments *)

Definition sum_amounts (ps : list Payment.t) : Z :=
  fold_right Z.add 0 (map Payment.amount ps).

(** ** The invariant on payments and the requests that keep it *)

(** The invariant of the specification. *)
Definition never_overpaid (db : Store) : Prop :=
  forall inv, In inv (invoices db) ->
    sum_amounts (payments_of db (Invoice.invoice_id inv)) <= Invoice.amount inv.

(** What the handlers maintain with it. *)
Record payments_sound (db : Store) : Prop := mk_payments_sound
  { sound_never_overpaid : never_overpaid db;
    sound_invoice_ids : NoDup (map Invoice.invoice_id (invoices db));
    sound_invoice_range :
      forall inv, In inv (invoices db) -> Invoice.invoice_id inv < next_invoice_id db;
    sound_payment_positive :
      forall p, In p (payments db) -> 0 < Payment.amount p;
    sound_payment_range :
      forall p, In p (payments db) -> Payment.invoice_id p < next_invoice_id db }.

(** The requests that cannot bring an invoice below its payments: an invoice
    is created with a non-negative amount, and an update does not set the
    amount below what is paid.  Every other request qualifies. *)
Definition respects_payments (db : Store) (op : Op) : Prop :=
  match op with
  | CreateInvoice payload => 0 <= InvoiceCreate.amount payload
  | UpdateInvoice invoice_id payload =>
      match InvoiceUpdate.amount payload with
      | Present (Some a) => sum_amounts (payments_of db invoice_id) <= a
      | _ => True
      end
  | _ => True
  end.

(** The stores that requests of that kind lead to. *)
Inductive reachable (collate : string -> string) : Store -> Prop :=
| reachable_empty : reachable collate empty_store
| reachable_step (db : Store) (op : Op) :
    reachable collate db ->
    respects_payments db op ->
    reachable collate (step collate db op).

(** ** Keys *)

(** What the store keeps of its keys under every request: invoice ids are
    unique and are ids the path accepts, and so are client ids; no two clients
    share an email. *)
Record keys_sound (collate : string -> string) (db : Store) : Prop := mk_keys_sound
  { keys_invoice_ids : NoDup (map Invoice.invoice_id (invoices db));
    keys_invoice_range :
      forall i, In i (invoices db) -> 1 <= Invoice.invoice_id i < next_invoice_id db;
    keys_invoice_next : 1 <= next_invoice_id db;
    keys_client_range :
      forall c, In c (clients db) -> 1 <= Client.client_id c < next_client_id db;
    keys_client_next : 1 <= next_client_id db;
    keys_email :
      forall c d, In c (clients db) -> In d (clients db) ->
        same_text collate (Client.email c) (Client.email d) = true ->
        Client.client_id c = Client.client_id d }.

(** ** Orders and pages *)

(** The documented orders: [a] may stand before [b]. *)
Definition id_ascending {A} (id : A -> Z) (a b : A) : Prop := id a <= id b.

Definition id_descending {A} (id : A -> Z) (a b : A) : Prop := id b <= id a.

Definition most_recent_first {A} (date id : A -> Z) (a b : A) : Prop :=
  date b < date a \/ (date b = date a /\ id b <= id a).

(** [page] is the window [skip], [limit] of the table in the order [before]. *)
Definition page_of {A} (before : A -> A -> Prop) (table : list A) (skip limit : Z)
                   (page : list A) : Prop :=
  exists sorted,
    Permutation sorted table
    /\ StronglySorted before sorted
    /\ page = firstn (Z.to_nat limit) (skipn (Z.to_nat skip) sorted).

(** ** Partial updates *)

(** What a field of the payload does to a column: left out, the column keeps
    its value; present, the column takes the value of the payload. *)
Definition patch_required {A} (f : Field A) (old new : A) : Prop :=
  (f = Absent -> new = old) /\ (forall v, f = Present (Some v) -> new = v).

Definition patch_nullable {A} (f : Field A) (old new : option A) : Prop :=
  (f = Absent -> new = old) /\ (forall v, f = Present v -> new = v).

Definition client_patched (payload : ClientUpdate.t) (old new : Client.t) : Prop :=
  Client.client_id new = Client.client_id old
  /\ patch_required (ClientUpdate.name payload) (Client.name old) (Client.name new)
  /\ patch_required (ClientUpdate.email payload) (Client.email old) (Client.email new)
  /\ patch_nullable (ClientUpdate.phone payload) (Client.phone old) (Client.phone new).

Definition shoot_patched (payload : ShootUpdate.t) (old new : Shoot.t) : Prop :=
  Shoot.shoot_id new = Shoot.shoot_id old
  /\ Shoot.client_id new = Shoot.client_id old
  /\ patch_required (ShootUpdate.shoot_date payload)
                    (Shoot.shoot_date old) (Shoot.shoot_date new)
  /\ patch_nullable (ShootUpdate.location payload)
                    (Shoot.location old) (Shoot.location new).

Definition package_patched (payload : PackageUpdate.t) (old new : Package.t) : Prop :=
  Package.package_id new = Package.package_id old
  /\ patch_required (PackageUpdate.name payload) (Package.name old) (Package.name new)
  /\ patch_nullable (PackageUpdate.description payload)
                    (Package.description old) (Package.description new)
  /\ patch_required (PackageUpdate.price payload) (Package.price old) (Package.price new)
  /\ patch_required (PackageUpdate.is_active payload)
                    (Package.is_active old) (Package.is_active new).

Definition invoice_patched (payload : InvoiceUpdate.t) (old new : Invoice.t) : Prop :=
  Invoice.invoice_id new = Invoice.invoice_id old
  /\ Invoice.client_id new = Invoice.client_id old
  /\ patch_required (InvoiceUpdate.amount payload) (Invoice.amount old) (Invoice.amount new)
  /\ patch_required (InvoiceUpdate.status payload) (Invoice.status old) (Invoice.status new)
  /\ patch_required (InvoiceUpdate.issued_date payload)
                    (Invoice.issued_date old) (Invoice.issued_date new)
  /\ patch_nullable (InvoiceUpdate.due_date payload)
                    (Invoice.due_date old) (Invoice.due_date new)
  /\ patch_nullable (InvoiceUpdate.shoot_id payload)
                    (Invoice.shoot_id old) (Invoice.shoot_id new)
  /\ patch_nullable (InvoiceUpdate.package_id payload)
                    (Invoice.package_id old) (Invoice.package_id new).

(** ** What a client owns *)

(** The shoot [sid] is a shoot of the client [client_id]. *)
Definition shoot_of_client (db : Store) (client_id sid : Z) : Prop :=
  exists s, In s (shoots db) /\ Shoot.client_id s = client_id /\ Shoot.shoot_id s = sid.

(** The invoice [iid] is an invoice of the client [client_id]. *)
Definition invoice_of_client (db : Store) (client_id iid : Z) : Prop :=
  exists i, In i (invoices db) /\ Invoice.client_id i = client_id
            /\ Invoice.invoice_id i = iid.

(** [b] is [a] in every column but [shoot_id]. *)
Definition same_but_shoot (a b : Invoice.t) : Prop :=
  Invoice.invoice_id b = Invoice.invoice_id a
  /\ Invoice.client_id b = Invoice.client_id a
  /\ Invoice.package_id b = Invoice.package_id a
  /\ Invoice.amount b = Invoice.amount a
  /\ Invoice.status b = Invoice.status a
  /\ Invoice.issued_date b = Invoice.issued_date a
  /\ Invoice.due_date b = Invoice.due_date a.

(** ** Primary keys, references and values of all tables *)

(** A table is keyed: its ids are pairwise distinct and were handed out by
    the counter, which started at 1. *)
Definition keyed {A} (id : A -> Z) (next : Z) (rows : list A) : Prop :=
  NoDup (map id rows)
  /\ (forall r, In r rows -> 1 <= id r < next)
  /\ 1 <= next.

Record ids_sound (db : Store) : Prop := mk_ids_sound
  { ids_clients : keyed Client.client_id (next_client_id db) (clients db);
    ids_shoots : keyed Shoot.shoot_id (next_shoot_id db) (shoots db);
    ids_packages : keyed Package.package_id (next_package_id db) (packages db);
    ids_invoices : keyed Invoice.invoice_id (next_invoice_id db) (invoices db);
    ids_payments : keyed Payment.payment_id (next_payment_id db) (payments db) }.

(** The foreign keys of the schema refer to stored rows. *)
Record refs_sound (db : Store) : Prop := mk_refs_sound
  { refs_shoot_client :
      forall s, In s (shoots db) ->
        exists c, In c (clients db) /\ Client.client_id c = Shoot.client_id s;
    refs_invoice_client :
      forall i, In i (invoices db) ->
        exists c, In c (clients db) /\ Client.client_id c = Invoice.client_id i;
    refs_invoice_shoot :
      forall i sid, In i (invoices db) -> Invoice.shoot_id i = Some sid ->
        exists s, In s (shoots db) /\ Shoot.shoot_id s = sid;
    refs_invoice_package :
      forall i pid, In i (invoices db) -> Invoice.package_id i = Some pid ->
        exists p, In p (packages db) /\ Package.package_id p = pid;
    refs_payment_invoice :
      forall p, In p (payments db) ->
        exists i, In i (invoices db) /\ Invoice.invoice_id i = Payment.invoice_id p }.

(** Every stored payment is of a positive amount. *)
Definition payments_positive (db : Store) : Prop :=
  forall p, In p (payments db) -> 0 < Payment.amount p.

(** No two packages share a name, under the comparison of the store. *)
Definition package_names_unique (collate : string -> string) (db : Store) : Prop :=
  forall p q, In p (packages db) -> In q (packages db) ->
    same_text collate (Package.name p) (Package.name q) = true ->
    Package.package_id p = Package.package_id q.

(** No two clients share an email, under the comparison of the store. *)
Definition emails_unique (collate : string -> string) (db : Store) : Prop :=
  forall c d, In c (clients db) -> In d (clients db) ->
    same_text collate (Client.email c) (Client.email d) = true ->
    Client.client_id c = Client.client_id d.

(** [b] is [a] in every column but [package_id]. *)
Definition same_but_package (a b : Invoice.t) : Prop :=
  Invoice.invoice_id b = Invoice.invoice_id a
  /\ Invoice.client_id b = Invoice.client_id a
  /\ Invoice.shoot_id b = Invoice.shoot_id a
  /\ Invoice.amount b = Invoice.amount a
  /\ Invoice.status b = Invoice.status a
  /\ Invoice.issued_date b = Invoice.issued_date a
  /\ Invoice.due_date b = Invoice.due_date a.

(** A request that has passed its checks: it is accepted, or will be at its
    next step. *)
Definition passed (req : Request) : bool :=
  match req with
  | Checked _ _ => true
  | Finished (Ok _) => true
  | _ => false
  end.

(** A request that has been answered. *)
Definition finished (req : Request) : bool :=
  match req with
  | Finished _ => true
  | _ => false
  end.

(** ** Sample stores, built by requests from the empty store *)

(** The binary collation: strings are compared as they are. *)
Definition binary : string -> string := fun s => s.

(** One client with one invoice of 100.00 and no payment. *)
Definition studio_ops : list Op :=
  [CreateClient (ClientCreate.mk "Ana" "ana@example.com" None);
   CreateInvoice (InvoiceCreate.mk 1 10000 20240105 "draft" None None None)].

Definition studio : Store := run binary empty_store studio_ops.

(** The same after a payment of 60.00. *)
Definition studio_partly_paid : Store :=
  run binary studio [CreatePayment 500 (PaymentCreate.mk 1 6000 (Some "card") None)].

(** An invoice of 100.00 with a payment of 60.00, then updated to an amount of
    50.00. *)
Definition lowered_invoice_ops : list Op :=
  [CreateClient (ClientCreate.mk "Ana" "ana@example.com" None);
   CreateInvoice (InvoiceCreate.mk 1 10000 20240105 "draft" None None None);
   CreatePayment 500 (PaymentCreate.mk 1 6000 None None);
   UpdateInvoice 1 (InvoiceUpdate.mk (Present (Some 5000)) Absent Absent Absent Absent Absent)].

(** Two payments on the invoice of [studio], the second one recorded with an
    earlier [paid_at] than the first. *)
Definition backdated : Store :=
  run binary studio
    [CreatePayment 500 (PaymentCreate.mk 1 1000 None (Some 20240110));
     CreatePayment 501 (PaymentCreate.mk 1 1000 None (Some 20240103))].

(** Two clients. *)
Definition two_clients : Store :=
  run binary empty_store
    [CreateClient (ClientCreate.mk "Ana" "ana@example.com" None);
     CreateClient (ClientCreate.mk "Ben" "ben@example.com" (Some "555-0100"))].

(** Ana and Ben; a shoot of Ana; an invoice of Ben that refers to that shoot,
    with a payment. *)
Definition shared_shoot : Store :=
  run binary two_clients
    [CreateShoot (ShootCreate.mk 1 20240110 (Some "Harbour"));
     CreateInvoice (InvoiceCreate.mk 2 10000 20240105 "draft" None (Some 1) None);
     CreatePayment 500 (PaymentCreate.mk 1 2500 None None)].

(** Ana and Ben; a package; an invoice of Ana for that package. *)
Definition packaged : Store :=
  run binary two_clients
    [CreatePackage (PackageCreate.mk "Wedding" None 150000 true);
     CreateInvoice (InvoiceCreate.mk 1 150000 20240201 "draft" None None (Some 1))].

(** * Properties *)

(** ** Facts about the query helpers *)

Lemma coalesce_sql_sum (xs : list Z) :
  coalesce (sql_sum xs) 0 = fold_right Z.add 0 xs.
Proof.
  induction xs as [|x rest IH]; simpl; [reflexivity|].
  destruct (sql_sum rest) as [s|] eqn:E; simpl in *; lia.
Qed.

Lemma total_paid_of_sum (db : Store) (iid : Z) :
  total_paid_of db iid = sum_amounts (payments_of db iid).
Proof. apply coalesce_sql_sum. Qed.

Lemma sum_amounts_app (ps qs : list Payment.t) :
  sum_amounts (ps ++ qs) = sum_amounts ps + sum_amounts qs.
Proof.
  unfold sum_amounts. induction ps as [|p ps IH]; simpl; [reflexivity|].
  rewrite IH. lia.
Qed.

Lemma first_Some {A} (f : A -> bool) (rows : list A) (x : A) :
  first f rows = Some x -> In x rows /\ f x = true.
Proof. apply find_some. Qed.

Lemma first_None {A} (f : A -> bool) (rows : list A) :
  first f rows = None <-> (forall x, In x rows -> f x = false).
Proof.
  split.
  - intros H x Hx. exact (find_none f rows H x Hx).
  - intros H. induction rows as [|y rest IH]; simpl; [reflexivity|].
    rewrite (H y (or_introl eq_refl)). apply IH. intros x Hx. apply H. now right.
Qed.

Lemma get_invoice_Ok (db : Store) (iid : Z) (inv : Invoice.t) :
  _get_invoice_or_404 db iid = Ok inv ->
  In inv (invoices db) /\ Invoice.invoice_id inv = iid.
Proof.
  unfold _get_invoice_or_404.
  destruct (first _ _) as [obj|] eqn:E; [|discriminate].
  intros H. injection H as ->. apply first_Some in E. destruct E as [Hin Hid].
  split; [assumption|]. now apply Z.eqb_eq.
Qed.

Lemma get_invoice_Raise (db : Store) (iid : Z) :
  (forall inv, In inv (invoices db) -> Invoice.invoice_id inv <> iid) ->
  _get_invoice_or_404 db iid = Raise InvoiceNotFound.
Proof.
  intros H. unfold _get_invoice_or_404.
  destruct (first _ _) as [obj|] eqn:E; [|reflexivity].
  apply first_Some in E. destruct E as [Hin Hid].
  apply Z.eqb_eq in Hid. now elim (H obj Hin).
Qed.

(** The primary key decides the row: in a table without duplicate ids, the
    lookup of the id of a stored invoice finds that invoice. *)
Lemma get_invoice_of_stored (db : Store) (inv : Invoice.t) :
  NoDup (map Invoice.invoice_id (invoices db)) ->
  In inv (invoices db) ->
  _get_invoice_or_404 db (Invoice.invoice_id inv) = Ok inv.
Proof.
  unfold _get_invoice_or_404, first.
  induction (invoices db) as [|i rest IH]; simpl; intros Hnd Hin; [contradiction|].
  inversion Hnd as [|? ? Hnotin Hnd']; subst.
  destruct Hin as [->|Hin].
  - now rewrite Z.eqb_refl.
  - destruct (Invoice.invoice_id i =? Invoice.invoice_id inv) eqn:E.
    + apply Z.eqb_eq in E. elim Hnotin. rewrite E. now apply in_map.
    + now apply IH.
Qed.

(** ** C1: the payment acceptance rule *)

Lemma create_payment_insert_total (now : Z) (payload : PaymentCreate.t) (db : Store) :
  total_paid_of (snd (create_payment_insert now payload db))
                (PaymentCreate.invoice_id payload)
  = total_paid_of db (PaymentCreate.invoice_id payload) + PaymentCreate.amount payload.
Proof.
  rewrite !total_paid_of_sum. unfold payments_of. simpl.
  rewrite filter_app, sum_amounts_app. simpl.
  rewrite Z.eqb_refl. unfold sum_amounts at 2. simpl. lia.
Qed.

(** C1.  [create_payment] follows the acceptance rule, in this order: a
    non-positive amount is refused with [InvalidAmount], whether or not the
    invoice exists; then an id that resolves to no invoice is refused with
    [InvoiceNotFound]; then, for the invoice [inv] found, of amount [A] and
    with payments summing to [P], a payment with [P + p > A] is refused with
    [OverpaymentError]; any other payment (so also [P + p = A]) is stored as a
    new row of the payments table and the paid total of the invoice becomes
    [P + p]. *)
Theorem create_payment_acceptance_rule
    (now : Z) (payload : PaymentCreate.t) (db : Store) :
  let p := PaymentCreate.amount payload in
  let i := PaymentCreate.invoice_id payload in
  let P := sum_amounts (payments_of db i) in
  (p <= 0 -> create_payment now payload db = Raise InvalidAmount)
  /\ (0 < p ->
      (forall inv, In inv (invoices db) -> Invoice.invoice_id inv <> i) ->
      create_payment now payload db = Raise InvoiceNotFound)
  /\ (forall inv,
        0 < p ->
        _get_invoice_or_404 db i = Ok inv ->
        P + p > Invoice.amount inv ->
        create_payment now payload db = Raise OverpaymentError)
  /\ (forall inv,
        0 < p ->
        _get_invoice_or_404 db i = Ok inv ->
        P + p <= Invoice.amount inv ->
        exists payment db',
          create_payment now payload db = Ok (payment, db')
          /\ payments db' = payments db ++ [payment]
          /\ Payment.invoice_id payment = i
          /\ Payment.amount payment = p
          /\ sum_amounts (payments_of db' i) = P + p).
Proof.
  intros p i P. unfold create_payment, create_payment_check.
  repeat split.
  - intros Hp. fold p. destruct (Z.leb_spec p 0); [reflexivity|lia].
  - intros Hp Hnone. fold p i.
    destruct (Z.leb_spec p 0); [lia|].
    now rewrite (get_invoice_Raise db i Hnone).
  - intros inv Hp Hget Hover. fold p i.
    destruct (Z.leb_spec p 0); [lia|].
    rewrite Hget. simpl.
    destruct (get_invoice_Ok _ _ _ Hget) as [_ ->].
    rewrite total_paid_of_sum. fold P.
    destruct (Z.gtb_spec (P + p) (Invoice.amount inv)); [reflexivity|lia].
  - intros inv Hp Hget Hfit. fold p i.
    destruct (Z.leb_spec p 0); [lia|].
    rewrite Hget. simpl.
    destruct (get_invoice_Ok _ _ _ Hget) as [_ ->].
    rewrite total_paid_of_sum. fold P.
    destruct (Z.gtb_spec (P + p) (Invoice.amount inv)); [lia|].
    exists (fst (create_payment_insert now payload db)),
           (snd (create_payment_insert now payload db)).
    repeat split.
    unfold P. rewrite <- !total_paid_of_sum.
    apply (create_payment_insert_total now payload db).
Qed.

Lemma create_payment_acceptance_rule_witness :
  create_payment 600 (PaymentCreate.mk 7 0 None None) studio_partly_paid
    = Raise InvalidAmount
  /\ create_payment 600 (PaymentCreate.mk 7 100 None None) studio_partly_paid
     = Raise InvoiceNotFound
  /\ create_payment 600 (PaymentCreate.mk 1 4001 None None) studio_partly_paid
     = Raise OverpaymentError
  /\ exists payment db',
       create_payment 600 (PaymentCreate.mk 1 4000 None None) studio_partly_paid
         = Ok (payment, db')
       /\ payments db' = payments studio_partly_paid ++ [payment]
       /\ Payment.invoice_id payment = 1
       /\ Payment.amount payment = 4000
       /\ sum_amounts (payments_of db' 1) = 6000 + 4000.
Proof.
  split; [|split; [|split]].
  - apply (proj1 (create_payment_acceptance_rule
                    600 (PaymentCreate.mk 7 0 None None) studio_partly_paid)).
    simpl. lia.
  - apply (proj1 (proj2 (create_payment_acceptance_rule
                           600 (PaymentCreate.mk 7 100 None None) studio_partly_paid))).
    + simpl. lia.
    + simpl. intros inv [<-|[]]. simpl. lia.
  - apply (proj1 (proj2 (proj2 (create_payment_acceptance_rule
                           600 (PaymentCreate.mk 1 4001 None None) studio_partly_paid)))
             (Invoice.mk 1 1 None None 10000 "draft" 20240105 None)).
    + simpl. lia.
    + reflexivity.
    + vm_compute. reflexivity.
  - apply (proj2 (proj2 (proj2 (create_payment_acceptance_rule
                           600 (PaymentCreate.mk 1 4000 None None) studio_partly_paid)))
             (Invoice.mk 1 1 None None 10000 "draft" 20240105 None)).
    + simpl. lia.
    + reflexivity.
    + vm_compute. discriminate.
Defined.

(** ** C3: the invoice summary *)

(** C3.  For a stored invoice [inv], its id being the primary key and in the
    range of the path (as [run_keys] shows of every store that requests lead
    to), of amount [A] and with payments summing to [P] (0 when there are none),
    [get_invoice_summary] returns [total_paid = P] and [balance = A - P], with
    status "paid" when the balance is 0, "partial" when [0 < P < A] and
    "unpaid" in every other case; so an invoice with [A = 0] and [P = 0] has
    balance 0 and status "paid". *)
Theorem get_invoice_summary_values (db : Store) (inv : Invoice.t) :
  let A := Invoice.amount inv in
  let P := sum_amounts (payments_of db (Invoice.invoice_id inv)) in
  NoDup (map Invoice.invoice_id (invoices db)) ->
  In inv (invoices db) ->
  1 <= Invoice.invoice_id inv ->
  exists s,
    get_invoice_summary (Invoice.invoice_id inv) db = Ok s
    /\ InvoiceSummary.invoice_id s = Invoice.invoice_id inv
    /\ InvoiceSummary.amount s = A
    /\ InvoiceSummary.total_paid s = P
    /\ InvoiceSummary.balance s = A - P
    /\ (A - P = 0 -> InvoiceSummary.status s = "paid")
    /\ (0 < P < A -> InvoiceSummary.status s = "partial")
    /\ (A - P <> 0 -> ~ (0 < P < A) -> InvoiceSummary.status s = "unpaid")
    /\ (A = 0 -> P = 0 ->
        InvoiceSummary.balance s = 0 /\ InvoiceSummary.status s = "paid").
Proof.
  intros A P Hnd Hin Hid.
  unfold get_invoice_summary, path_id.
  destruct (Z.leb_spec 1 (Invoice.invoice_id inv)) as [_|]; [|lia].
  simpl. rewrite (get_invoice_of_stored db inv Hnd Hin). simpl.
  rewrite total_paid_of_sum. fold A P.
  eexists. split; [reflexivity|]. simpl.
  do 4 (split; [reflexivity|]).
  split; [|split; [|split]].
  - intros H0. now destruct (Z.eqb_spec (A - P) 0).
  - intros [H1 H2]. destruct (Z.eqb_spec (A - P) 0); [lia|].
    destruct (Z.ltb_spec 0 P); [|lia]. destruct (Z.ltb_spec P A); [|lia]. reflexivity.
  - intros Hb Hn. destruct (Z.eqb_spec (A - P) 0); [lia|].
    destruct (Z.ltb_spec 0 P); destruct (Z.ltb_spec P A); simpl; try reflexivity.
    elim Hn. lia.
  - intros HA HP. split; [lia|].
    destruct (Z.eqb_spec (A - P) 0); [reflexivity|lia].
Qed.

Lemma get_invoice_summary_values_witness :
  exists s,
    get_invoice_summary 1 studio_partly_paid = Ok s
    /\ InvoiceSummary.invoice_id s = 1
    /\ InvoiceSummary.amount s = 10000
    /\ InvoiceSummary.total_paid s = 6000
    /\ InvoiceSummary.balance s = 10000 - 6000
    /\ (10000 - 6000 = 0 -> InvoiceSummary.status s = "paid")
    /\ (0 < 6000 < 10000 -> InvoiceSummary.status s = "partial")
    /\ (10000 - 6000 <> 0 -> ~ (0 < 6000 < 10000) -> InvoiceSummary.status s = "unpaid")
    /\ (10000 = 0 -> 6000 = 0 ->
        InvoiceSummary.balance s = 0 /\ InvoiceSummary.status s = "paid").
Proof.
  apply (get_invoice_summary_values
           studio_partly_paid (Invoice.mk 1 1 None None 10000 "draft" 20240105 None)).
  - simpl. constructor; [intros []|constructor].
  - simpl. left. reflexivity.
  - simpl. lia.
Defined.

(** ** C4: the report *)

(** What the loop of [report_invoices] derives for an invoice, before it
    builds the row, is what the summary of that invoice carries. *)
Lemma report_derive_as_summary (db : Store) (inv : Invoice.t) (cli : Client.t)
    (pkg : option string) (s : InvoiceSummary.t) :
  get_invoice_summary (Invoice.invoice_id inv) db = Ok s ->
  _get_invoice_or_404 db (Invoice.invoice_id inv) = Ok inv ->
  report_derive
    (ReportQueryRow.mk (Invoice.invoice_id inv) (Invoice.issued_date inv)
       (Invoice.due_date inv) (Client.name cli) pkg (Invoice.amount inv)
       (coalesce (sql_sum (map Payment.amount
                               (payments_of db (Invoice.invoice_id inv)))) 0))
  = (InvoiceSummary.amount s, InvoiceSummary.total_paid s,
     InvoiceSummary.balance s, InvoiceSummary.status s).
Proof.
  unfold get_invoice_summary, path_id.
  destruct (1 <=? Invoice.invoice_id inv); [|discriminate]. simpl.
  intros Hs Hget. rewrite Hget in Hs. simpl in Hs.
  injection Hs as <-. unfold report_derive, total_paid_of, or_zero. simpl.
  set (P := coalesce _ 0). set (A := Invoice.amount inv).
  destruct (Z.eqb_spec P 0) as [->|]; destruct (Z.eqb_spec A 0) as [->|]; reflexivity.
Qed.

(** The construction of the row fails whatever the query row is: the keywords
    [amount] and [status] name no field of [ReportInvoiceRow], and its required
    fields [invoice_amount] and [payment_status] get no value. *)
Lemma report_row_raises (r : ReportQueryRow.t) :
  report_row r = Raise (ValidationError ["invoice_amount"; "payment_status"]).
Proof.
  unfold report_row.
  destruct (report_derive r) as [[[amount total_paid] balance] status].
  reflexivity.
Qed.

Lemma report_invoices_raises (date_from date_to : option Z) (db : Store) :
  report_query date_from date_to db <> [] ->
  report_invoices date_from date_to db
  = Raise (ValidationError ["invoice_amount"; "payment_status"]).
Proof.
  unfold report_invoices.
  destruct (report_query date_from date_to db) as [|r rest]; [congruence|].
  intros _. cbn [report_loop]. now rewrite report_row_raises.
Qed.

(** C4.  On a store with one client and one invoice of that client, without a
    package, [report_invoices] returns no row for the invoice: building the
    row raises [ValidationError]. *)
Theorem report_invoices_one_invoice_raises :
  report_query None None studio
  = [ReportQueryRow.mk 1 20240105 None "Ana" None 10000 0]
  /\ report_invoices None None studio
     = Raise (ValidationError ["invoice_amount"; "payment_status"]).
Proof. split; reflexivity. Qed.

(** ** C10: payments leave the invoices table alone *)

Lemma create_payment_invoices (now : Z) (payload : PaymentCreate.t) (db : Store) :
  invoices (committed db (create_payment now payload db)) = invoices db.
Proof.
  unfold create_payment.
  destruct (create_payment_check payload db) as [[]|e]; reflexivity.
Qed.

(** C10.  Payment requests leave the invoices table as it is, whether they
    are accepted or refused and however many there are: every invoice row, and
    so its stored [status], is after the requests what it was before.  (The
    status derived by [get_invoice_summary] and [report_invoices] is part of
    their result only: these handlers return no store.) *)
Theorem payments_keep_invoice_rows
    (collate : string -> string) (reqs : list (Z * PaymentCreate.t)) (db : Store) :
  invoices (run collate db (map (fun r => CreatePayment (fst r) (snd r)) reqs))
  = invoices db.
Proof.
  revert db. induction reqs as [|[now payload] reqs IH]; intros db.
  - reflexivity.
  - cbn [map fst snd]. unfold run in *. cbn [fold_left].
    rewrite IH. apply create_payment_invoices.
Qed.

(** After the two payments that settle the invoice of [studio], the summary
    says "paid" and the stored status still is "draft". *)
Example paid_invoice_keeps_stored_status :
  let db := run binary studio
              [CreatePayment 500 (PaymentCreate.mk 1 6000 None None);
               CreatePayment 501 (PaymentCreate.mk 1 4000 None None)] in
  option_map InvoiceSummary.status
    (match get_invoice_summary 1 db with Ok s => Some s | Raise _ => None end)
  = Some "paid"
  /\ map Invoice.status (invoices db) = ["draft"].
Proof. split; reflexivity. Qed.

(** ** C2: the sum of the payments of an invoice and its amount *)

Lemma filter_all {A} (l : list A) : filter (fun _ => true) l = l.
Proof. induction l as [|x l IH]; simpl; congruence. Qed.

Lemma filter_swap {A} (f g : A -> bool) (l : list A) :
  filter f (filter g l) = filter g (filter f l).
Proof.
  induction l as [|x l IH]; simpl; [reflexivity|].
  destruct (f x) eqn:Ef; destruct (g x) eqn:Eg; simpl;
    rewrite ?Ef, ?Eg, IH; reflexivity.
Qed.

Lemma NoDup_map_filter {A B} (f : A -> B) (g : A -> bool) (l : list A) :
  NoDup (map f l) -> NoDup (map f (filter g l)).
Proof.
  induction l as [|x l IH]; simpl; intros H; [constructor|].
  inversion H as [|? ? Hx Hl]; subst.
  destruct (g x); simpl; [constructor|]; auto.
  intros Hin. apply Hx. apply in_map_iff in Hin. destruct Hin as [y [Hy Hin]].
  apply filter_In in Hin. rewrite <- Hy. apply in_map. tauto.
Qed.

Lemma NoDup_map_eq {A B} (f : A -> B) (l : list A) (a b : A) :
  NoDup (map f l) -> In a l -> In b l -> f a = f b -> a = b.
Proof.
  induction l as [|x l IH]; simpl; intros H Ha Hb E; [contradiction|].
  inversion H as [|? ? Hx Hl]; subst.
  destruct Ha as [->|Ha]; destruct Hb as [->|Hb]; auto.
  - elim Hx. rewrite E. now apply in_map.
  - elim Hx. rewrite <- E. now apply in_map.
Qed.

Lemma sum_amounts_filter_le (keep : Payment.t -> bool) (ps : list Payment.t) :
  (forall p, In p ps -> 0 < Payment.amount p) ->
  sum_amounts (filter keep ps) <= sum_amounts ps.
Proof.
  unfold sum_amounts. induction ps as [|p ps IH]; simpl; intros Hpos; [lia|].
  assert (0 < Payment.amount p) by (apply Hpos; now left).
  assert (IH' := IH (fun q Hq => Hpos q (or_intror Hq))).
  destruct (keep p); simpl; lia.
Qed.

Lemma payments_of_none (db : Store) (iid : Z) :
  (forall p, In p (payments db) -> Payment.invoice_id p <> iid) ->
  payments_of db iid = [].
Proof.
  unfold payments_of. induction (payments db) as [|p ps IH]; simpl; intros H.
  - reflexivity.
  - destruct (Z.eqb_spec (Payment.invoice_id p) iid) as [E|_].
    + elim (H p (or_introl eq_refl) E).
    + apply IH. intros q Hq. apply H. now right.
Qed.

(** Requests that drop payments, drop invoices, or rewrite invoices without
    touching their id and amount. *)
Lemma payments_sound_shrink (db db' : Store)
    (keepP : Payment.t -> bool) (keepI : Invoice.t -> bool)
    (g : Invoice.t -> Invoice.t) :
  payments_sound db ->
  payments db' = filter keepP (payments db) ->
  invoices db' = map g (filter keepI (invoices db)) ->
  (forall i, Invoice.invoice_id (g i) = Invoice.invoice_id i) ->
  (forall i, Invoice.amount (g i) = Invoice.amount i) ->
  next_invoice_id db' = next_invoice_id db ->
  payments_sound db'.
Proof.
  intros [Hov Hnd Hir Hpos Hpr] HP HI Hgid Hgam Hnext. constructor.
  - intros inv' Hin'. rewrite HI in Hin'. apply in_map_iff in Hin'.
    destruct Hin' as [inv [<- Hin]]. apply filter_In in Hin. destruct Hin as [Hin _].
    rewrite Hgid, Hgam. unfold payments_of. rewrite HP, filter_swap.
    etransitivity; [apply sum_amounts_filter_le|apply (Hov inv Hin)].
    intros p Hp. apply filter_In in Hp. apply Hpos. tauto.
  - rewrite HI, map_map. rewrite (map_ext _ Invoice.invoice_id) by exact Hgid.
    now apply NoDup_map_filter.
  - intros inv' Hin'. rewrite HI in Hin'. apply in_map_iff in Hin'.
    destruct Hin' as [inv [<- Hin]]. apply filter_In in Hin.
    rewrite Hgid, Hnext. apply Hir. tauto.
  - intros p Hp. rewrite HP in Hp. apply filter_In in Hp. apply Hpos. tauto.
  - intros p Hp. rewrite HP in Hp. apply filter_In in Hp. rewrite Hnext. apply Hpr. tauto.
Qed.

Lemma payments_sound_same (db db' : Store) :
  payments_sound db ->
  payments db' = payments db ->
  invoices db' = invoices db ->
  next_invoice_id db' = next_invoice_id db ->
  payments_sound db'.
Proof.
  intros H HP HI Hn.
  apply (payments_sound_shrink db db' (fun _ => true) (fun _ => true) (fun i => i) H).
  - now rewrite filter_all.
  - now rewrite filter_all, map_id.
  - reflexivity.
  - reflexivity.
  - assumption.
Qed.

Lemma clear_shoot_id (gone : Z -> bool) (i : Invoice.t) :
  Invoice.invoice_id (clear_shoot gone i) = Invoice.invoice_id i.
Proof. unfold clear_shoot. destruct (Invoice.shoot_id i) as [sid|]; [destruct (gone sid)|]; reflexivity. Qed.

Lemma clear_shoot_amount (gone : Z -> bool) (i : Invoice.t) :
  Invoice.amount (clear_shoot gone i) = Invoice.amount i.
Proof. unfold clear_shoot. destruct (Invoice.shoot_id i) as [sid|]; [destruct (gone sid)|]; reflexivity. Qed.

Lemma clear_package_id (gone : Z -> bool) (i : Invoice.t) :
  Invoice.invoice_id (clear_package gone i) = Invoice.invoice_id i.
Proof. unfold clear_package. destruct (Invoice.package_id i) as [pid|]; [destruct (gone pid)|]; reflexivity. Qed.

Lemma clear_package_amount (gone : Z -> bool) (i : Invoice.t) :
  Invoice.amount (clear_package gone i) = Invoice.amount i.
Proof. unfold clear_package. destruct (Invoice.package_id i) as [pid|]; [destruct (gone pid)|]; reflexivity. Qed.

Lemma create_payment_check_Ok (payload : PaymentCreate.t) (db : Store) :
  create_payment_check payload db = Ok tt ->
  0 < PaymentCreate.amount payload
  /\ exists inv,
       _get_invoice_or_404 db (PaymentCreate.invoice_id payload) = Ok inv
       /\ sum_amounts (payments_of db (PaymentCreate.invoice_id payload))
          + PaymentCreate.amount payload <= Invoice.amount inv.
Proof.
  unfold create_payment_check.
  destruct (Z.leb_spec (PaymentCreate.amount payload) 0) as [|Hp]; [discriminate|].
  destruct (_get_invoice_or_404 db (PaymentCreate.invoice_id payload)) as [inv|e] eqn:Hget;
    [|discriminate].
  simpl. destruct (get_invoice_Ok _ _ _ Hget) as [_ ->].
  rewrite total_paid_of_sum.
  destruct (Z.gtb_spec (sum_amounts (payments_of db (PaymentCreate.invoice_id payload))
                        + PaymentCreate.amount payload) (Invoice.amount inv));
    [discriminate|].
  intros _. split; [assumption|]. exists inv. split; [reflexivity|lia].
Qed.

Lemma create_payment_sound (now : Z) (payload : PaymentCreate.t) (db : Store) :
  payments_sound db ->
  payments_sound (committed db (create_payment now payload db)).
Proof.
  intros H. unfold create_payment.
  destruct (create_payment_check payload db) as [[]|e] eqn:Hc; [|exact H].
  apply create_payment_check_Ok in Hc. destruct Hc as [Hp [inv0 [Hget Hfit]]].
  destruct (get_invoice_Ok _ _ _ Hget) as [Hin0 Hid0].
  destruct H as [Hov Hnd Hir Hpos Hpr]. simpl. constructor; simpl.
  - intros inv Hin. unfold payments_of. simpl. rewrite filter_app, sum_amounts_app. simpl.
    destruct (Z.eqb_spec (PaymentCreate.invoice_id payload) (Invoice.invoice_id inv)) as [E|_].
    + assert (inv = inv0) as ->
        by (apply (NoDup_map_eq Invoice.invoice_id (invoices db) inv inv0 Hnd Hin Hin0); lia).
      unfold sum_amounts at 2. simpl. fold (payments_of db (Invoice.invoice_id inv0)).
      rewrite Hid0. lia.
    + unfold sum_amounts at 2. simpl. specialize (Hov inv Hin).
      unfold payments_of in Hov. lia.
  - assumption.
  - assumption.
  - intros p Hp'. apply in_app_or in Hp'. destruct Hp' as [Hp'|[<-|[]]]; auto.
  - intros p Hp'. apply in_app_or in Hp'. destruct Hp' as [Hp'|[<-|[]]]; auto.
    simpl. rewrite <- Hid0. now apply Hir.
Qed.

Lemma create_invoice_Ok (payload : InvoiceCreate.t) (db db' : Store) (invoice : Invoice.t) :
  create_invoice payload db = Ok (invoice, db') ->
  invoices db' = invoices db ++ [invoice]
  /\ payments db' = payments db
  /\ next_invoice_id db' = next_invoice_id db + 1
  /\ Invoice.invoice_id invoice = next_invoice_id db
  /\ Invoice.amount invoice = InvoiceCreate.amount payload.
Proof.
  unfold create_invoice.
  destruct (first _ (clients db)) as [client|]; [|discriminate].
  destruct (InvoiceCreate.shoot_id payload) as [sid|];
    [destruct (first _ (shoots db)); [|discriminate]|];
    (destruct (InvoiceCreate.package_id payload) as [pid|];
     [destruct (first _ (packages db)); [|discriminate]|]);
    simpl; intros H; injection H as <- <-; simpl; repeat split.
Qed.

Lemma create_invoice_sound (payload : InvoiceCreate.t) (db : Store) :
  payments_sound db ->
  0 <= InvoiceCreate.amount payload ->
  payments_sound (committed db (create_invoice payload db)).
Proof.
  intros H Hamount.
  destruct (create_invoice payload db) as [[invoice db']|e] eqn:E; [|exact H].
  apply create_invoice_Ok in E. destruct E as (HI & HP & Hn & Hid & Ham).
  destruct H as [Hov Hnd Hir Hpos Hpr]. simpl.
  assert (Hfresh : payments_of db' (Invoice.invoice_id invoice) = []).
  { apply payments_of_none. rewrite HP. intros p Hp E. specialize (Hpr p Hp). lia. }
  constructor.
  - intros inv Hin. rewrite HI in Hin. apply in_app_or in Hin.
    destruct Hin as [Hin|[<-|[]]].
    + unfold payments_of. rewrite HP. apply (Hov inv Hin).
    + rewrite Hfresh, Ham. exact Hamount.
  - rewrite HI, map_app. simpl.
    apply (Permutation_NoDup (Permutation_cons_append _ _)).
    constructor; [|assumption].
    intros Hin. apply in_map_iff in Hin. destruct Hin as [i [Hi Hin]].
    specialize (Hir i Hin). lia.
  - intros inv Hin. rewrite HI in Hin. apply in_app_or in Hin. rewrite Hn.
    destruct Hin as [Hin|[<-|[]]]; [specialize (Hir inv Hin)|]; lia.
  - intros p Hp. rewrite HP in Hp. now apply Hpos.
  - intros p Hp. rewrite HP in Hp. specialize (Hpr p Hp). lia.
Qed.

Lemma invoice_update_row_Ok (payload : InvoiceUpdate.t) (invoice invoice' : Invoice.t) :
  invoice_update_row payload invoice = Ok invoice' ->
  Invoice.invoice_id invoice' = Invoice.invoice_id invoice
  /\ (Invoice.amount invoice' = Invoice.amount invoice
      \/ InvoiceUpdate.amount payload = Present (Some (Invoice.amount invoice'))).
Proof.
  unfold invoice_update_row.
  destruct (InvoiceUpdate.amount payload) as [|[a|]]; simpl; try discriminate;
    (destruct (InvoiceUpdate.status payload) as [|[s|]]; simpl; try discriminate);
    (destruct (InvoiceUpdate.issued_date payload) as [|[d|]]; simpl; try discriminate);
    intros H; injection H as <-; simpl; auto.
Qed.

Lemma update_invoice_Ok (invoice_id : Z) (payload : InvoiceUpdate.t) (db db' : Store)
    (invoice' : Invoice.t) :
  update_invoice invoice_id payload db = Ok (invoice', db') ->
  exists invoice,
    1 <= invoice_id
    /\ _get_invoice_or_404 db invoice_id = Ok invoice
    /\ invoice_update_row payload invoice = Ok invoice'
    /\ db' = mkStore (clients db) (shoots db) (packages db)
               (map (fun i => if Invoice.invoice_id i =? Invoice.invoice_id invoice
                              then invoice' else i) (invoices db))
               (payments db)
               (next_client_id db) (next_shoot_id db) (next_package_id db)
               (next_invoice_id db) (next_payment_id db).
Proof.
  unfold update_invoice, path_id.
  destruct (Z.leb_spec 1 invoice_id) as [Hid|]; [|discriminate]. simpl.
  destruct (_get_invoice_or_404 db invoice_id) as [invoice|] eqn:Hget; [|discriminate].
  simpl.
  destruct (match InvoiceUpdate.shoot_id payload with
            | Present (Some sid) => _ | _ => Ok tt end) as [[]|]; [|discriminate].
  simpl.
  destruct (match InvoiceUpdate.package_id payload with
            | Present (Some pid) => _ | _ => Ok tt end) as [[]|]; [|discriminate].
  simpl.
  destruct (invoice_update_row payload invoice) as [row|] eqn:Hrow; [|discriminate].
  simpl. intros H. injection H as <- <-. exists invoice. auto.
Qed.

Lemma update_invoice_sound (invoice_id : Z) (payload : InvoiceUpdate.t) (db : Store) :
  payments_sound db ->
  respects_payments db (UpdateInvoice invoice_id payload) ->
  payments_sound (committed db (update_invoice invoice_id payload db)).
Proof.
  intros H Hguard.
  destruct (update_invoice invoice_id payload db) as [[invoice' db']|e] eqn:E; [|exact H].
  apply update_invoice_Ok in E. destruct E as (invoice & Hid & Hget & Hrow & ->).
  destruct (get_invoice_Ok _ _ _ Hget) as [Hin0 Hid0].
  destruct (invoice_update_row_Ok _ _ _ Hrow) as [Hid' Ham'].
  destruct H as [Hov Hnd Hir Hpos Hpr]. simpl.
  assert (Hids : forall i,
             Invoice.invoice_id (if Invoice.invoice_id i =? Invoice.invoice_id invoice
                                 then invoice' else i) = Invoice.invoice_id i).
  { intros i. destruct (Z.eqb_spec (Invoice.invoice_id i) (Invoice.invoice_id invoice));
      congruence. }
  constructor; simpl.
  - intros inv Hin. apply in_map_iff in Hin. destruct Hin as [i [<- Hin]].
    unfold payments_of. simpl.
    destruct (Z.eqb_spec (Invoice.invoice_id i) (Invoice.invoice_id invoice)) as [Ei|_].
    + assert (i = invoice) as ->
        by (apply (NoDup_map_eq Invoice.invoice_id (invoices db) i invoice Hnd Hin Hin0 Ei)).
      rewrite Hid'. destruct Ham' as [->|Hset].
      * apply (Hov invoice Hin0).
      * simpl in Hguard. rewrite Hset in Hguard. rewrite Hid0. exact Hguard.
    + apply (Hov i Hin).
  - rewrite map_map. now rewrite (map_ext _ Invoice.invoice_id) by exact Hids.
  - intros inv Hin. apply in_map_iff in Hin. destruct Hin as [i [<- Hin]].
    rewrite Hids. now apply Hir.
  - assumption.
  - assumption.
Qed.

(** Case analysis on the outcome of each check of a handler. *)
Ltac handler_cases :=
  repeat match goal with
         | |- context [match ?x with _ => _ end] => destruct x eqn:?
         end;
  simpl.

Lemma step_sound (collate : string -> string) (db : Store) (op : Op) :
  payments_sound db ->
  respects_payments db op ->
  payments_sound (step collate db op).
Proof.
  intros H Hguard. destruct op; cbn [step].
  - unfold create_client. handler_cases; try exact H.
    now apply (payments_sound_same db).
  - unfold update_client, client_update_row, set_required, bind, path_id.
    handler_cases; try exact H; now apply (payments_sound_same db).
  - unfold delete_client, bind, path_id, _get_client_or_404.
    handler_cases; try exact H.
    eapply (payments_sound_shrink db _ _ _ _ H); simpl; try reflexivity.
    + apply clear_shoot_id.
    + apply clear_shoot_amount.
  - unfold create_shoot. handler_cases; try exact H.
    now apply (payments_sound_same db).
  - unfold update_shoot, shoot_update_row, set_required, bind, path_id.
    handler_cases; try exact H; now apply (payments_sound_same db).
  - unfold delete_shoot, bind, path_id, _get_shoot_or_404.
    handler_cases; try exact H.
    eapply (payments_sound_shrink db _ (fun _ => true) (fun _ => true) _ H); simpl;
      rewrite ?filter_all; try reflexivity.
    + apply clear_shoot_id.
    + apply clear_shoot_amount.
  - unfold create_package. handler_cases; try exact H.
    now apply (payments_sound_same db).
  - unfold update_package, package_update_row, set_required, bind, path_id.
    handler_cases; try exact H; now apply (payments_sound_same db).
  - unfold delete_package, bind, path_id, _get_package_or_404.
    handler_cases; try exact H.
    eapply (payments_sound_shrink db _ (fun _ => true) (fun _ => true) _ H); simpl;
      rewrite ?filter_all; try reflexivity.
    + apply clear_package_id.
    + apply clear_package_amount.
  - now apply create_invoice_sound.
  - now apply update_invoice_sound.
  - unfold delete_invoice, bind, path_id, _get_invoice_or_404.
    handler_cases; try exact H.
    eapply (payments_sound_shrink db _ _ _ (fun i => i) H); simpl;
      rewrite ?map_id; reflexivity.
  - apply create_payment_sound, H.
  - unfold delete_payment, bind, path_id, _get_payment_or_404.
    handler_cases; try exact H.
    eapply (payments_sound_shrink db _ _ (fun _ => true) (fun i => i) H); simpl;
      [reflexivity | now rewrite filter_all, map_id | reflexivity ..].
Qed.

Lemma empty_store_sound : payments_sound empty_store.
Proof.
  constructor; simpl; try constructor; intros ? [].
Qed.

Lemma reachable_sound (collate : string -> string) (db : Store) :
  reachable collate db -> payments_sound db.
Proof.
  induction 1 as [|db op _ IH Hguard].
  - apply empty_store_sound.
  - now apply step_sound.
Qed.

(** C2, as the code has it.  From the empty store, after any sequence of
    requests in which every invoice is created with a non-negative amount and
    no invoice update sets an amount below the sum of the payments of that
    invoice, the sum of the payments of every invoice is at most its amount.
    Payment creation and deletion, and every request on clients, shoots and
    packages, and invoice deletion, are unrestricted in such a sequence. *)
Theorem reachable_never_overpaid (collate : string -> string) (db : Store) :
  reachable collate db ->
  forall inv, In inv (invoices db) ->
    sum_amounts (payments_of db (Invoice.invoice_id inv)) <= Invoice.amount inv.
Proof.
  intros H. apply (sound_never_overpaid db (reachable_sound collate db H)).
Qed.

Lemma reachable_never_overpaid_witness :
  reachable binary studio_partly_paid
  /\ In (Invoice.mk 1 1 None None 10000 "draft" 20240105 None)
        (invoices studio_partly_paid)
  /\ sum_amounts (payments_of studio_partly_paid 1) <= 10000.
Proof.
  assert (H : reachable binary studio_partly_paid).
  { unfold studio_partly_paid, studio, studio_ops, run. cbn [fold_left].
    repeat (apply reachable_step; [|simpl; try lia; exact I]).
    apply reachable_empty. }
  split; [exact H|]. split; [left; reflexivity|].
  apply (reachable_never_overpaid binary studio_partly_paid H
           (Invoice.mk 1 1 None None 10000 "draft" 20240105 None)).
  left. reflexivity.
Defined.

(** C2, as stated, fails: after [lowered_invoice_ops] the invoice has an
    amount of 50.00 and payments of 60.00. *)
Lemma update_invoice_breaks_never_overpaid :
  let db := run binary empty_store lowered_invoice_ops in
  exists inv,
    In inv (invoices db)
    /\ Invoice.amount inv = 5000
    /\ sum_amounts (payments_of db (Invoice.invoice_id inv)) = 6000
    /\ ~ sum_amounts (payments_of db (Invoice.invoice_id inv)) <= Invoice.amount inv.
Proof.
  exists (Invoice.mk 1 1 None None 5000 "draft" 20240105 None).
  split; [left; reflexivity|]. split; [reflexivity|]. split; [reflexivity|].
  vm_compute. intros H. apply H. reflexivity.
Qed.

(** ** C5: two payment requests at once *)

(** A request that runs alone is the handler. *)
Lemma advance_alone (now : Z) (payload : PaymentCreate.t) (db : Store) :
  let '(r, db1) := advance (Submitted now payload) db in
  advance r db1
  = match create_payment now payload db with
    | Ok (payment, db') => (Finished (Ok payment), db')
    | Raise e => (Finished (Raise e), db)
    end.
Proof.
  unfold create_payment. simpl.
  destruct (create_payment_check payload db) as [[]|e]; reflexivity.
Qed.

Lemma create_payment_check_fits (payload : PaymentCreate.t) (db : Store) (inv : Invoice.t) :
  _get_invoice_or_404 db (PaymentCreate.invoice_id payload) = Ok inv ->
  0 < PaymentCreate.amount payload ->
  sum_amounts (payments_of db (PaymentCreate.invoice_id payload))
  + PaymentCreate.amount payload <= Invoice.amount inv ->
  create_payment_check payload db = Ok tt.
Proof.
  intros Hget Hp Hfit. unfold create_payment_check.
  destruct (Z.leb_spec (PaymentCreate.amount payload) 0); [lia|].
  rewrite Hget. simpl. destruct (get_invoice_Ok _ _ _ Hget) as [_ ->].
  rewrite total_paid_of_sum.
  destruct (Z.gtb_spec (sum_amounts (payments_of db (PaymentCreate.invoice_id payload))
                        + PaymentCreate.amount payload) (Invoice.amount inv));
    [lia|reflexivity].
Qed.

Lemma create_payment_check_over (payload : PaymentCreate.t) (db : Store) (inv : Invoice.t) :
  _get_invoice_or_404 db (PaymentCreate.invoice_id payload) = Ok inv ->
  0 < PaymentCreate.amount payload ->
  sum_amounts (payments_of db (PaymentCreate.invoice_id payload))
  + PaymentCreate.amount payload > Invoice.amount inv ->
  create_payment_check payload db = Raise OverpaymentError.
Proof.
  intros Hget Hp Hover. unfold create_payment_check.
  destruct (Z.leb_spec (PaymentCreate.amount payload) 0); [lia|].
  rewrite Hget. simpl. destruct (get_invoice_Ok _ _ _ Hget) as [_ ->].
  rewrite total_paid_of_sum.
  destruct (Z.gtb_spec (sum_amounts (payments_of db (PaymentCreate.invoice_id payload))
                        + PaymentCreate.amount payload) (Invoice.amount inv));
    [reflexivity|lia].
Qed.

(** One request handled to its end, then the other. *)
Lemma serial_pair (nowA nowB : Z) (a b : PaymentCreate.t) (db : Store) (inv : Invoice.t) :
  let i := Invoice.invoice_id inv in
  let remaining := Invoice.amount inv - sum_amounts (payments_of db i) in
  _get_invoice_or_404 db i = Ok inv ->
  PaymentCreate.invoice_id a = i ->
  PaymentCreate.invoice_id b = i ->
  PaymentCreate.amount a <= remaining ->
  PaymentCreate.amount b <= remaining ->
  PaymentCreate.amount a + PaymentCreate.amount b > remaining ->
  create_payment_check a db = Ok tt
  /\ create_payment_check b (snd (create_payment_insert nowA a db))
     = Raise OverpaymentError.
Proof.
  intros i remaining Hget Ha Hb Hfa Hfb Hboth. subst remaining.
  split.
  - apply (create_payment_check_fits a db inv); rewrite ?Ha; [assumption|lia|lia].
  - apply (create_payment_check_over b _ inv).
    + rewrite Hb. exact Hget.
    + lia.
    + rewrite Hb, <- Ha, <- !total_paid_of_sum, create_payment_insert_total,
        !total_paid_of_sum, Ha. lia.
Qed.

(** C5, as the code has it.  Of two payments for the same invoice, each no
    greater than the remaining balance and together exceeding it, handled one
    after the other (in either order), the one handled first is accepted and
    the other is refused with [OverpaymentError]. *)
Theorem serial_payments_one_accepted
    (now1 now2 : Z) (p1 p2 : PaymentCreate.t) (db : Store) (inv : Invoice.t) :
  let i := Invoice.invoice_id inv in
  let remaining := Invoice.amount inv - sum_amounts (payments_of db i) in
  _get_invoice_or_404 db i = Ok inv ->
  PaymentCreate.invoice_id p1 = i ->
  PaymentCreate.invoice_id p2 = i ->
  PaymentCreate.amount p1 <= remaining ->
  PaymentCreate.amount p2 <= remaining ->
  PaymentCreate.amount p1 + PaymentCreate.amount p2 > remaining ->
  (exists payment db',
     interleave [false; false; true; true] (Submitted now1 p1) (Submitted now2 p2) db
     = (Finished (Ok payment), Finished (Raise OverpaymentError), db'))
  /\ (exists payment db',
        interleave [true; true; false; false] (Submitted now1 p1) (Submitted now2 p2) db
        = (Finished (Raise OverpaymentError), Finished (Ok payment), db')).
Proof.
  intros i remaining Hget H1 H2 Hf1 Hf2 Hboth. split.
  - destruct (serial_pair now1 now2 p1 p2 db inv Hget H1 H2 Hf1 Hf2 Hboth) as [Hc1 Hc2].
    cbn [interleave advance]. rewrite Hc1.
    destruct (create_payment_insert now1 p1 db) as [payment db1] eqn:E.
    cbn [snd] in Hc2. cbn [interleave advance]. rewrite E, Hc2.
    cbn [interleave advance]. now exists payment, db1.
  - assert (Hboth' : PaymentCreate.amount p2 + PaymentCreate.amount p1 > remaining) by lia.
    destruct (serial_pair now2 now1 p2 p1 db inv Hget H2 H1 Hf2 Hf1 Hboth') as [Hc2 Hc1].
    cbn [interleave advance]. rewrite Hc2.
    destruct (create_payment_insert now2 p2 db) as [payment db1] eqn:E.
    cbn [snd] in Hc1. cbn [interleave advance]. rewrite E, Hc1.
    cbn [interleave advance]. now exists payment, db1.
Qed.

Lemma serial_payments_one_accepted_witness :
  (exists payment db',
     interleave [false; false; true; true]
       (Submitted 600 (PaymentCreate.mk 1 3000 None None))
       (Submitted 601 (PaymentCreate.mk 1 2000 None None)) studio_partly_paid
     = (Finished (Ok payment), Finished (Raise OverpaymentError), db'))
  /\ (exists payment db',
        interleave [true; true; false; false]
          (Submitted 600 (PaymentCreate.mk 1 3000 None None))
          (Submitted 601 (PaymentCreate.mk 1 2000 None None)) studio_partly_paid
        = (Finished (Raise OverpaymentError), Finished (Ok payment), db')).
Proof.
  apply (serial_payments_one_accepted 600 601
           (PaymentCreate.mk 1 3000 None None) (PaymentCreate.mk 1 2000 None None)
           studio_partly_paid (Invoice.mk 1 1 None None 10000 "draft" 20240105 None)).
  - reflexivity.
  - reflexivity.
  - reflexivity.
  - vm_compute. discriminate.
  - vm_compute. discriminate.
  - vm_compute. reflexivity.
Defined.

(** C5, as stated, fails: with 40.00 left to pay on the invoice, payments of
    30.00 and 20.00 whose checks both run before either insert are both
    accepted, and the invoice of 100.00 ends with 110.00 paid. *)
Lemma interleaved_payments_both_accepted :
  let p1 := PaymentCreate.mk 1 3000 None None in
  let p2 := PaymentCreate.mk 1 2000 None None in
  let '(r1, r2, db') :=
    interleave [false; true; false; true] (Submitted 600 p1) (Submitted 601 p2)
               studio_partly_paid in
  sum_amounts (payments_of studio_partly_paid 1) = 6000
  /\ accepted r1 = true
  /\ accepted r2 = true
  /\ sum_amounts (payments_of db' 1) = 11000
  /\ map Invoice.amount (invoices db') = [10000].
Proof. vm_compute. repeat split. Qed.

(** ** C6: the list operations *)

Section OrderBy.

Context {A : Type} (leb : A -> A -> bool).

Hypothesis leb_total : forall a b, leb a b = true \/ leb b a = true.
Hypothesis leb_trans : forall a b c, leb a b = true -> leb b c = true -> leb a c = true.

Lemma insert_sorted_Permutation (x : A) (rows : list A) :
  Permutation (insert_sorted leb x rows) (x :: rows).
Proof.
  induction rows as [|y rest IH]; simpl; [reflexivity|].
  destruct (leb x y); [reflexivity|].
  rewrite IH. apply perm_swap.
Qed.

Lemma order_by_Permutation (rows : list A) : Permutation (order_by leb rows) rows.
Proof.
  unfold order_by. induction rows as [|x rest IH]; simpl; [reflexivity|].
  rewrite insert_sorted_Permutation. now constructor.
Qed.

Lemma insert_sorted_StronglySorted (x : A) (rows : list A) :
  StronglySorted (fun a b => leb a b = true) rows ->
  StronglySorted (fun a b => leb a b = true) (insert_sorted leb x rows).
Proof.
  induction 1 as [|y rest Hs IH Hall]; simpl.
  - repeat constructor.
  - destruct (leb x y) eqn:E.
    + constructor; [now constructor|]. constructor; [assumption|].
      revert Hall. apply Forall_impl. intros z. now apply leb_trans.
    + constructor; [assumption|].
      apply (Permutation_Forall (Permutation_sym (insert_sorted_Permutation x rest))).
      constructor; [|assumption].
      destruct (leb_total x y) as [H|H]; congruence.
Qed.

Lemma order_by_StronglySorted (rows : list A) :
  StronglySorted (fun a b => leb a b = true) (order_by leb rows).
Proof.
  unfold order_by. induction rows as [|x rest IH]; simpl; [constructor|].
  now apply insert_sorted_StronglySorted.
Qed.

End OrderBy.

Lemma StronglySorted_impl {A} (R R' : A -> A -> Prop) (l : list A) :
  (forall a b, R a b -> R' a b) -> StronglySorted R l -> StronglySorted R' l.
Proof.
  intros HR. induction 1 as [|x l Hs IH Hall]; constructor; [assumption|].
  revert Hall. apply Forall_impl. intros b. apply HR.
Qed.

Lemma order_by_page {A} (leb : A -> A -> bool) (before : A -> A -> Prop)
    (table : list A) (skip limit : Z) :
  (forall a b, leb a b = true \/ leb b a = true) ->
  (forall a b c, leb a b = true -> leb b c = true -> leb a c = true) ->
  (forall a b, leb a b = true -> before a b) ->
  page_of before table skip limit (window skip limit (order_by leb table)).
Proof.
  intros Htotal Htrans Hbefore. exists (order_by leb table).
  split; [apply order_by_Permutation|]. split; [|reflexivity].
  apply (StronglySorted_impl (fun a b => leb a b = true)); [assumption|].
  now apply order_by_StronglySorted.
Qed.

Lemma recent_leb_total {A} (date id : A -> Z) (a b : A) :
  let leb := fun a b => (date b <? date a) || ((date b =? date a) && (id b <=? id a)) in
  leb a b = true \/ leb b a = true.
Proof.
  simpl.
  destruct (Z.ltb_spec (date b) (date a)); destruct (Z.ltb_spec (date a) (date b));
    destruct (Z.eqb_spec (date b) (date a)); destruct (Z.eqb_spec (date a) (date b));
    destruct (Z.leb_spec (id b) (id a)); destruct (Z.leb_spec (id a) (id b));
    simpl; auto; lia.
Qed.

Lemma recent_leb_trans {A} (date id : A -> Z) (a b c : A) :
  let leb := fun a b => (date b <? date a) || ((date b =? date a) && (id b <=? id a)) in
  leb a b = true -> leb b c = true -> leb a c = true.
Proof.
  simpl. rewrite !orb_true_iff, !andb_true_iff, !Z.ltb_lt, !Z.eqb_eq, !Z.leb_le. lia.
Qed.

Lemma recent_leb_before {A} (date id : A -> Z) (a b : A) :
  (date b <? date a) || ((date b =? date a) && (id b <=? id a)) = true ->
  most_recent_first date id a b.
Proof.
  unfold most_recent_first.
  rewrite !orb_true_iff, !andb_true_iff, !Z.ltb_lt, !Z.eqb_eq, !Z.leb_le. tauto.
Qed.

Lemma page_params_Ok (skip limit : option Z) :
  0 <= coalesce skip 0 ->
  1 <= coalesce limit 50 <= 200 ->
  page_params skip limit = Ok (coalesce skip 0, coalesce limit 50).
Proof.
  intros Hs Hl. unfold page_params.
  destruct (Z.leb_spec 0 (coalesce skip 0)); [|lia].
  destruct (Z.leb_spec 1 (coalesce limit 50)); [|lia].
  destruct (Z.leb_spec (coalesce limit 50) 200); [|lia]. reflexivity.
Qed.

Lemma page_params_Raise (skip limit : option Z) :
  ~ (0 <= coalesce skip 0 /\ 1 <= coalesce limit 50 <= 200) ->
  page_params skip limit = Raise RequestValidationError.
Proof.
  intros H. unfold page_params.
  destruct (Z.leb_spec 0 (coalesce skip 0)); [|reflexivity].
  destruct (Z.leb_spec 1 (coalesce limit 50)); [|reflexivity].
  destruct (Z.leb_spec (coalesce limit 50) 200); [|reflexivity].
  elim H. lia.
Qed.

(** C6, as the code has it.  With [skip] (default 0) and [limit] (default 50)
    in range, that is [0 <= skip] and [1 <= limit <= 200], each list operation
    returns the window [skip], [limit] of its table in its order: clients by
    id ascending; shoots by [shoot_date] and invoices (those of the date range
    asked for) by [issued_date], most recent first, ties by id descending;
    payments by id descending; packages by id descending.  Out of range, each
    of them fails validation. *)
Theorem list_operations_pages (skip limit : option Z) (db : Store) :
  let s := coalesce skip 0 in
  let l := coalesce limit 50 in
  (0 <= s /\ 1 <= l <= 200 ->
     (exists page,
        list_clients skip limit db = Ok page
        /\ page_of (id_ascending Client.client_id) (clients db) s l page)
     /\ (exists page,
           list_shoots skip limit db = Ok page
           /\ page_of (most_recent_first Shoot.shoot_date Shoot.shoot_id)
                      (shoots db) s l page)
     /\ (forall date_from date_to, exists page,
           list_invoices skip limit date_from date_to db = Ok page
           /\ page_of (most_recent_first Invoice.issued_date Invoice.invoice_id)
                      (filter (in_date_range date_from date_to) (invoices db)) s l page)
     /\ (exists page,
           list_payments skip limit db = Ok page
           /\ page_of (id_descending Payment.payment_id) (payments db) s l page)
     /\ (exists page,
           list_packages skip limit db = Ok page
           /\ page_of (id_descending Package.package_id) (packages db) s l page))
  /\ (~ (0 <= s /\ 1 <= l <= 200) ->
      list_clients skip limit db = Raise RequestValidationError
      /\ list_shoots skip limit db = Raise RequestValidationError
      /\ (forall date_from date_to,
            list_invoices skip limit date_from date_to db = Raise RequestValidationError)
      /\ list_payments skip limit db = Raise RequestValidationError
      /\ list_packages skip limit db = Raise RequestValidationError).
Proof.
  intros s l. split.
  - intros [Hs Hl].
    unfold list_clients, list_shoots, list_invoices, list_payments, list_packages.
    rewrite (page_params_Ok skip limit Hs Hl). cbn [bind]. fold s l.
    split; [|split; [|split; [|split]]].
    + eexists. split; [reflexivity|]. apply order_by_page.
      * intros a b. unfold client_order. rewrite !Z.leb_le. lia.
      * intros a b c. unfold client_order. rewrite !Z.leb_le. lia.
      * intros a b. unfold client_order, id_ascending. now rewrite Z.leb_le.
    + eexists. split; [reflexivity|]. apply order_by_page.
      * apply (recent_leb_total Shoot.shoot_date Shoot.shoot_id).
      * apply (recent_leb_trans Shoot.shoot_date Shoot.shoot_id).
      * apply recent_leb_before.
    + intros date_from date_to. eexists. split; [reflexivity|]. apply order_by_page.
      * apply (recent_leb_total Invoice.issued_date Invoice.invoice_id).
      * apply (recent_leb_trans Invoice.issued_date Invoice.invoice_id).
      * apply recent_leb_before.
    + eexists. split; [reflexivity|]. apply order_by_page.
      * intros a b. unfold payment_order. rewrite !Z.leb_le. lia.
      * intros a b c. unfold payment_order. rewrite !Z.leb_le. lia.
      * intros a b. unfold payment_order, id_descending. now rewrite Z.leb_le.
    + eexists. split; [reflexivity|]. apply order_by_page.
      * intros a b. unfold package_order. rewrite !Z.leb_le. lia.
      * intros a b c. unfold package_order. rewrite !Z.leb_le. lia.
      * intros a b. unfold package_order, id_descending. now rewrite Z.leb_le.
  - intros H.
    unfold list_clients, list_shoots, list_invoices, list_payments, list_packages.
    rewrite (page_params_Raise skip limit H). repeat split.
Qed.

Lemma list_operations_pages_witness :
  (exists page,
     list_payments None None backdated = Ok page
     /\ page_of (id_descending Payment.payment_id) (payments backdated) 0 50 page)
  /\ list_clients (Some (-1)) None backdated = Raise RequestValidationError.
Proof.
  split.
  - destruct (proj1 (list_operations_pages None None backdated)) as (_ & _ & _ & H & _).
    + simpl. lia.
    + exact H.
  - apply (proj2 (list_operations_pages (Some (-1)) None backdated)).
    simpl. lia.
Defined.

(** C6, as stated, fails for payments: [list_payments] lists the payment with
    the greater id first, also when it was paid earlier. *)
Lemma list_payments_not_most_recent_first :
  let paid_10th := Payment.mk 1 1 1000 None 20240110 in
  let paid_3rd := Payment.mk 2 1 1000 None 20240103 in
  list_payments None None backdated = Ok [paid_3rd; paid_10th]
  /\ ~ page_of (most_recent_first Payment.paid_at Payment.payment_id)
               (payments backdated) 0 50 [paid_3rd; paid_10th].
Proof.
  split; [reflexivity|].
  intros (sorted & Hperm & Hsorted & Hpage).
  apply Permutation_length in Hperm.
  destruct sorted as [|a [|b [|c rest]]]; simpl in Hperm; try discriminate.
  simpl in Hpage. injection Hpage as <- <-.
  inversion Hsorted as [|? ? _ Hall]; subst.
  inversion Hall as [|? ? Hbefore _]; subst.
  unfold most_recent_first in Hbefore. simpl in Hbefore. lia.
Qed.

(** ** C7: duplicate emails *)

Lemma get_client_Ok (db : Store) (client_id : Z) (client : Client.t) :
  _get_client_or_404 db client_id = Ok client ->
  In client (clients db) /\ Client.client_id client = client_id.
Proof.
  unfold _get_client_or_404.
  destruct (first _ _) as [obj|] eqn:E; [|discriminate].
  intros H. injection H as ->. apply first_Some in E. destruct E as [Hin Hid].
  split; [assumption|]. now apply Z.eqb_eq.
Qed.

Lemma first_exists {A} (f : A -> bool) (rows : list A) (x : A) :
  In x rows -> f x = true -> exists y, first f rows = Some y.
Proof.
  intros Hin Hf. destruct (first f rows) as [y|] eqn:E; [now exists y|].
  rewrite first_None in E. rewrite (E x Hin) in Hf. discriminate.
Qed.

(** C7.  Under the comparison of the store:
    - [create_client] with the email of a stored client raises the
      duplicate-email conflict (409) and the store stays as it was;
    - [update_client] of a stored client with the email of another stored
      client raises the duplicate-email conflict (409, worded for updates);
    - [update_client] of a stored client with its own current email, in a
      store where that email belongs to this client only (as [run_keys] shows
      of every store that requests lead to), succeeds and the client keeps
      the email. *)
Theorem duplicate_email_rules (collate : string -> string) (db : Store) :
  (forall payload other,
      In other (clients db) ->
      same_text collate (Client.email other) (ClientCreate.email payload) = true ->
      create_client collate payload db = Raise DuplicateEmail
      /\ committed db (create_client collate payload db) = db)
  /\ (forall client_id payload client email other,
        1 <= client_id ->
        _get_client_or_404 db client_id = Ok client ->
        ClientUpdate.email payload = Present (Some email) ->
        In other (clients db) ->
        Client.client_id other <> client_id ->
        same_text collate (Client.email other) email = true ->
        update_client collate client_id payload db = Raise DuplicateEmailOnUpdate
        /\ committed db (update_client collate client_id payload db) = db)
  /\ (forall client_id payload client,
        1 <= client_id ->
        _get_client_or_404 db client_id = Ok client ->
        ClientUpdate.email payload = Present (Some (Client.email client)) ->
        ClientUpdate.name payload <> Present None ->
        (forall c, In c (clients db) ->
                   same_text collate (Client.email c) (Client.email client) = true ->
                   Client.client_id c = client_id) ->
        exists client' db',
          update_client collate client_id payload db = Ok (client', db')
          /\ Client.email client' = Client.email client
          /\ In client' (clients db')).
Proof.
  split; [|split].
  - intros payload other Hin Hsame.
    assert (E : create_client collate payload db = Raise DuplicateEmail).
    { unfold create_client.
      destruct (first_exists
                  (fun c => same_text collate (Client.email c) (ClientCreate.email payload))
                  (clients db) other Hin Hsame) as [existing ->].
      reflexivity. }
    now rewrite E.
  - intros client_id payload client email other Hid Hget Hemail Hin Hother Hsame.
    assert (E : update_client collate client_id payload db = Raise DuplicateEmailOnUpdate).
    { unfold update_client, path_id.
      destruct (Z.leb_spec 1 client_id); [|lia]. cbn [bind].
      rewrite Hget. cbn [bind]. rewrite Hemail.
      destruct (first_exists
                  (fun c => sql_eq collate (Client.email c) (Some email)
                            && negb (Client.client_id c =? client_id))
                  (clients db) other Hin) as [clash ->]; [|reflexivity].
      simpl. rewrite Hsame. simpl.
      now destruct (Z.eqb_spec (Client.client_id other) client_id). }
    now rewrite E.
  - intros client_id payload client Hid Hget Hemail Hname Hunique.
    destruct (get_client_Ok _ _ _ Hget) as [Hin Hcid].
    unfold update_client, path_id.
    destruct (Z.leb_spec 1 client_id); [|lia]. cbn [bind].
    rewrite Hget. cbn [bind]. rewrite Hemail.
    assert (Hnone : first (fun c => sql_eq collate (Client.email c) (Some (Client.email client))
                                    && negb (Client.client_id c =? client_id))
                          (clients db) = None).
    { apply first_None. intros c Hc. simpl.
      destruct (same_text collate (Client.email c) (Client.email client)) eqn:Hsame;
        [|reflexivity].
      rewrite (Hunique c Hc Hsame), Z.eqb_refl. reflexivity. }
    rewrite Hnone. cbn [bind]. unfold client_update_row. rewrite Hemail.
    destruct (ClientUpdate.name payload) as [|[name|]]; [| |congruence]; cbn [bind set_required].
    all: eexists; eexists; split; [reflexivity|]; split; [reflexivity|]; simpl.
    all: apply in_map_iff; exists client; split; [|assumption].
    all: now rewrite Z.eqb_refl.
Qed.

Lemma duplicate_email_rules_witness :
  (create_client binary (ClientCreate.mk "Another Ana" "ana@example.com" None) two_clients
   = Raise DuplicateEmail
   /\ committed two_clients
        (create_client binary (ClientCreate.mk "Another Ana" "ana@example.com" None)
                       two_clients)
      = two_clients)
  /\ (update_client binary 2
        (ClientUpdate.mk Absent (Present (Some "ana@example.com")) Absent) two_clients
      = Raise DuplicateEmailOnUpdate
      /\ committed two_clients
           (update_client binary 2
              (ClientUpdate.mk Absent (Present (Some "ana@example.com")) Absent)
              two_clients)
         = two_clients)
  /\ exists client' db',
       update_client binary 2
         (ClientUpdate.mk Absent (Present (Some "ben@example.com")) Absent) two_clients
       = Ok (client', db')
       /\ Client.email client' = "ben@example.com"
       /\ In client' (clients db').
Proof.
  split; [|split].
  - apply (proj1 (duplicate_email_rules binary two_clients)
             (ClientCreate.mk "Another Ana" "ana@example.com" None)
             (Client.mk 1 "Ana" "ana@example.com" None)).
    + left. reflexivity.
    + reflexivity.
  - apply (proj1 (proj2 (duplicate_email_rules binary two_clients))
             2 (ClientUpdate.mk Absent (Present (Some "ana@example.com")) Absent)
             (Client.mk 2 "Ben" "ben@example.com" (Some "555-0100"))
             "ana@example.com"
             (Client.mk 1 "Ana" "ana@example.com" None)).
    + lia.
    + reflexivity.
    + reflexivity.
    + left. reflexivity.
    + simpl. lia.
    + reflexivity.
  - apply (proj2 (proj2 (duplicate_email_rules binary two_clients))
             2 (ClientUpdate.mk Absent (Present (Some "ben@example.com")) Absent)
             (Client.mk 2 "Ben" "ben@example.com" (Some "555-0100"))).
    + lia.
    + reflexivity.
    + reflexivity.
    + simpl. discriminate.
    + intros c [<-|[<-|[]]]; simpl; [discriminate|reflexivity].
Defined.

(** ** C8: updates are partial *)

Lemma set_required_patch {A} (f : Field A) (old new : A) :
  set_required f old = Ok new -> patch_required f old new.
Proof.
  destruct f as [|[v|]]; simpl; intros H; try discriminate; injection H as <-;
    split; intros; congruence.
Qed.

Lemma set_nullable_patch {A} (f : Field A) (old : option A) :
  patch_nullable f old (set_nullable f old).
Proof. destruct f as [|v]; simpl; split; intros; congruence. Qed.

Create HintDb patch.
#[local] Hint Resolve set_required_patch set_nullable_patch : patch.

Lemma client_update_row_patched (payload : ClientUpdate.t) (old new : Client.t) :
  client_update_row payload old = Ok new -> client_patched payload old new.
Proof.
  unfold client_update_row, client_patched.
  destruct (set_required (ClientUpdate.name payload) _) eqn:E1; [|discriminate].
  destruct (set_required (ClientUpdate.email payload) _) eqn:E2; [|discriminate].
  simpl. intros H. injection H as <-. simpl. auto 10 with patch.
Qed.

Lemma shoot_update_row_patched (payload : ShootUpdate.t) (old new : Shoot.t) :
  shoot_update_row payload old = Ok new -> shoot_patched payload old new.
Proof.
  unfold shoot_update_row, shoot_patched.
  destruct (set_required (ShootUpdate.shoot_date payload) _) eqn:E1; [|discriminate].
  simpl. intros H. injection H as <-. simpl. auto 10 with patch.
Qed.

Lemma package_update_row_patched (payload : PackageUpdate.t) (old new : Package.t) :
  package_update_row payload old = Ok new -> package_patched payload old new.
Proof.
  unfold package_update_row, package_patched.
  destruct (set_required (PackageUpdate.name payload) _) eqn:E1; [|discriminate].
  destruct (set_required (PackageUpdate.price payload) _) eqn:E2; [|discriminate].
  destruct (set_required (PackageUpdate.is_active payload) _) eqn:E3; [|discriminate].
  simpl. intros H. injection H as <-. simpl. auto 10 with patch.
Qed.

Lemma invoice_update_row_patched (payload : InvoiceUpdate.t) (old new : Invoice.t) :
  invoice_update_row payload old = Ok new -> invoice_patched payload old new.
Proof.
  unfold invoice_update_row, invoice_patched.
  destruct (set_required (InvoiceUpdate.amount payload) _) eqn:E1; [|discriminate].
  destruct (set_required (InvoiceUpdate.status payload) _) eqn:E2; [|discriminate].
  destruct (set_required (InvoiceUpdate.issued_date payload) _) eqn:E3; [|discriminate].
  simpl. intros H. injection H as <-. simpl. auto 12 with patch.
Qed.

Lemma in_replaced {A} (id : A -> Z) (old new : A) (rows : list A) :
  In old rows ->
  In new (map (fun r => if id r =? id old then new else r) rows).
Proof.
  intros Hin. apply in_map_iff. exists old. now rewrite Z.eqb_refl.
Qed.

(** C8.  Each update handler that succeeds on a stored record [old] stores
    and returns a record [new] in which every column whose field is left out
    of the payload has the value it had in [old], every column whose field is
    present has the value of the payload, and the keys, which no payload
    carries, are those of [old]. *)
Theorem updates_are_partial (collate : string -> string) (db db' : Store) :
  (forall id payload new,
      update_client collate id payload db = Ok (new, db') ->
      exists old,
        _get_client_or_404 db id = Ok old
        /\ client_patched payload old new
        /\ In new (clients db'))
  /\ (forall id payload new,
        update_shoot id payload db = Ok (new, db') ->
        exists old,
          _get_shoot_or_404 db id = Ok old
          /\ shoot_patched payload old new
          /\ In new (shoots db'))
  /\ (forall id payload new,
        update_package collate id payload db = Ok (new, db') ->
        exists old,
          _get_package_or_404 db id = Ok old
          /\ package_patched payload old new
          /\ In new (packages db'))
  /\ (forall id payload new,
        update_invoice id payload db = Ok (new, db') ->
        exists old,
          _get_invoice_or_404 db id = Ok old
          /\ invoice_patched payload old new
          /\ In new (invoices db')).
Proof.
  split; [|split; [|split]].
  - intros id payload new. unfold update_client, path_id.
    destruct (1 <=? id); [|discriminate]. cbn [bind].
    destruct (_get_client_or_404 db id) as [old|] eqn:Hget; [|discriminate]. cbn [bind].
    destruct (match ClientUpdate.email payload with
              | Absent => _ | Present email => _ end) as [[]|]; [|discriminate].
    cbn [bind].
    destruct (client_update_row payload old) as [row|] eqn:Hrow; [|discriminate].
    cbn [bind]. intros H. injection H as <- <-. exists old.
    split; [reflexivity|]. split; [now apply client_update_row_patched|].
    apply (in_replaced Client.client_id). unfold _get_client_or_404 in Hget.
    destruct (first _ _) eqn:E; [|discriminate]. injection Hget as ->.
    now apply first_Some in E.
  - intros id payload new. unfold update_shoot, path_id.
    destruct (1 <=? id); [|discriminate]. cbn [bind].
    destruct (_get_shoot_or_404 db id) as [old|] eqn:Hget; [|discriminate]. cbn [bind].
    destruct (shoot_update_row payload old) as [row|] eqn:Hrow; [|discriminate].
    cbn [bind]. intros H. injection H as <- <-. exists old.
    split; [reflexivity|]. split; [now apply shoot_update_row_patched|].
    apply (in_replaced Shoot.shoot_id). unfold _get_shoot_or_404 in Hget.
    destruct (first _ _) eqn:E; [|discriminate]. injection Hget as ->.
    now apply first_Some in E.
  - intros id payload new. unfold update_package, path_id.
    destruct (1 <=? id); [|discriminate]. cbn [bind].
    destruct (_get_package_or_404 db id) as [old|] eqn:Hget; [|discriminate].
    cbn [bind].
    destruct (package_update_row payload old) as [row|] eqn:Hrow; [|discriminate].
    cbn [bind]. destruct (package_name_taken collate row db); [discriminate|].
    intros H. injection H as <- <-. exists old.
    split; [reflexivity|]. split; [now apply package_update_row_patched|].
    apply (in_replaced Package.package_id). unfold _get_package_or_404 in Hget.
    destruct (first _ _) eqn:E; [|discriminate]. injection Hget as ->.
    now apply first_Some in E.
  - intros id payload new H. apply update_invoice_Ok in H.
    destruct H as (old & _ & Hget & Hrow & ->). exists old.
    split; [assumption|]. split; [now apply invoice_update_row_patched|].
    apply (in_replaced Invoice.invoice_id). now apply get_invoice_Ok in Hget.
Qed.

Lemma updates_are_partial_witness :
  (exists old,
     _get_client_or_404 two_clients 2 = Ok old
     /\ client_patched (ClientUpdate.mk (Present (Some "Benedict")) Absent Absent) old
                       (Client.mk 2 "Benedict" "ben@example.com" (Some "555-0100")))
  /\ (exists old,
        _get_invoice_or_404 studio 1 = Ok old
        /\ invoice_patched
             (InvoiceUpdate.mk Absent (Present (Some "sent")) Absent
                               (Present (Some 20240205)) Absent Absent)
             old
             (Invoice.mk 1 1 None None 10000 "sent" 20240105 (Some 20240205))).
Proof.
  split.
  - destruct (proj1 (updates_are_partial binary two_clients
                       (run binary two_clients
                          [UpdateClient 2 (ClientUpdate.mk (Present (Some "Benedict"))
                                                           Absent Absent)]))
                2 (ClientUpdate.mk (Present (Some "Benedict")) Absent Absent)
                (Client.mk 2 "Benedict" "ben@example.com" (Some "555-0100")))
      as (old & Hget & Hpatched & _).
    + reflexivity.
    + exists old. split; assumption.
  - destruct (proj2 (proj2 (proj2 (updates_are_partial binary studio
                       (run binary studio
                          [UpdateInvoice 1
                             (InvoiceUpdate.mk Absent (Present (Some "sent")) Absent
                                               (Present (Some 20240205)) Absent Absent)]))))
                1 (InvoiceUpdate.mk Absent (Present (Some "sent")) Absent
                                    (Present (Some 20240205)) Absent Absent)
                (Invoice.mk 1 1 None None 10000 "sent" 20240105 (Some 20240205)))
      as (old & Hget & Hpatched & _).
    + reflexivity.
    + exists old. split; assumption.
Defined.

(** ** C9: deleting a client *)

Lemma existsb_filter_iff {A} (f g : A -> bool) (rows : list A) :
  existsb f (filter g rows) = true <-> exists x, In x rows /\ g x = true /\ f x = true.
Proof.
  rewrite existsb_exists. split.
  - intros (x & Hin & Hf). apply filter_In in Hin. exists x. tauto.
  - intros (x & Hin & Hg & Hf). exists x. split; [|assumption]. apply filter_In. tauto.
Qed.

Lemma clear_shoot_cases (gone : Z -> bool) (i : Invoice.t) :
  same_but_shoot i (clear_shoot gone i)
  /\ ((exists sid, Invoice.shoot_id i = Some sid /\ gone sid = true) ->
      Invoice.shoot_id (clear_shoot gone i) = None)
  /\ (~ (exists sid, Invoice.shoot_id i = Some sid /\ gone sid = true) ->
      clear_shoot gone i = i).
Proof.
  unfold clear_shoot, same_but_shoot.
  destruct (Invoice.shoot_id i) as [sid|] eqn:E.
  - destruct (gone sid) eqn:G; simpl.
    + repeat split; try reflexivity. intros H. elim H. now exists sid.
    + repeat split; try reflexivity. intros (sid' & Hs & Hg). congruence.
  - repeat split; try reflexivity. intros (sid' & Hs & Hg). congruence.
Qed.

(** C9, as the code has it.  Deleting a stored client succeeds.  It removes
    that client, the shoots of that client, the invoices of that client and
    the payments of those invoices, and nothing else: the other clients, the
    other shoots, the packages and the payments of other invoices stay as
    they are, and every invoice of another client stays, with the same values
    in every column except that its [shoot_id] is cleared when it referred to
    a shoot of the deleted client. *)
Theorem delete_client_cascades (db : Store) (client_id : Z) (client : Client.t) :
  1 <= client_id ->
  _get_client_or_404 db client_id = Ok client ->
  exists db',
    delete_client client_id db = Ok (tt, db')
    /\ (forall c, In c (clients db') <->
                  In c (clients db) /\ Client.client_id c <> client_id)
    /\ (forall s, In s (shoots db') <->
                  In s (shoots db) /\ Shoot.client_id s <> client_id)
    /\ (forall i', In i' (invoices db') -> Invoice.client_id i' <> client_id)
    /\ (forall i, In i (invoices db) -> Invoice.client_id i <> client_id ->
          exists i',
            In i' (invoices db')
            /\ same_but_shoot i i'
            /\ ((exists sid, Invoice.shoot_id i = Some sid
                             /\ shoot_of_client db client_id sid) ->
                Invoice.shoot_id i' = None)
            /\ (~ (exists sid, Invoice.shoot_id i = Some sid
                               /\ shoot_of_client db client_id sid) ->
                i' = i))
    /\ (forall p, In p (payments db') <->
                  In p (payments db)
                  /\ ~ invoice_of_client db client_id (Payment.invoice_id p))
    /\ packages db' = packages db.
Proof.
  intros Hid Hget. destruct (get_client_Ok _ _ _ Hget) as [_ Hcid].
  unfold delete_client, path_id.
  destruct (Z.leb_spec 1 client_id); [|lia]. cbn [bind]. rewrite Hget. cbn [bind].
  rewrite Hcid. eexists. split; [reflexivity|]. cbn [clients shoots invoices payments packages].
  set (shoot_gone := fun sid => existsb _ (filter _ (shoots db))).
  assert (Hgone : forall sid, shoot_gone sid = true <-> shoot_of_client db client_id sid).
  { intros sid. unfold shoot_gone, shoot_of_client. rewrite existsb_filter_iff.
    split; intros (s & Hin & H1 & H2); exists s.
    - apply Z.eqb_eq in H1, H2. auto.
    - rewrite !Z.eqb_eq. auto. }
  assert (Hsame : forall i,
             (exists sid, Invoice.shoot_id i = Some sid /\ shoot_gone sid = true)
             <-> (exists sid, Invoice.shoot_id i = Some sid
                              /\ shoot_of_client db client_id sid)).
  { intros i. split; intros (sid & Hs & Hg); exists sid; split; auto; now apply Hgone. }
  split; [|split; [|split; [|split; [|split]]]].
  - intros c. rewrite filter_In, negb_true_iff, Z.eqb_neq. reflexivity.
  - intros s. rewrite filter_In, negb_true_iff, Z.eqb_neq. reflexivity.
  - intros i' Hin. apply in_map_iff in Hin. destruct Hin as (i & <- & Hin).
    apply filter_In in Hin. destruct Hin as [_ Hi].
    rewrite negb_true_iff, Z.eqb_neq in Hi.
    destruct (clear_shoot_cases shoot_gone i) as [(_ & -> & _) _]. exact Hi.
  - intros i Hin Hother. exists (clear_shoot shoot_gone i).
    destruct (clear_shoot_cases shoot_gone i) as (Hsb & Hcleared & Hkept).
    split; [|split; [exact Hsb|split]].
    + apply in_map. apply filter_In. split; [assumption|].
      now rewrite negb_true_iff, Z.eqb_neq.
    + intros Hex. apply Hcleared. now apply Hsame.
    + intros Hex. apply Hkept. intros Hex'. apply Hex. now apply Hsame.
  - intros p. rewrite filter_In, negb_true_iff. unfold invoice_of_client.
    split; intros [Hin Hp]; (split; [assumption|]).
    + intros (i & Hi & Hc & Hiid).
      assert (E : existsb (fun i0 => Invoice.invoice_id i0 =? Payment.invoice_id p)
                    (filter (fun i0 => Invoice.client_id i0 =? client_id) (invoices db))
                  = true).
      { apply existsb_filter_iff. exists i. rewrite !Z.eqb_eq. auto. }
      congruence.
    + destruct (existsb _ _) eqn:E; [|reflexivity].
      apply existsb_filter_iff in E. destruct E as (i & Hi & Hc & Hiid).
      rewrite Z.eqb_eq in Hc, Hiid. elim Hp. now exists i.
  - reflexivity.
Qed.

Lemma delete_client_cascades_witness :
  exists db',
    delete_client 1 shared_shoot = Ok (tt, db')
    /\ map Client.name (clients db') = ["Ben"]
    /\ shoots db' = []
    /\ map Payment.amount (payments db') = [2500].
Proof.
  destruct (delete_client_cascades shared_shoot 1 (Client.mk 1 "Ana" "ana@example.com" None))
    as (db' & Hdel & _).
  - lia.
  - reflexivity.
  - exists db'. split; [exact Hdel|].
    vm_compute in Hdel. injection Hdel as <-. repeat split.
Defined.

(** C9, as stated, fails: deleting Ana changes the invoice of Ben, whose
    reference to the shoot of Ana is cleared. *)
Lemma delete_client_changes_other_invoice :
  let before := Invoice.mk 1 2 (Some 1) None 10000 "draft" 20240105 None in
  let after := Invoice.mk 1 2 None None 10000 "draft" 20240105 None in
  In before (invoices shared_shoot)
  /\ Invoice.client_id before = 2
  /\ exists db',
       delete_client 1 shared_shoot = Ok (tt, db')
       /\ invoices db' = [after]
       /\ ~ In before (invoices db').
Proof.
  split; [left; reflexivity|]. split; [reflexivity|].
  eexists. split; [reflexivity|]. split; [reflexivity|].
  simpl. intros [H|[]]. discriminate.
Qed.

(** ** The keys of the store, under every request *)

Lemma same_text_sym (collate : string -> string) (a b : string) :
  same_text collate a b = same_text collate b a.
Proof. unfold same_text. apply String.eqb_sym. Qed.

(** Requests that drop clients, drop invoices, or rewrite invoices without
    touching their id. *)
Lemma keys_sound_shrink (collate : string -> string) (db db' : Store)
    (keepC : Client.t -> bool) (keepI : Invoice.t -> bool)
    (g : Invoice.t -> Invoice.t) :
  keys_sound collate db ->
  clients db' = filter keepC (clients db) ->
  invoices db' = map g (filter keepI (invoices db)) ->
  (forall i, Invoice.invoice_id (g i) = Invoice.invoice_id i) ->
  next_invoice_id db' = next_invoice_id db ->
  next_client_id db' = next_client_id db ->
  keys_sound collate db'.
Proof.
  intros [Hnd Hir Hin Hcr Hcn Hem] HC HI Hgid Hni Hnc. constructor.
  - rewrite HI, map_map. rewrite (map_ext _ Invoice.invoice_id) by exact Hgid.
    now apply NoDup_map_filter.
  - intros i' Hi'. rewrite HI in Hi'. apply in_map_iff in Hi'.
    destruct Hi' as (i & <- & Hi). apply filter_In in Hi.
    rewrite Hgid, Hni. apply Hir. tauto.
  - now rewrite Hni.
  - intros c Hc. rewrite HC in Hc. apply filter_In in Hc. rewrite Hnc. apply Hcr. tauto.
  - now rewrite Hnc.
  - intros c d Hc Hd. rewrite HC in Hc, Hd. apply filter_In in Hc, Hd.
    apply Hem; tauto.
Qed.

Lemma keys_sound_same (collate : string -> string) (db db' : Store) :
  keys_sound collate db ->
  clients db' = clients db ->
  invoices db' = invoices db ->
  next_invoice_id db' = next_invoice_id db ->
  next_client_id db' = next_client_id db ->
  keys_sound collate db'.
Proof.
  intros H HC HI Hni Hnc.
  apply (keys_sound_shrink collate db db' (fun _ => true) (fun _ => true) (fun i => i) H).
  - now rewrite filter_all.
  - now rewrite filter_all, map_id.
  - reflexivity.
  - assumption.
  - assumption.
Qed.

Lemma create_client_keys (collate : string -> string) (payload : ClientCreate.t)
    (db : Store) :
  keys_sound collate db ->
  keys_sound collate (committed db (create_client collate payload db)).
Proof.
  intros H. unfold create_client.
  destruct (first _ (clients db)) as [existing|] eqn:E; [exact H|].
  rewrite first_None in E.
  destruct H as [Hnd Hir Hin Hcr Hcn Hem]. simpl. constructor; simpl; try assumption.
  - intros c Hc. apply in_app_or in Hc. destruct Hc as [Hc|[<-|[]]].
    + specialize (Hcr c Hc). lia.
    + simpl. lia.
  - lia.
  - intros c d Hc Hd Hsame. apply in_app_or in Hc, Hd.
    destruct Hc as [Hc|[<-|[]]]; destruct Hd as [Hd|[<-|[]]]; simpl in *.
    + now apply Hem.
    + rewrite (E c Hc) in Hsame. discriminate.
    + rewrite same_text_sym, (E d Hd) in Hsame. discriminate.
    + reflexivity.
Qed.

Lemma client_update_row_Ok (payload : ClientUpdate.t) (client client' : Client.t) :
  client_update_row payload client = Ok client' ->
  Client.client_id client' = Client.client_id client
  /\ (Client.email client' = Client.email client
      \/ ClientUpdate.email payload = Present (Some (Client.email client'))).
Proof.
  unfold client_update_row.
  destruct (ClientUpdate.name payload) as [|[n|]]; simpl; try discriminate;
    (destruct (ClientUpdate.email payload) as [|[e|]]; simpl; try discriminate);
    intros H; injection H as <-; simpl; auto.
Qed.

Lemma update_client_keys (collate : string -> string) (client_id : Z)
    (payload : ClientUpdate.t) (db : Store) :
  keys_sound collate db ->
  keys_sound collate (committed db (update_client collate client_id payload db)).
Proof.
  intros H. unfold update_client, path_id.
  destruct (1 <=? client_id); [|exact H]. cbn [bind].
  destruct (_get_client_or_404 db client_id) as [client|] eqn:Hget; [|exact H].
  cbn [bind]. destruct (get_client_Ok _ _ _ Hget) as [Hclient Hcid].
  destruct (match ClientUpdate.email payload with
            | Absent => _ | Present email => _ end) as [[]|] eqn:Hclash; [|exact H].
  cbn [bind].
  destruct (client_update_row payload client) as [client'|] eqn:Hrow; [|exact H].
  cbn [bind committed].
  destruct (client_update_row_Ok _ _ _ Hrow) as [Hid' Hemail'].
  set (replace := fun c => if Client.client_id c =? Client.client_id client
                           then client' else c).
  assert (Hids : forall c, Client.client_id (replace c) = Client.client_id c).
  { intros c. unfold replace.
    destruct (Z.eqb_spec (Client.client_id c) (Client.client_id client)); congruence. }
  (* the email written for the client is the email of no other client *)
  assert (Hfree : forall d, In d (clients db) ->
            same_text collate (Client.email client') (Client.email d) = true ->
            Client.client_id d = Client.client_id client).
  { intros d Hd Hsame. destruct H as [_ _ _ _ _ Hem].
    destruct Hemail' as [E|E].
    - rewrite E in Hsame. symmetry. now apply Hem.
    - rewrite E in Hclash.
      destruct (first _ (clients db)) as [clash|] eqn:Hfirst; [discriminate|].
      rewrite first_None in Hfirst. specialize (Hfirst d Hd). simpl in Hfirst.
      rewrite same_text_sym, Hsame in Hfirst. simpl in Hfirst.
      apply negb_false_iff, Z.eqb_eq in Hfirst. congruence. }
  destruct H as [Hnd Hir Hin Hcr Hcn Hem]. constructor; simpl; try assumption.
  - intros c' Hc'. apply in_map_iff in Hc'. destruct Hc' as (c & <- & Hc).
    fold (replace c). rewrite Hids. now apply Hcr.
  - intros c' d' Hc' Hd' Hsame.
    apply in_map_iff in Hc', Hd'.
    destruct Hc' as (c & <- & Hc). destruct Hd' as (d & <- & Hd).
    fold (replace c) (replace d) in *. rewrite !Hids. unfold replace in Hsame.
    destruct (Z.eqb_spec (Client.client_id c) (Client.client_id client)) as [Ec|Ec];
      destruct (Z.eqb_spec (Client.client_id d) (Client.client_id client)) as [Ed|Ed].
    + congruence.
    + rewrite Ec. symmetry. now apply Hfree.
    + rewrite Ed. rewrite same_text_sym in Hsame. now apply Hfree.
    + now apply Hem.
Qed.

Lemma create_invoice_keys (collate : string -> string) (payload : InvoiceCreate.t)
    (db : Store) :
  keys_sound collate db ->
  keys_sound collate (committed db (create_invoice payload db)).
Proof.
  intros H.
  destruct (create_invoice payload db) as [[invoice db']|e] eqn:E; [|exact H].
  assert (HC : clients db' = clients db /\ next_client_id db' = next_client_id db).
  { revert E. unfold create_invoice. handler_cases; intros E; try discriminate;
      injection E as <- <-; split; reflexivity. }
  apply create_invoice_Ok in E. destruct E as (HI & _ & Hn & Hid & _).
  destruct HC as [HC Hnc].
  destruct H as [Hnd Hir Hin Hcr Hcn Hem]. simpl. constructor.
  - rewrite HI, map_app. simpl.
    apply (Permutation_NoDup (Permutation_cons_append _ _)).
    constructor; [|assumption].
    intros Hi. apply in_map_iff in Hi. destruct Hi as (i & Hi & Hi').
    specialize (Hir i Hi'). lia.
  - intros i Hi. rewrite HI in Hi. apply in_app_or in Hi. rewrite Hn.
    destruct Hi as [Hi|[<-|[]]]; [specialize (Hir i Hi)|]; lia.
  - lia.
  - intros c Hc. rewrite HC in Hc. rewrite Hnc. now apply Hcr.
  - now rewrite Hnc.
  - intros c d Hc Hd. rewrite HC in Hc, Hd. now apply Hem.
Qed.

Lemma update_invoice_keys (collate : string -> string) (invoice_id : Z)
    (payload : InvoiceUpdate.t) (db : Store) :
  keys_sound collate db ->
  keys_sound collate (committed db (update_invoice invoice_id payload db)).
Proof.
  intros H.
  destruct (update_invoice invoice_id payload db) as [[invoice' db']|e] eqn:E; [|exact H].
  apply update_invoice_Ok in E. destruct E as (invoice & _ & _ & Hrow & ->).
  destruct (invoice_update_row_Ok _ _ _ Hrow) as [Hid' _].
  assert (Hids : forall i,
             Invoice.invoice_id (if Invoice.invoice_id i =? Invoice.invoice_id invoice
                                 then invoice' else i) = Invoice.invoice_id i).
  { intros i. destruct (Z.eqb_spec (Invoice.invoice_id i) (Invoice.invoice_id invoice));
      congruence. }
  destruct H as [Hnd Hir Hin Hcr Hcn Hem]. constructor; simpl; try assumption.
  - rewrite map_map. now rewrite (map_ext _ Invoice.invoice_id) by exact Hids.
  - intros i' Hi'. apply in_map_iff in Hi'. destruct Hi' as (i & <- & Hi).
    rewrite Hids. now apply Hir.
Qed.

Lemma step_keys (collate : string -> string) (db : Store) (op : Op) :
  keys_sound collate db -> keys_sound collate (step collate db op).
Proof.
  intros H. destruct op; cbn [step].
  - now apply create_client_keys.
  - now apply update_client_keys.
  - unfold delete_client, bind, path_id, _get_client_or_404.
    handler_cases; try exact H.
    eapply (keys_sound_shrink collate db _ _ _ _ H); simpl; try reflexivity.
    apply clear_shoot_id.
  - unfold create_shoot. handler_cases; try exact H.
    now apply (keys_sound_same collate db).
  - unfold update_shoot, shoot_update_row, set_required, bind, path_id.
    handler_cases; try exact H; now apply (keys_sound_same collate db).
  - unfold delete_shoot, bind, path_id, _get_shoot_or_404.
    handler_cases; try exact H.
    eapply (keys_sound_shrink collate db _ (fun _ => true) (fun _ => true) _ H); simpl;
      [now rewrite filter_all | now rewrite filter_all | apply clear_shoot_id
      | reflexivity ..].
  - unfold create_package. handler_cases; try exact H.
    now apply (keys_sound_same collate db).
  - unfold update_package, package_update_row, set_required, bind, path_id.
    handler_cases; try exact H; now apply (keys_sound_same collate db).
  - unfold delete_package, bind, path_id, _get_package_or_404.
    handler_cases; try exact H.
    eapply (keys_sound_shrink collate db _ (fun _ => true) (fun _ => true) _ H); simpl;
      [now rewrite filter_all | now rewrite filter_all | apply clear_package_id
      | reflexivity ..].
  - now apply create_invoice_keys.
  - now apply update_invoice_keys.
  - unfold delete_invoice, bind, path_id, _get_invoice_or_404.
    handler_cases; try exact H.
    eapply (keys_sound_shrink collate db _ (fun _ => true) _ (fun i => i) H); simpl;
      [now rewrite filter_all | now rewrite map_id | reflexivity ..].
  - unfold create_payment. destruct (create_payment_check payload db) as [[]|]; simpl;
      [now apply (keys_sound_same collate db)|exact H].
  - unfold delete_payment, bind, path_id, _get_payment_or_404.
    handler_cases; try exact H. now apply (keys_sound_same collate db).
Qed.

(** Whatever the requests, from the empty store: the keys are sound. *)
Lemma run_keys (collate : string -> string) (ops : list Op) :
  keys_sound collate (run collate empty_store ops).
Proof.
  assert (H : keys_sound collate empty_store).
  { constructor; simpl; try constructor; try lia; intros ? []. }
  revert H. unfold run. generalize empty_store.
  induction ops as [|op ops IH]; intros db H; simpl; [exact H|].
  apply IH. now apply step_keys.
Qed.

(** * Further properties of the handlers *)

(** ** Keyed tables *)

Lemma keyed_filter {A} (id : A -> Z) (next : Z) (f : A -> bool) (rows : list A) :
  keyed id next rows -> keyed id next (filter f rows).
Proof.
  intros (Hnd & Hr & Hn). split; [now apply NoDup_map_filter|]. split; [|assumption].
  intros r Hin. apply filter_In in Hin. apply Hr. tauto.
Qed.

Lemma keyed_map {A} (id : A -> Z) (next : Z) (g : A -> A) (rows : list A) :
  (forall r, id (g r) = id r) ->
  keyed id next rows -> keyed id next (map g rows).
Proof.
  intros Hg (Hnd & Hr & Hn). split; [|split; [|assumption]].
  - rewrite map_map. now rewrite (map_ext _ id) by exact Hg.
  - intros r' Hin. apply in_map_iff in Hin. destruct Hin as (r & <- & Hin).
    rewrite Hg. now apply Hr.
Qed.

Lemma keyed_replace {A} (id : A -> Z) (next : Z) (old new : A) (rows : list A) :
  id new = id old ->
  keyed id next rows ->
  keyed id next (map (fun r => if id r =? id old then new else r) rows).
Proof.
  intros Hid. apply keyed_map. intros r.
  destruct (Z.eqb_spec (id r) (id old)); congruence.
Qed.

Lemma keyed_append {A} (id : A -> Z) (next : Z) (new : A) (rows : list A) :
  id new = next ->
  keyed id next rows -> keyed id (next + 1) (rows ++ [new]).
Proof.
  intros Hid (Hnd & Hr & Hn). split; [|split; [|lia]].
  - rewrite map_app. simpl.
    apply (Permutation_NoDup (Permutation_cons_append _ _)).
    constructor; [|assumption].
    intros Hin. apply in_map_iff in Hin. destruct Hin as (r & Hr' & Hin).
    specialize (Hr r Hin). lia.
  - intros r Hin. apply in_app_or in Hin. destruct Hin as [Hin|[<-|[]]].
    + specialize (Hr r Hin). lia.
    + lia.
Qed.

(** In a keyed table the id finds the row. *)
Lemma keyed_first {A} (id : A -> Z) (next : Z) (rows : list A) (r : A) :
  keyed id next rows -> In r rows ->
  first (fun x => id x =? id r) rows = Some r.
Proof.
  intros (Hnd & _ & _). unfold first.
  induction rows as [|x rest IH]; simpl; intros Hin; [contradiction|].
  inversion Hnd as [|? ? Hx Hrest]; subst.
  destruct Hin as [->|Hin].
  - now rewrite Z.eqb_refl.
  - destruct (Z.eqb_spec (id x) (id r)) as [E|_].
    + elim Hx. rewrite E. now apply in_map.
    + now apply IH.
Qed.

(** A fresh id finds nothing, and finds the row once the row is appended. *)
Lemma keyed_first_fresh {A} (id : A -> Z) (next : Z) (rows : list A) :
  keyed id next rows ->
  first (fun x => id x =? next) rows = None.
Proof.
  intros (_ & Hr & _). apply first_None. intros x Hx.
  specialize (Hr x Hx). apply Z.eqb_neq. lia.
Qed.

Lemma first_app_fresh {A} (f : A -> bool) (rows : list A) (new : A) :
  first f rows = None -> f new = true -> first f (rows ++ [new]) = Some new.
Proof.
  unfold first. induction rows as [|x rest IH]; simpl; intros Hn Hf.
  - now rewrite Hf.
  - destruct (f x); [discriminate|]. now apply IH.
Qed.

Lemma clear_shoot_keeps (gone : Z -> bool) (i : Invoice.t) :
  Invoice.invoice_id (clear_shoot gone i) = Invoice.invoice_id i
  /\ Invoice.client_id (clear_shoot gone i) = Invoice.client_id i
  /\ Invoice.package_id (clear_shoot gone i) = Invoice.package_id i
  /\ Invoice.amount (clear_shoot gone i) = Invoice.amount i.
Proof.
  unfold clear_shoot.
  destruct (Invoice.shoot_id i) as [sid|]; [destruct (gone sid)|]; repeat split.
Qed.

Lemma clear_package_keeps (gone : Z -> bool) (i : Invoice.t) :
  Invoice.invoice_id (clear_package gone i) = Invoice.invoice_id i
  /\ Invoice.client_id (clear_package gone i) = Invoice.client_id i
  /\ Invoice.shoot_id (clear_package gone i) = Invoice.shoot_id i
  /\ Invoice.amount (clear_package gone i) = Invoice.amount i.
Proof.
  unfold clear_package.
  destruct (Invoice.package_id i) as [pid|]; [destruct (gone pid)|]; repeat split.
Qed.

Create HintDb keys.
#[local] Hint Resolve keyed_filter keyed_map keyed_replace keyed_append
  clear_shoot_id clear_package_id : keys.

Lemma step_ids (collate : string -> string) (db : Store) (op : Op) :
  ids_sound db -> ids_sound (step collate db op).
Proof.
  intros H. destruct op; cbn [step].
  - unfold create_client. handler_cases; try exact H.
    destruct H. constructor; simpl; auto with keys.
  - unfold update_client, bind, path_id.
    destruct (1 <=? client_id); [|exact H].
    destruct (_get_client_or_404 db client_id) as [client|]; [|exact H].
    destruct (match ClientUpdate.email payload with
              | Absent => _ | Present email => _ end) as [[]|]; [|exact H].
    destruct (client_update_row payload client) as [client'|] eqn:Hrow; [|exact H].
    apply client_update_row_Ok in Hrow. destruct Hrow as [Hid _].
    destruct H. constructor; simpl; auto with keys.
  - unfold delete_client, bind, path_id, _get_client_or_404.
    handler_cases; try exact H.
    destruct H. constructor; simpl; auto with keys.
  - unfold create_shoot. handler_cases; try exact H.
    destruct H. constructor; simpl; auto with keys.
  - unfold update_shoot, bind, path_id.
    destruct (1 <=? shoot_id); [|exact H].
    destruct (_get_shoot_or_404 db shoot_id) as [shoot|]; [|exact H].
    unfold shoot_update_row, bind.
    destruct (set_required _ _) as [d|]; [|exact H].
    destruct H. constructor; simpl; auto with keys.
  - unfold delete_shoot, bind, path_id, _get_shoot_or_404.
    handler_cases; try exact H.
    destruct H. constructor; simpl; auto with keys.
  - unfold create_package. handler_cases; try exact H.
    destruct H. constructor; simpl; auto with keys.
  - unfold update_package, bind, path_id.
    destruct (1 <=? package_id); [|exact H].
    destruct (_get_package_or_404 db package_id) as [package|]; [|exact H].
    unfold package_update_row, bind.
    destruct (set_required (PackageUpdate.name payload) _) as [n|]; [|exact H].
    destruct (set_required (PackageUpdate.price payload) _) as [pr|]; [|exact H].
    destruct (set_required (PackageUpdate.is_active payload) _) as [a|]; [|exact H].
    destruct (package_name_taken _ _ _); [exact H|].
    destruct H. constructor; simpl; auto with keys.
  - unfold delete_package, bind, path_id, _get_package_or_404.
    handler_cases; try exact H.
    destruct H. constructor; simpl; auto with keys.
  - destruct (create_invoice payload db) as [[invoice db']|e] eqn:E; [|exact H].
    assert (HS : db' = mkStore (clients db) (shoots db) (packages db)
                         (invoices db ++ [invoice]) (payments db)
                         (next_client_id db) (next_shoot_id db) (next_package_id db)
                         (next_invoice_id db + 1) (next_payment_id db)
                 /\ Invoice.invoice_id invoice = next_invoice_id db).
    { revert E. unfold create_invoice. handler_cases; intros E; try discriminate;
        injection E as <- <-; split; reflexivity. }
    destruct HS as [-> Hid]. destruct H. constructor; simpl; auto with keys.
  - destruct (update_invoice invoice_id payload db) as [[invoice' db']|e] eqn:E;
      [|exact H].
    apply update_invoice_Ok in E. destruct E as (invoice & _ & _ & Hrow & ->).
    destruct (invoice_update_row_Ok _ _ _ Hrow) as [Hid _].
    destruct H. constructor; simpl; auto with keys.
  - unfold delete_invoice, bind, path_id, _get_invoice_or_404.
    handler_cases; try exact H.
    destruct H. constructor; simpl; auto with keys.
  - unfold create_payment. destruct (create_payment_check payload db) as [[]|];
      [|exact H].
    destruct H. constructor; simpl; auto with keys.
  - unfold delete_payment, bind, path_id, _get_payment_or_404.
    handler_cases; try exact H.
    destruct H. constructor; simpl; auto with keys.
Qed.

Lemma empty_store_ids : ids_sound empty_store.
Proof.
  constructor; simpl; (split; [constructor|split; [intros ? []|lia]]).
Qed.

Lemma run_invariant (collate : string -> string) (P : Store -> Prop) :
  (forall db op, P db -> P (step collate db op)) ->
  forall ops db, P db -> P (run collate db ops).
Proof.
  intros Hstep. unfold run. induction ops as [|op ops IH]; intros db H; simpl.
  - exact H.
  - apply IH. now apply Hstep.
Qed.

(** ** References *)

Lemma has_map {A} (id : A -> Z) (g : A -> A) (rows : list A) (k : Z) :
  (forall r, id (g r) = id r) ->
  (exists r, In r rows /\ id r = k) ->
  exists r, In r (map g rows) /\ id r = k.
Proof.
  intros Hg (r & Hin & Hk). exists (g r). split; [now apply in_map|]. now rewrite Hg.
Qed.

Lemma has_replace {A} (id : A -> Z) (old new : A) (rows : list A) (k : Z) :
  id new = id old ->
  (exists r, In r rows /\ id r = k) ->
  exists r, In r (map (fun r => if id r =? id old then new else r) rows) /\ id r = k.
Proof.
  intros Hid. apply has_map. intros r.
  destruct (Z.eqb_spec (id r) (id old)); congruence.
Qed.

Lemma has_app {A} (id : A -> Z) (rows : list A) (new : A) (k : Z) :
  (exists r, In r rows /\ id r = k) ->
  exists r, In r (rows ++ [new]) /\ id r = k.
Proof.
  intros (r & Hin & Hk). exists r. split; [|assumption]. apply in_or_app. now left.
Qed.

Lemma has_first {A} (id : A -> Z) (rows : list A) (k : Z) (r : A) :
  first (fun x => id x =? k) rows = Some r ->
  exists r, In r rows /\ id r = k.
Proof.
  intros H. apply first_Some in H. exists r. now rewrite <- Z.eqb_eq.
Qed.

Lemma clear_shoot_Some (gone : Z -> bool) (i : Invoice.t) (sid : Z) :
  Invoice.shoot_id (clear_shoot gone i) = Some sid ->
  Invoice.shoot_id i = Some sid /\ gone sid = false.
Proof.
  unfold clear_shoot. destruct (Invoice.shoot_id i) as [s|] eqn:E; [|now rewrite E].
  destruct (gone s) eqn:G; simpl; [discriminate|].
  rewrite E. intros H. injection H as <-. auto.
Qed.

Lemma clear_package_Some (gone : Z -> bool) (i : Invoice.t) (pid : Z) :
  Invoice.package_id (clear_package gone i) = Some pid ->
  Invoice.package_id i = Some pid /\ gone pid = false.
Proof.
  unfold clear_package. destruct (Invoice.package_id i) as [p|] eqn:E; [|now rewrite E].
  destruct (gone p) eqn:G; simpl; [discriminate|].
  rewrite E. intros H. injection H as <-. auto.
Qed.

(** What [create_invoice] has checked and written when it returns. *)
Lemma create_invoice_Ok_full (payload : InvoiceCreate.t) (db db' : Store)
    (invoice : Invoice.t) :
  create_invoice payload db = Ok (invoice, db') ->
  invoice = Invoice.mk (next_invoice_id db)
                       (InvoiceCreate.client_id payload)
                       (InvoiceCreate.shoot_id payload)
                       (InvoiceCreate.package_id payload)
                       (InvoiceCreate.amount payload)
                       (InvoiceCreate.status payload)
                       (InvoiceCreate.issued_date payload)
                       (InvoiceCreate.due_date payload)
  /\ db' = mkStore (clients db) (shoots db) (packages db)
             (invoices db ++ [invoice]) (payments db)
             (next_client_id db) (next_shoot_id db) (next_package_id db)
             (next_invoice_id db + 1) (next_payment_id db)
  /\ (exists c, In c (clients db) /\ Client.client_id c = InvoiceCreate.client_id payload)
  /\ (forall sid, InvoiceCreate.shoot_id payload = Some sid ->
        exists s, In s (shoots db) /\ Shoot.shoot_id s = sid)
  /\ (forall pid, InvoiceCreate.package_id payload = Some pid ->
        exists p, In p (packages db) /\ Package.package_id p = pid).
Proof.
  unfold create_invoice.
  destruct (first _ (clients db)) as [client|] eqn:Hc; [|discriminate].
  apply has_first in Hc.
  destruct (InvoiceCreate.shoot_id payload) as [sid|];
    [destruct (first _ (shoots db)) eqn:Hs; [apply has_first in Hs|discriminate]|];
    (destruct (InvoiceCreate.package_id payload) as [pid|];
     [destruct (first _ (packages db)) eqn:Hp; [apply has_first in Hp|discriminate]|]);
    simpl; intros H; injection H as <- <-;
    (split; [reflexivity|]); (split; [reflexivity|]); (split; [assumption|]);
    split; intros k Hk; try discriminate; injection Hk as <-; assumption.
Qed.

(** The references [update_invoice] has checked when it returns. *)
Lemma update_invoice_refs (invoice_id : Z) (payload : InvoiceUpdate.t) (db db' : Store)
    (invoice' : Invoice.t) :
  update_invoice invoice_id payload db = Ok (invoice', db') ->
  (forall sid, InvoiceUpdate.shoot_id payload = Present (Some sid) ->
     exists s, In s (shoots db) /\ Shoot.shoot_id s = sid)
  /\ (forall pid, InvoiceUpdate.package_id payload = Present (Some pid) ->
        exists p, In p (packages db) /\ Package.package_id p = pid).
Proof.
  unfold update_invoice, path_id.
  destruct (1 <=? invoice_id); [|discriminate]. cbn [bind].
  destruct (_get_invoice_or_404 db invoice_id) as [invoice|]; [|discriminate].
  cbn [bind]. intros H. split.
  - intros sid E. rewrite E in H.
    destruct (first _ (shoots db)) eqn:Hs; [|discriminate]. now apply has_first in Hs.
  - intros pid E.
    destruct (match InvoiceUpdate.shoot_id payload with
              | Present (Some sid) => _ | _ => Ok tt end) as [[]|]; [|discriminate].
    cbn [bind] in H. rewrite E in H.
    destruct (first _ (packages db)) eqn:Hp; [|discriminate]. now apply has_first in Hp.
Qed.

Lemma invoice_update_row_refs (payload : InvoiceUpdate.t) (invoice invoice' : Invoice.t) :
  invoice_update_row payload invoice = Ok invoice' ->
  Invoice.client_id invoice' = Invoice.client_id invoice
  /\ Invoice.shoot_id invoice'
     = set_nullable (InvoiceUpdate.shoot_id payload) (Invoice.shoot_id invoice)
  /\ Invoice.package_id invoice'
     = set_nullable (InvoiceUpdate.package_id payload) (Invoice.package_id invoice).
Proof.
  unfold invoice_update_row.
  destruct (set_required (InvoiceUpdate.amount payload) _); [|discriminate].
  destruct (set_required (InvoiceUpdate.status payload) _); [|discriminate].
  destruct (set_required (InvoiceUpdate.issued_date payload) _); [|discriminate].
  simpl. intros H. injection H as <-. repeat split.
Qed.

Lemma delete_client_refs (client_id : Z) (db : Store) :
  refs_sound db -> refs_sound (committed db (delete_client client_id db)).
Proof.
  intros H. unfold delete_client, path_id.
  destruct (1 <=? client_id); [|exact H]. cbn [bind].
  destruct (_get_client_or_404 db client_id) as [client|]; [|exact H].
  cbn [bind committed]. set (cid := Client.client_id client).
  set (shoot_gone := fun sid => existsb _ (filter _ (shoots db))).
  destruct H as [Hsc Hic His Hip Hpi]. constructor; simpl.
  - intros s Hs. apply filter_In in Hs. destruct Hs as [Hs Hown].
    apply negb_true_iff, Z.eqb_neq in Hown.
    destruct (Hsc s Hs) as (c & Hc & Hid). exists c. split; [|assumption].
    apply filter_In. split; [assumption|]. apply negb_true_iff, Z.eqb_neq. congruence.
  - intros i' Hi'. apply in_map_iff in Hi'. destruct Hi' as (i & <- & Hi).
    apply filter_In in Hi. destruct Hi as [Hi Hown].
    apply negb_true_iff, Z.eqb_neq in Hown.
    destruct (clear_shoot_keeps shoot_gone i) as (_ & -> & _).
    destruct (Hic i Hi) as (c & Hc & Hid). exists c. split; [|assumption].
    apply filter_In. split; [assumption|]. apply negb_true_iff, Z.eqb_neq. congruence.
  - intros i' sid Hi' Hsid. apply in_map_iff in Hi'. destruct Hi' as (i & <- & Hi).
    apply filter_In in Hi. destruct Hi as [Hi _].
    apply clear_shoot_Some in Hsid. destruct Hsid as [Hsid Hgone].
    destruct (His i sid Hi Hsid) as (s & Hs & Hid). exists s. split; [|assumption].
    apply filter_In. split; [assumption|]. apply negb_true_iff.
    destruct (Shoot.client_id s =? cid) eqn:Hown; [|reflexivity].
    assert (Hg : shoot_gone sid = true).
    { unfold shoot_gone. apply existsb_filter_iff. exists s.
      split; [assumption|]. split; [assumption|]. now apply Z.eqb_eq. }
    congruence.
  - intros i' pid Hi' Hpid. apply in_map_iff in Hi'. destruct Hi' as (i & <- & Hi).
    apply filter_In in Hi. destruct Hi as [Hi _].
    destruct (clear_shoot_keeps shoot_gone i) as (_ & _ & Hpk & _).
    rewrite Hpk in Hpid. now apply (Hip i).
  - intros p Hp. apply filter_In in Hp. destruct Hp as [Hp Hkept].
    apply negb_true_iff in Hkept.
    destruct (Hpi p Hp) as (i & Hi & Hid). exists (clear_shoot shoot_gone i).
    split; [|now rewrite clear_shoot_id].
    apply in_map. apply filter_In. split; [assumption|]. apply negb_true_iff.
    destruct (Invoice.client_id i =? cid) eqn:Hown; [|reflexivity].
    assert (Hg : existsb (fun i0 => Invoice.invoice_id i0 =? Payment.invoice_id p)
                   (filter (fun i0 => Invoice.client_id i0 =? cid) (invoices db))
                 = true).
    { apply existsb_filter_iff. exists i.
      split; [assumption|]. split; [assumption|]. now apply Z.eqb_eq. }
    congruence.
Qed.

Lemma delete_shoot_refs (shoot_id : Z) (db : Store) :
  refs_sound db -> refs_sound (committed db (delete_shoot shoot_id db)).
Proof.
  intros H. unfold delete_shoot, path_id.
  destruct (1 <=? shoot_id); [|exact H]. cbn [bind].
  destruct (_get_shoot_or_404 db shoot_id) as [shoot|]; [|exact H].
  cbn [bind committed].
  destruct H as [Hsc Hic His Hip Hpi]. constructor; simpl.
  - intros s Hs. apply filter_In in Hs. apply Hsc. tauto.
  - intros i' Hi'. apply in_map_iff in Hi'. destruct Hi' as (i & <- & Hi).
    destruct (clear_shoot_keeps (fun sid => sid =? Shoot.shoot_id shoot) i)
      as (_ & -> & _).
    now apply Hic.
  - intros i' sid Hi' Hsid. apply in_map_iff in Hi'. destruct Hi' as (i & <- & Hi).
    apply clear_shoot_Some in Hsid. destruct Hsid as [Hsid Hgone].
    destruct (His i sid Hi Hsid) as (s & Hs & Hid). exists s. split; [|assumption].
    apply filter_In. split; [assumption|]. now rewrite Hid, Hgone.
  - intros i' pid Hi' Hpid. apply in_map_iff in Hi'. destruct Hi' as (i & <- & Hi).
    destruct (clear_shoot_keeps (fun sid => sid =? Shoot.shoot_id shoot) i)
      as (_ & _ & Hpk & _).
    rewrite Hpk in Hpid. now apply (Hip i).
  - intros p Hp. apply (has_map Invoice.invoice_id); [apply clear_shoot_id|].
    now apply Hpi.
Qed.

Lemma delete_package_refs (package_id : Z) (db : Store) :
  refs_sound db -> refs_sound (committed db (delete_package package_id db)).
Proof.
  intros H. unfold delete_package, path_id.
  destruct (1 <=? package_id); [|exact H]. cbn [bind].
  destruct (_get_package_or_404 db package_id) as [package|]; [|exact H].
  cbn [bind committed].
  destruct H as [Hsc Hic His Hip Hpi]. constructor; simpl.
  - assumption.
  - intros i' Hi'. apply in_map_iff in Hi'. destruct Hi' as (i & <- & Hi).
    destruct (clear_package_keeps (fun pid => pid =? Package.package_id package) i)
      as (_ & -> & _).
    now apply Hic.
  - intros i' sid Hi' Hsid. apply in_map_iff in Hi'. destruct Hi' as (i & <- & Hi).
    destruct (clear_package_keeps (fun pid => pid =? Package.package_id package) i)
      as (_ & _ & Hsh & _).
    rewrite Hsh in Hsid. now apply (His i).
  - intros i' pid Hi' Hpid. apply in_map_iff in Hi'. destruct Hi' as (i & <- & Hi).
    apply clear_package_Some in Hpid. destruct Hpid as [Hpid Hgone].
    destruct (Hip i pid Hi Hpid) as (p & Hp & Hid). exists p. split; [|assumption].
    apply filter_In. split; [assumption|]. now rewrite Hid, Hgone.
  - intros p Hp. apply (has_map Invoice.invoice_id); [apply clear_package_id|].
    now apply Hpi.
Qed.

Lemma delete_invoice_refs (invoice_id : Z) (db : Store) :
  refs_sound db -> refs_sound (committed db (delete_invoice invoice_id db)).
Proof.
  intros H. unfold delete_invoice, path_id.
  destruct (1 <=? invoice_id); [|exact H]. cbn [bind].
  destruct (_get_invoice_or_404 db invoice_id) as [invoice|]; [|exact H].
  cbn [bind committed].
  destruct H as [Hsc Hic His Hip Hpi]. constructor; simpl.
  - assumption.
  - intros i Hi. apply filter_In in Hi. apply Hic. tauto.
  - intros i sid Hi. apply filter_In in Hi. apply His. tauto.
  - intros i pid Hi. apply filter_In in Hi. apply Hip. tauto.
  - intros p Hp. apply filter_In in Hp. destruct Hp as [Hp Hkept].
    destruct (Hpi p Hp) as (i & Hi & Hid). exists i. split; [|assumption].
    apply filter_In. split; [assumption|]. now rewrite Hid.
Qed.

Lemma update_invoice_keeps_refs (invoice_id : Z) (payload : InvoiceUpdate.t) (db : Store) :
  refs_sound db -> refs_sound (committed db (update_invoice invoice_id payload db)).
Proof.
  intros H.
  destruct (update_invoice invoice_id payload db) as [[invoice' db']|e] eqn:E; [|exact H].
  destruct (update_invoice_refs _ _ _ _ _ E) as [Hshoot Hpackage].
  apply update_invoice_Ok in E. destruct E as (invoice & _ & Hget & Hrow & ->).
  destruct (get_invoice_Ok _ _ _ Hget) as [Hin _].
  destruct (invoice_update_row_Ok _ _ _ Hrow) as [Hid _].
  destruct (invoice_update_row_refs _ _ _ Hrow) as (Hc & Hs & Hp).
  destruct H as [Hsc Hic His Hip Hpi]. cbn [committed]. constructor; simpl.
  - assumption.
  - intros i' Hi'. apply in_map_iff in Hi'. destruct Hi' as (i & <- & Hi).
    destruct (Invoice.invoice_id i =? Invoice.invoice_id invoice); [|now apply Hic].
    rewrite Hc. now apply Hic.
  - intros i' sid Hi' Hsid. apply in_map_iff in Hi'. destruct Hi' as (i & <- & Hi).
    destruct (Invoice.invoice_id i =? Invoice.invoice_id invoice); [|now apply (His i)].
    rewrite Hs in Hsid. destruct (InvoiceUpdate.shoot_id payload) as [|v] eqn:F.
    + now apply (His invoice).
    + simpl in Hsid. subst v. now apply Hshoot.
  - intros i' pid Hi' Hpid. apply in_map_iff in Hi'. destruct Hi' as (i & <- & Hi).
    destruct (Invoice.invoice_id i =? Invoice.invoice_id invoice); [|now apply (Hip i)].
    rewrite Hp in Hpid. destruct (InvoiceUpdate.package_id payload) as [|v] eqn:F.
    + now apply (Hip invoice).
    + simpl in Hpid. subst v. now apply Hpackage.
  - intros p Hp'. apply (has_replace Invoice.invoice_id); [assumption|]. now apply Hpi.
Qed.

Lemma step_refs (collate : string -> string) (db : Store) (op : Op) :
  refs_sound db -> refs_sound (step collate db op).
Proof.
  intros H. destruct op; cbn [step].
  - unfold create_client. handler_cases; try exact H.
    destruct H as [Hsc Hic His Hip Hpi]. constructor; simpl; auto.
    + intros s Hs. now apply (has_app Client.client_id), Hsc.
    + intros i Hi. now apply (has_app Client.client_id), Hic.
  - unfold update_client, bind, path_id.
    destruct (1 <=? client_id); [|exact H].
    destruct (_get_client_or_404 db client_id) as [client|]; [|exact H].
    destruct (match ClientUpdate.email payload with
              | Absent => _ | Present email => _ end) as [[]|]; [|exact H].
    destruct (client_update_row payload client) as [client'|] eqn:Hrow; [|exact H].
    apply client_update_row_Ok in Hrow. destruct Hrow as [Hid _].
    destruct H as [Hsc Hic His Hip Hpi]. constructor; simpl; auto.
    + intros s Hs. now apply (has_replace Client.client_id), Hsc.
    + intros i Hi. now apply (has_replace Client.client_id), Hic.
  - now apply delete_client_refs.
  - unfold create_shoot.
    destruct (first _ (clients db)) as [client|] eqn:Hc; [|exact H].
    apply has_first in Hc.
    destruct H as [Hsc Hic His Hip Hpi]. constructor; simpl; auto.
    + intros s Hs. apply in_app_or in Hs. destruct Hs as [Hs|[<-|[]]]; auto.
    + intros i sid Hi Hsid. apply (has_app Shoot.shoot_id). now apply (His i).
  - unfold update_shoot, bind, path_id.
    destruct (1 <=? shoot_id); [|exact H].
    destruct (_get_shoot_or_404 db shoot_id) as [shoot|] eqn:Hget; [|exact H].
    unfold shoot_update_row, bind.
    destruct (set_required _ _) as [d|]; [|exact H].
    unfold _get_shoot_or_404 in Hget.
    destruct (first _ (shoots db)) as [found|] eqn:Hf; [|discriminate].
    injection Hget as ->. apply first_Some in Hf. destruct Hf as [Hin _].
    destruct H as [Hsc Hic His Hip Hpi]. constructor; simpl; auto.
    + intros s' Hs'. apply in_map_iff in Hs'. destruct Hs' as (s & <- & Hs).
      destruct (Shoot.shoot_id s =? Shoot.shoot_id shoot); [|now apply Hsc].
      simpl. now apply Hsc.
    + intros i sid Hi Hsid. apply (has_replace Shoot.shoot_id); [reflexivity|].
      now apply (His i).
  - now apply delete_shoot_refs.
  - unfold create_package. handler_cases; try exact H.
    destruct H as [Hsc Hic His Hip Hpi]. constructor; simpl; auto.
    intros i pid Hi Hpid. apply (has_app Package.package_id). now apply (Hip i).
  - unfold update_package, bind, path_id.
    destruct (1 <=? package_id); [|exact H].
    destruct (_get_package_or_404 db package_id) as [package|]; [|exact H].
    unfold package_update_row, bind.
    destruct (set_required (PackageUpdate.name payload) _) as [n|]; [|exact H].
    destruct (set_required (PackageUpdate.price payload) _) as [pr|]; [|exact H].
    destruct (set_required (PackageUpdate.is_active payload) _) as [a|]; [|exact H].
    destruct (package_name_taken _ _ _); [exact H|].
    destruct H as [Hsc Hic His Hip Hpi]. constructor; simpl; auto.
    intros i pid Hi Hpid. apply (has_replace Package.package_id); [reflexivity|].
    now apply (Hip i).
  - now apply delete_package_refs.
  - destruct (create_invoice payload db) as [[invoice db']|e] eqn:E; [|exact H].
    apply create_invoice_Ok_full in E. destruct E as (-> & -> & Hc & Hs & Hp).
    destruct H as [Hsc Hic His Hip Hpi]. constructor; simpl; auto.
    + intros i Hi. apply in_app_or in Hi. destruct Hi as [Hi|[<-|[]]]; auto.
    + intros i sid Hi Hsid. apply in_app_or in Hi.
      destruct Hi as [Hi|[<-|[]]]; [now apply (His i)|now apply Hs].
    + intros i pid Hi Hpid. apply in_app_or in Hi.
      destruct Hi as [Hi|[<-|[]]]; [now apply (Hip i)|now apply Hp].
    + intros p Hp'. now apply (has_app Invoice.invoice_id), Hpi.
  - now apply update_invoice_keeps_refs.
  - now apply delete_invoice_refs.
  - unfold create_payment.
    destruct (create_payment_check payload db) as [[]|] eqn:Hc; [|exact H].
    apply create_payment_check_Ok in Hc. destruct Hc as (_ & inv & Hget & _).
    apply get_invoice_Ok in Hget.
    destruct H as [Hsc Hic His Hip Hpi]. constructor; simpl; auto.
    intros p Hp'. apply in_app_or in Hp'. destruct Hp' as [Hp'|[<-|[]]]; auto.
    simpl. now exists inv.
  - unfold delete_payment, bind, path_id, _get_payment_or_404.
    handler_cases; try exact H.
    destruct H as [Hsc Hic His Hip Hpi]. constructor; simpl; auto.
    intros p Hp. apply filter_In in Hp. apply Hpi. tauto.
Qed.

Lemma empty_store_refs : refs_sound empty_store.
Proof. constructor; simpl; intros; contradiction. Qed.

(** ** Values *)

Lemma step_payments_positive (collate : string -> string) (db : Store) (op : Op) :
  payments_positive db -> payments_positive (step collate db op).
Proof.
  unfold payments_positive. intros H. destruct op; cbn [step].
  - unfold create_client. handler_cases; exact H.
  - unfold update_client, client_update_row, set_required, bind, path_id.
    handler_cases; exact H.
  - unfold delete_client, bind, path_id, _get_client_or_404.
    handler_cases; try exact H.
    intros p Hp. apply filter_In in Hp. apply H. tauto.
  - unfold create_shoot. handler_cases; exact H.
  - unfold update_shoot, shoot_update_row, set_required, bind, path_id.
    handler_cases; exact H.
  - unfold delete_shoot, bind, path_id, _get_shoot_or_404. handler_cases; exact H.
  - unfold create_package. handler_cases; exact H.
  - unfold update_package, package_update_row, set_required, bind, path_id.
    handler_cases; exact H.
  - unfold delete_package, bind, path_id, _get_package_or_404. handler_cases; exact H.
  - destruct (create_invoice payload db) as [[invoice db']|e] eqn:E; [|exact H].
    apply create_invoice_Ok_full in E. destruct E as (_ & -> & _). exact H.
  - destruct (update_invoice invoice_id payload db) as [[invoice' db']|e] eqn:E;
      [|exact H].
    apply update_invoice_Ok in E. destruct E as (invoice & _ & _ & _ & ->). exact H.
  - unfold delete_invoice, bind, path_id, _get_invoice_or_404.
    handler_cases; try exact H.
    intros p Hp. apply filter_In in Hp. apply H. tauto.
  - unfold create_payment.
    destruct (create_payment_check payload db) as [[]|] eqn:Hc; [|exact H].
    apply create_payment_check_Ok in Hc. destruct Hc as [Hpos _]. simpl.
    intros p Hp. apply in_app_or in Hp. destruct Hp as [Hp|[<-|[]]]; auto.
  - unfold delete_payment, bind, path_id, _get_payment_or_404.
    handler_cases; try exact H.
    intros p Hp. apply filter_In in Hp. apply H. tauto.
Qed.

Lemma package_name_taken_false (collate : string -> string) (row : Package.t) (db : Store) :
  package_name_taken collate row db = false ->
  forall p, In p (packages db) ->
    same_text collate (Package.name p) (Package.name row) = true ->
    Package.package_id p = Package.package_id row.
Proof.
  unfold package_name_taken. intros H p Hp Hsame.
  destruct (Z.eqb_spec (Package.package_id p) (Package.package_id row)) as [E|E];
    [assumption|].
  assert (Ht : existsb (fun p => same_text collate (Package.name p) (Package.name row)
                                 && negb (Package.package_id p =? Package.package_id row))
                 (packages db) = true).
  { apply existsb_exists. exists p. split; [assumption|]. rewrite Hsame. simpl.
    now apply negb_true_iff, Z.eqb_neq. }
  congruence.
Qed.

Lemma step_package_names (collate : string -> string) (db : Store) (op : Op) :
  package_names_unique collate db ->
  package_names_unique collate (step collate db op).
Proof.
  unfold package_names_unique. intros H. destruct op; cbn [step].
  - unfold create_client. handler_cases; exact H.
  - unfold update_client, client_update_row, set_required, bind, path_id.
    handler_cases; exact H.
  - unfold delete_client, bind, path_id, _get_client_or_404. handler_cases; exact H.
  - unfold create_shoot. handler_cases; exact H.
  - unfold update_shoot, shoot_update_row, set_required, bind, path_id.
    handler_cases; exact H.
  - unfold delete_shoot, bind, path_id, _get_shoot_or_404. handler_cases; exact H.
  - unfold create_package.
    destruct (package_name_taken _ _ db) eqn:Htaken; [exact H|]. simpl.
    pose proof (package_name_taken_false _ _ _ Htaken) as Hfree. simpl in Hfree.
    intros p q Hp Hq Hsame. apply in_app_or in Hp, Hq.
    destruct Hp as [Hp|[<-|[]]]; destruct Hq as [Hq|[<-|[]]]; simpl in *.
    + now apply H.
    + now apply Hfree.
    + symmetry. apply Hfree; [assumption|]. now rewrite same_text_sym.
    + reflexivity.
  - unfold update_package, path_id.
    destruct (1 <=? package_id); [|exact H]. cbn [bind].
    destruct (_get_package_or_404 db package_id) as [package|]; [|exact H]. cbn [bind].
    destruct (package_update_row payload package) as [row|] eqn:Hrow; [|exact H].
    cbn [bind].
    destruct (package_name_taken _ row db) eqn:Htaken; [exact H|]. cbn [committed packages].
    pose proof (package_name_taken_false _ _ _ Htaken) as Hfree.
    apply package_update_row_patched in Hrow. destruct Hrow as [Hid _].
    intros p' q' Hp' Hq' Hsame.
    apply in_map_iff in Hp', Hq'.
    destruct Hp' as (p & <- & Hp). destruct Hq' as (q & <- & Hq).
    destruct (Z.eqb_spec (Package.package_id p) (Package.package_id package)) as [Ep|Ep];
      destruct (Z.eqb_spec (Package.package_id q) (Package.package_id package)) as [Eq|Eq].
    + reflexivity.
    + symmetry. apply Hfree; [assumption|]. now rewrite same_text_sym.
    + now apply Hfree.
    + now apply H.
  - unfold delete_package, bind, path_id, _get_package_or_404.
    handler_cases; try exact H.
    intros p q Hp Hq. apply filter_In in Hp, Hq. apply H; tauto.
  - destruct (create_invoice payload db) as [[invoice db']|e] eqn:E; [|exact H].
    apply create_invoice_Ok_full in E. destruct E as (_ & -> & _). exact H.
  - destruct (update_invoice invoice_id payload db) as [[invoice' db']|e] eqn:E;
      [|exact H].
    apply update_invoice_Ok in E. destruct E as (invoice & _ & _ & _ & ->). exact H.
  - unfold delete_invoice, bind, path_id, _get_invoice_or_404. handler_cases; exact H.
  - unfold create_payment. destruct (create_payment_check payload db) as [[]|]; exact H.
  - unfold delete_payment, bind, path_id, _get_payment_or_404. handler_cases; exact H.
Qed.

(** ** What every request keeps *)

(** X1.  Whatever requests are made from the empty store, in each of the five
    tables no two rows have the same id, and every id is at least 1 and below
    the counter of its table: no handler stores a second row under an id in
    use, and no update changes the id of a row. *)
Theorem primary_keys_after_requests (collate : string -> string) (ops : list Op) :
  ids_sound (run collate empty_store ops).
Proof.
  apply (run_invariant collate ids_sound (step_ids collate)), empty_store_ids.
Qed.

(** X2.  Whatever requests are made from the empty store, every foreign key
    refers to a stored row: the client of each shoot and of each invoice, the
    shoot and the package of each invoice that has one, and the invoice of
    each payment.  Creations check the references they are given, updates
    check the ones they set, and deletions take the dependent rows with them
    or clear the reference. *)
Theorem references_after_requests (collate : string -> string) (ops : list Op) :
  refs_sound (run collate empty_store ops).
Proof.
  apply (run_invariant collate refs_sound (step_refs collate)), empty_store_refs.
Qed.

(** X3.  Whatever requests are made from the empty store, every stored payment
    has an amount greater than zero. *)
Theorem payments_positive_after_requests (collate : string -> string) (ops : list Op) :
  payments_positive (run collate empty_store ops).
Proof.
  apply (run_invariant collate payments_positive (step_payments_positive collate)).
  intros p [].
Qed.

(** X4.  Whatever requests are made from the empty store, no two clients with
    different ids have the same email under the comparison of the store:
    [create_client] and [update_client] refuse the email of another client. *)
Theorem emails_unique_after_requests (collate : string -> string) (ops : list Op) :
  emails_unique collate (run collate empty_store ops).
Proof.
  intros c d. apply (keys_email collate _ (run_keys collate ops)).
Qed.

(** X5.  Whatever requests are made from the empty store, no two packages with
    different ids have the same name under the comparison of the store: the
    commit of [create_package] and of [update_package] fails on a name that
    another package has. *)
Theorem package_names_unique_after_requests
    (collate : string -> string) (ops : list Op) :
  package_names_unique collate (run collate empty_store ops).
Proof.
  apply (run_invariant collate (package_names_unique collate)
           (step_package_names collate)).
  intros p q [].
Qed.

(** ** Creating, looking up, deleting *)

Lemma sample_stores_ids :
  ids_sound studio /\ ids_sound studio_partly_paid /\ ids_sound backdated
  /\ ids_sound two_clients /\ ids_sound shared_shoot.
Proof.
  assert (H : forall ops, ids_sound (run binary empty_store ops)).
  { intros ops.
    apply (run_invariant binary ids_sound (step_ids binary)), empty_store_ids. }
  assert (H' : forall db ops, ids_sound db -> ids_sound (run binary db ops)).
  { intros db ops. apply (run_invariant binary ids_sound (step_ids binary)). }
  split; [apply H|]. split; [apply H', H|]. split; [apply H', H|].
  split; [apply H|]. apply H', H.
Qed.

Lemma found_after_append {A} (id : A -> Z) (next : Z) (rows : list A) (new : A) :
  keyed id next rows -> id new = next ->
  first (fun x => id x =? id new) (rows ++ [new]) = Some new.
Proof.
  intros Hk Hid. apply first_app_fresh; [|apply Z.eqb_refl].
  rewrite Hid. now apply keyed_first_fresh.
Qed.

(** X6.  In a store with sound keys, each creation that succeeds returns a
    row under the next id of its table, and the get handler of the entity,
    asked for that id in the store the creation leaves, returns that row. *)
Theorem created_rows_are_found (collate : string -> string) (db : Store) :
  ids_sound db ->
  (forall payload c db',
      create_client collate payload db = Ok (c, db') ->
      Client.client_id c = next_client_id db
      /\ get_client (Client.client_id c) db' = Ok c)
  /\ (forall payload s db',
        create_shoot payload db = Ok (s, db') ->
        Shoot.shoot_id s = next_shoot_id db
        /\ get_shoot (Shoot.shoot_id s) db' = Ok s)
  /\ (forall payload p db',
        create_package collate payload db = Ok (p, db') ->
        Package.package_id p = next_package_id db
        /\ get_package (Package.package_id p) db' = Ok p)
  /\ (forall payload i db',
        create_invoice payload db = Ok (i, db') ->
        Invoice.invoice_id i = next_invoice_id db
        /\ get_invoice (Invoice.invoice_id i) db' = Ok i)
  /\ (forall now payload p db',
        create_payment now payload db = Ok (p, db') ->
        Payment.payment_id p = next_payment_id db
        /\ get_payment (Payment.payment_id p) db' = Ok p).
Proof.
  intros [Hc Hs Hp Hi Hy]. split; [|split; [|split; [|split]]].
  - intros payload c db'. unfold create_client.
    destruct (first _ (clients db)); [discriminate|].
    intros H. injection H as <- <-. split; [reflexivity|].
    unfold get_client, path_id, _get_client_or_404. cbn [Client.client_id].
    destruct Hc as (Hnd & Hr & Hn). destruct (Z.leb_spec 1 (next_client_id db)); [|lia].
    cbn [bind clients].
    now rewrite (found_after_append Client.client_id (next_client_id db) (clients db)
                   (Client.mk (next_client_id db) _ _ _)).
  - intros payload s db'. unfold create_shoot.
    destruct (first _ (clients db)); [|discriminate].
    intros H. injection H as <- <-. split; [reflexivity|].
    unfold get_shoot, path_id, _get_shoot_or_404. cbn [Shoot.shoot_id].
    destruct Hs as (Hnd & Hr & Hn). destruct (Z.leb_spec 1 (next_shoot_id db)); [|lia].
    cbn [bind shoots].
    now rewrite (found_after_append Shoot.shoot_id (next_shoot_id db) (shoots db)
                   (Shoot.mk (next_shoot_id db) _ _ _)).
  - intros payload p db'. unfold create_package.
    destruct (package_name_taken _ _ db); [discriminate|].
    intros H. injection H as <- <-. split; [reflexivity|].
    unfold get_package, path_id, _get_package_or_404. cbn [Package.package_id].
    destruct Hp as (Hnd & Hr & Hn). destruct (Z.leb_spec 1 (next_package_id db)); [|lia].
    cbn [bind packages].
    now rewrite (found_after_append Package.package_id (next_package_id db) (packages db)
                   (Package.mk (next_package_id db) _ _ _ _)).
  - intros payload i db' H. apply create_invoice_Ok_full in H.
    destruct H as (-> & -> & _). split; [reflexivity|].
    unfold get_invoice, path_id, _get_invoice_or_404. cbn [Invoice.invoice_id].
    destruct Hi as (Hnd & Hr & Hn). destruct (Z.leb_spec 1 (next_invoice_id db)); [|lia].
    cbn [bind invoices].
    now rewrite (found_after_append Invoice.invoice_id (next_invoice_id db) (invoices db)
                   (Invoice.mk (next_invoice_id db) _ _ _ _ _ _ _)).
  - intros now payload p db'. unfold create_payment.
    destruct (create_payment_check payload db) as [[]|]; [|discriminate].
    cbn [bind]. unfold create_payment_insert.
    intros H. injection H as <- <-. split; [reflexivity|].
    unfold get_payment, path_id, _get_payment_or_404. cbn [Payment.payment_id].
    destruct Hy as (Hnd & Hr & Hn). destruct (Z.leb_spec 1 (next_payment_id db)); [|lia].
    cbn [bind payments].
    now rewrite (found_after_append Payment.payment_id (next_payment_id db) (payments db)
                   (Payment.mk (next_payment_id db) _ _ _ _)).
Qed.

Lemma created_rows_are_found_witness :
  (Invoice.invoice_id (Invoice.mk 2 1 None None 2500 "draft" 20240301 None)
   = next_invoice_id studio
   /\ get_invoice 2
        (run binary studio
           [CreateInvoice (InvoiceCreate.mk 1 2500 20240301 "draft" None None None)])
      = Ok (Invoice.mk 2 1 None None 2500 "draft" 20240301 None))
  /\ (Payment.payment_id (Payment.mk 1 1 6000 (Some "card") 500) = next_payment_id studio
      /\ get_payment 1 studio_partly_paid = Ok (Payment.mk 1 1 6000 (Some "card") 500)).
Proof.
  destruct sample_stores_ids as (Hstudio & _).
  destruct (created_rows_are_found binary studio Hstudio) as (_ & _ & _ & Hi & Hp).
  split.
  - apply (Hi (InvoiceCreate.mk 1 2500 20240301 "draft" None None None)). reflexivity.
  - apply (Hp 500 (PaymentCreate.mk 1 6000 (Some "card") None)). reflexivity.
Defined.

Lemma first_filter_out {A} (id : A -> Z) (k : Z) (rows : list A) :
  first (fun x => id x =? k) (filter (fun x => negb (id x =? k)) rows) = None.
Proof.
  apply first_None. intros x Hx. apply filter_In in Hx. destruct Hx as [_ Hx].
  now apply negb_true_iff in Hx.
Qed.

(** X7.  After a deletion that succeeds, the get handler of the entity answers
    404 for the deleted id: no row is left under it. *)
Theorem deleted_rows_are_gone (id : Z) (db db' : Store) :
  (delete_client id db = Ok (tt, db') ->
   get_client id db' = Raise (HTTPException 404 "Client not found"))
  /\ (delete_shoot id db = Ok (tt, db') ->
      get_shoot id db' = Raise (HTTPException 404 "Shoot not found"))
  /\ (delete_package id db = Ok (tt, db') ->
      get_package id db' = Raise (HTTPException 404 "Package not found"))
  /\ (delete_invoice id db = Ok (tt, db') ->
      get_invoice id db' = Raise (HTTPException 404 "Invoice not found"))
  /\ (delete_payment id db = Ok (tt, db') ->
      get_payment id db' = Raise (HTTPException 404 "Payment not found")).
Proof.
  split; [|split; [|split; [|split]]].
  - unfold delete_client, get_client, path_id.
    destruct (1 <=? id); [|discriminate]. cbn [bind].
    destruct (_get_client_or_404 db id) as [client|] eqn:Hget; [|discriminate].
    apply get_client_Ok in Hget. destruct Hget as [_ Hid].
    cbn [bind]. intros H. injection H as <-.
    unfold _get_client_or_404. cbn [clients]. rewrite Hid.
    now rewrite (first_filter_out Client.client_id).
  - unfold delete_shoot, get_shoot, path_id.
    destruct (1 <=? id); [|discriminate]. cbn [bind].
    unfold _get_shoot_or_404 at 1.
    destruct (first _ (shoots db)) as [shoot|] eqn:Hget; [|discriminate].
    apply first_Some in Hget. destruct Hget as [_ Hid]. apply Z.eqb_eq in Hid.
    cbn [bind]. intros H. injection H as <-.
    unfold _get_shoot_or_404. cbn [shoots]. rewrite Hid.
    now rewrite (first_filter_out Shoot.shoot_id).
  - unfold delete_package, get_package, path_id.
    destruct (1 <=? id); [|discriminate]. cbn [bind].
    unfold _get_package_or_404 at 1.
    destruct (first _ (packages db)) as [package|] eqn:Hget; [|discriminate].
    apply first_Some in Hget. destruct Hget as [_ Hid]. apply Z.eqb_eq in Hid.
    cbn [bind]. intros H. injection H as <-.
    unfold _get_package_or_404. cbn [packages]. rewrite Hid.
    now rewrite (first_filter_out Package.package_id).
  - unfold delete_invoice, get_invoice, path_id.
    destruct (1 <=? id); [|discriminate]. cbn [bind].
    destruct (_get_invoice_or_404 db id) as [invoice|] eqn:Hget; [|discriminate].
    apply get_invoice_Ok in Hget. destruct Hget as [_ Hid].
    cbn [bind]. intros H. injection H as <-.
    unfold _get_invoice_or_404. cbn [invoices]. rewrite Hid.
    now rewrite (first_filter_out Invoice.invoice_id).
  - unfold delete_payment, get_payment, path_id.
    destruct (1 <=? id); [|discriminate]. cbn [bind].
    unfold _get_payment_or_404 at 1.
    destruct (first _ (payments db)) as [payment|] eqn:Hget; [|discriminate].
    apply first_Some in Hget. destruct Hget as [_ Hid]. apply Z.eqb_eq in Hid.
    cbn [bind]. intros H. injection H as <-.
    unfold _get_payment_or_404. cbn [payments]. rewrite Hid.
    now rewrite (first_filter_out Payment.payment_id).
Qed.

Lemma deleted_rows_are_gone_witness :
  get_invoice 1 (run binary studio_partly_paid [DeleteInvoice 1])
  = Raise (HTTPException 404 "Invoice not found")
  /\ get_payment 1 (run binary studio_partly_paid [DeletePayment 1])
     = Raise (HTTPException 404 "Payment not found").
Proof.
  split.
  - apply (proj1 (proj2 (proj2 (proj2
             (deleted_rows_are_gone 1 studio_partly_paid
                (run binary studio_partly_paid [DeleteInvoice 1])))))).
    reflexivity.
  - apply (proj2 (proj2 (proj2 (proj2
             (deleted_rows_are_gone 1 studio_partly_paid
                (run binary studio_partly_paid [DeletePayment 1])))))).
    reflexivity.
Defined.

Lemma filter_id_keeps {A} (f : A -> bool) (rows : list A) :
  (forall x, In x rows -> f x = true) -> filter f rows = rows.
Proof.
  induction rows as [|x rest IH]; simpl; intros H; [reflexivity|].
  rewrite (H x (or_introl eq_refl)). f_equal. apply IH. intros y Hy. apply H. now right.
Qed.

Lemma sum_amounts_remove (x : Payment.t) (ps : list Payment.t) :
  NoDup (map Payment.payment_id ps) -> In x ps ->
  sum_amounts (filter (fun p => negb (Payment.payment_id p =? Payment.payment_id x)) ps)
  = sum_amounts ps - Payment.amount x.
Proof.
  unfold sum_amounts.
  induction ps as [|p ps IH]; simpl; intros Hnd Hin; [contradiction|].
  inversion Hnd as [|? ? Hp Hps]; subst.
  destruct Hin as [->|Hin].
  - rewrite Z.eqb_refl. simpl.
    rewrite filter_id_keeps; [lia|].
    intros y Hy. apply negb_true_iff, Z.eqb_neq. intros E. apply Hp.
    rewrite <- E. now apply in_map.
  - destruct (Z.eqb_spec (Payment.payment_id p) (Payment.payment_id x)) as [E|_]; simpl.
    + elim Hp. rewrite E. now apply in_map.
    + rewrite (IH Hps Hin). lia.
Qed.

(** X8.  In a store with sound keys, deleting a stored payment succeeds and
    removes that payment and no other; the paid total of its invoice goes
    down by the amount of the payment, the payments of every other invoice
    and the other four tables are untouched. *)
Theorem delete_payment_lowers_paid_total (db : Store) (payment : Payment.t) :
  ids_sound db ->
  In payment (payments db) ->
  exists db',
    delete_payment (Payment.payment_id payment) db = Ok (tt, db')
    /\ (forall p, In p (payments db') <-> In p (payments db) /\ p <> payment)
    /\ sum_amounts (payments_of db' (Payment.invoice_id payment))
       = sum_amounts (payments_of db (Payment.invoice_id payment))
         - Payment.amount payment
    /\ (forall iid, iid <> Payment.invoice_id payment ->
          payments_of db' iid = payments_of db iid)
    /\ clients db' = clients db
    /\ shoots db' = shoots db
    /\ packages db' = packages db
    /\ invoices db' = invoices db.
Proof.
  intros Hids Hin. pose proof (ids_payments db Hids) as Hk.
  destruct Hk as (Hnd & Hr & Hn).
  unfold delete_payment, path_id.
  destruct (Z.leb_spec 1 (Payment.payment_id payment)) as [_|Hlt];
    [|specialize (Hr payment Hin); lia].
  cbn [bind]. unfold _get_payment_or_404.
  rewrite (keyed_first Payment.payment_id (next_payment_id db) (payments db) payment
             (ids_payments db Hids) Hin).
  cbn [bind]. eexists. split; [reflexivity|]. cbn [payments clients shoots packages invoices].
  split; [|split; [|split; [|repeat split]]].
  - intros p. rewrite filter_In, negb_true_iff, Z.eqb_neq. split.
    + intros [Hp Hne]. split; [assumption|]. congruence.
    + intros [Hp Hne]. split; [assumption|]. intros E. apply Hne.
      now apply (NoDup_map_eq Payment.payment_id (payments db)).
  - unfold payments_of. cbn [payments]. rewrite filter_swap.
    apply sum_amounts_remove.
    + now apply NoDup_map_filter.
    + apply filter_In. split; [assumption|]. apply Z.eqb_refl.
  - intros iid Hne. unfold payments_of. cbn [payments]. rewrite filter_swap.
    apply filter_id_keeps. intros p Hp. apply filter_In in Hp. destruct Hp as [Hp Hiid].
    apply Z.eqb_eq in Hiid. apply negb_true_iff, Z.eqb_neq. intros E.
    assert (p = payment) by now apply (NoDup_map_eq Payment.payment_id (payments db)).
    congruence.
Qed.

Lemma delete_payment_lowers_paid_total_witness :
  exists db',
    delete_payment 1 backdated = Ok (tt, db')
    /\ sum_amounts (payments_of db' 1) = sum_amounts (payments_of backdated 1) - 1000.
Proof.
  destruct sample_stores_ids as (_ & _ & Hb & _).
  destruct (delete_payment_lowers_paid_total backdated
              (Payment.mk 1 1 1000 None 20240110) Hb)
    as (db' & Hdel & _ & Hsum & _).
  - left. reflexivity.
  - exists db'. split; assumption.
Defined.

(** X9.  In a store with sound keys, deleting a payment that was just
    accepted succeeds and puts every table back as it was before the payment;
    only the counter of payment ids has moved on, so the id is not given
    again. *)
Theorem delete_undoes_create_payment
    (now : Z) (payload : PaymentCreate.t) (db db' : Store) (payment : Payment.t) :
  ids_sound db ->
  create_payment now payload db = Ok (payment, db') ->
  exists db'',
    delete_payment (Payment.payment_id payment) db' = Ok (tt, db'')
    /\ payments db'' = payments db
    /\ invoices db'' = invoices db
    /\ clients db'' = clients db
    /\ shoots db'' = shoots db
    /\ packages db'' = packages db
    /\ next_payment_id db'' = next_payment_id db + 1.
Proof.
  intros Hids. pose proof (ids_payments db Hids) as Hk.
  destruct Hk as (Hnd & Hr & Hn).
  unfold create_payment.
  destruct (create_payment_check payload db) as [[]|]; [|discriminate].
  cbn [bind]. unfold create_payment_insert. intros H. injection H as <- <-.
  unfold delete_payment, path_id. cbn [Payment.payment_id].
  destruct (Z.leb_spec 1 (next_payment_id db)); [|lia]. cbn [bind].
  unfold _get_payment_or_404. cbn [payments].
  rewrite (found_after_append Payment.payment_id (next_payment_id db) (payments db)
             (Payment.mk (next_payment_id db) _ _ _ _) (ids_payments db Hids) eq_refl).
  cbn [bind]. eexists. split; [reflexivity|].
  cbn [payments invoices clients shoots packages next_payment_id Payment.payment_id].
  split; [|repeat split].
  rewrite filter_app. cbn [filter Payment.payment_id]. rewrite Z.eqb_refl. cbn [negb].
  rewrite app_nil_r. apply filter_id_keeps. intros p Hp.
  specialize (Hr p Hp). apply negb_true_iff, Z.eqb_neq. lia.
Qed.

Lemma delete_undoes_create_payment_witness :
  exists db'',
    delete_payment 1 studio_partly_paid = Ok (tt, db'')
    /\ payments db'' = payments studio
    /\ invoices db'' = invoices studio
    /\ clients db'' = clients studio
    /\ shoots db'' = shoots studio
    /\ packages db'' = packages studio
    /\ next_payment_id db'' = next_payment_id studio + 1.
Proof.
  destruct sample_stores_ids as (Hstudio & _).
  apply (delete_undoes_create_payment 500 (PaymentCreate.mk 1 6000 (Some "card") None)
           studio studio_partly_paid (Payment.mk 1 1 6000 (Some "card") 500) Hstudio).
  reflexivity.
Defined.

Lemma filter_out_keyed {A} (id : A -> Z) (rows : list A) (x r : A) :
  NoDup (map id rows) -> In x rows ->
  (In r (filter (fun y => negb (id y =? id x)) rows) <-> In r rows /\ r <> x).
Proof.
  intros Hnd Hx. rewrite filter_In, negb_true_iff, Z.eqb_neq. split.
  - intros [Hr Hne]. split; [assumption|]. congruence.
  - intros [Hr Hne]. split; [assumption|]. intros E. apply Hne.
    now apply (NoDup_map_eq id rows).
Qed.

(** X10.  In a store with sound keys, deleting a stored invoice succeeds; it
    removes that invoice and no other, removes exactly the payments of that
    invoice, and leaves clients, shoots and packages as they are. *)
Theorem delete_invoice_cascades (db : Store) (invoice : Invoice.t) :
  ids_sound db ->
  In invoice (invoices db) ->
  exists db',
    delete_invoice (Invoice.invoice_id invoice) db = Ok (tt, db')
    /\ (forall i, In i (invoices db') <-> In i (invoices db) /\ i <> invoice)
    /\ (forall p, In p (payments db') <->
                  In p (payments db)
                  /\ Payment.invoice_id p <> Invoice.invoice_id invoice)
    /\ payments_of db' (Invoice.invoice_id invoice) = []
    /\ (forall iid, iid <> Invoice.invoice_id invoice ->
          payments_of db' iid = payments_of db iid)
    /\ clients db' = clients db
    /\ shoots db' = shoots db
    /\ packages db' = packages db.
Proof.
  intros Hids Hin. pose proof (ids_invoices db Hids) as Hk.
  destruct Hk as (Hnd & Hr & Hn).
  unfold delete_invoice, path_id.
  destruct (Z.leb_spec 1 (Invoice.invoice_id invoice)) as [_|Hlt];
    [|specialize (Hr invoice Hin); lia].
  cbn [bind]. unfold _get_invoice_or_404.
  rewrite (keyed_first Invoice.invoice_id (next_invoice_id db) (invoices db) invoice
             (ids_invoices db Hids) Hin).
  cbn [bind]. eexists. split; [reflexivity|].
  cbn [payments clients shoots packages invoices].
  split; [|split; [|split; [|split; [|repeat split]]]].
  - intros i. now apply filter_out_keyed.
  - intros p. now rewrite filter_In, negb_true_iff, Z.eqb_neq.
  - apply payments_of_none. cbn [payments]. intros p Hp. apply filter_In in Hp.
    destruct Hp as [_ Hp]. now apply negb_true_iff, Z.eqb_neq in Hp.
  - intros iid Hne. unfold payments_of. cbn [payments]. rewrite filter_swap.
    apply filter_id_keeps. intros p Hp. apply filter_In in Hp. destruct Hp as [_ Hp].
    apply Z.eqb_eq in Hp. apply negb_true_iff, Z.eqb_neq. congruence.
Qed.

Lemma delete_invoice_cascades_witness :
  exists db',
    delete_invoice 1 studio_partly_paid = Ok (tt, db')
    /\ payments_of db' 1 = []
    /\ clients db' = clients studio_partly_paid.
Proof.
  destruct sample_stores_ids as (_ & Hs & _).
  destruct (delete_invoice_cascades studio_partly_paid
              (Invoice.mk 1 1 None None 10000 "draft" 20240105 None) Hs)
    as (db' & Hdel & _ & _ & Hnone & _ & Hc & _).
  - left. reflexivity.
  - exists db'. repeat split; assumption.
Defined.

Lemma clear_package_cases (gone : Z -> bool) (i : Invoice.t) :
  same_but_package i (clear_package gone i)
  /\ ((exists pid, Invoice.package_id i = Some pid /\ gone pid = true) ->
      Invoice.package_id (clear_package gone i) = None)
  /\ (~ (exists pid, Invoice.package_id i = Some pid /\ gone pid = true) ->
      clear_package gone i = i).
Proof.
  unfold clear_package, same_but_package.
  destruct (Invoice.package_id i) as [pid|] eqn:E.
  - destruct (gone pid) eqn:G; simpl.
    + repeat split; try reflexivity. intros H. elim H. now exists pid.
    + repeat split; try reflexivity. intros (pid' & Hs & Hg). congruence.
  - repeat split; try reflexivity. intros (pid' & Hs & Hg). congruence.
Qed.

(** X11.  In a store with sound keys, deleting a stored shoot succeeds; it
    removes that shoot and no other, deletes no invoice, and rewrites the
    invoices only in that those referring to the shoot have their [shoot_id]
    cleared; clients, packages and payments are as they were. *)
Theorem delete_shoot_clears_references (db : Store) (shoot : Shoot.t) :
  ids_sound db ->
  In shoot (shoots db) ->
  exists db',
    delete_shoot (Shoot.shoot_id shoot) db = Ok (tt, db')
    /\ (forall s, In s (shoots db') <-> In s (shoots db) /\ s <> shoot)
    /\ List.length (invoices db') = List.length (invoices db)
    /\ (forall i, In i (invoices db) ->
          exists i',
            In i' (invoices db')
            /\ same_but_shoot i i'
            /\ (Invoice.shoot_id i = Some (Shoot.shoot_id shoot) ->
                Invoice.shoot_id i' = None)
            /\ (Invoice.shoot_id i <> Some (Shoot.shoot_id shoot) -> i' = i))
    /\ clients db' = clients db
    /\ packages db' = packages db
    /\ payments db' = payments db.
Proof.
  intros Hids Hin. pose proof (ids_shoots db Hids) as Hk.
  destruct Hk as (Hnd & Hr & Hn).
  unfold delete_shoot, path_id.
  destruct (Z.leb_spec 1 (Shoot.shoot_id shoot)) as [_|Hlt];
    [|specialize (Hr shoot Hin); lia].
  cbn [bind]. unfold _get_shoot_or_404.
  rewrite (keyed_first Shoot.shoot_id (next_shoot_id db) (shoots db) shoot
             (ids_shoots db Hids) Hin).
  cbn [bind]. eexists. split; [reflexivity|].
  cbn [payments clients shoots packages invoices].
  split; [|split; [|split; [|repeat split]]].
  - intros s. now apply filter_out_keyed.
  - apply List.length_map.
  - intros i Hi. exists (clear_shoot (fun sid => sid =? Shoot.shoot_id shoot) i).
    destruct (clear_shoot_cases (fun sid => sid =? Shoot.shoot_id shoot) i)
      as (Hsb & Hcleared & Hkept).
    split; [now apply in_map|]. split; [exact Hsb|]. split.
    + intros E. apply Hcleared. exists (Shoot.shoot_id shoot).
      split; [assumption|apply Z.eqb_refl].
    + intros E. apply Hkept. intros (sid & Hs & Hg). apply Z.eqb_eq in Hg. congruence.
Qed.

Lemma delete_shoot_clears_references_witness :
  exists db',
    delete_shoot 1 shared_shoot = Ok (tt, db')
    /\ List.length (invoices db') = List.length (invoices shared_shoot)
    /\ payments db' = payments shared_shoot.
Proof.
  destruct sample_stores_ids as (_ & _ & _ & _ & Hs).
  destruct (delete_shoot_clears_references shared_shoot
              (Shoot.mk 1 1 20240110 (Some "Harbour")) Hs)
    as (db' & Hdel & _ & Hlen & _ & _ & _ & Hp).
  - left. reflexivity.
  - exists db'. repeat split; assumption.
Defined.

(** X12.  In a store with sound keys, deleting a stored package succeeds even
    when invoices refer to it; it removes that package and no other, deletes
    no invoice, and rewrites the invoices only in that those referring to the
    package have their [package_id] cleared; clients, shoots and payments are
    as they were. *)
Theorem delete_package_clears_references (db : Store) (package : Package.t) :
  ids_sound db ->
  In package (packages db) ->
  exists db',
    delete_package (Package.package_id package) db = Ok (tt, db')
    /\ (forall p, In p (packages db') <-> In p (packages db) /\ p <> package)
    /\ List.length (invoices db') = List.length (invoices db)
    /\ (forall i, In i (invoices db) ->
          exists i',
            In i' (invoices db')
            /\ same_but_package i i'
            /\ (Invoice.package_id i = Some (Package.package_id package) ->
                Invoice.package_id i' = None)
            /\ (Invoice.package_id i <> Some (Package.package_id package) -> i' = i))
    /\ clients db' = clients db
    /\ shoots db' = shoots db
    /\ payments db' = payments db.
Proof.
  intros Hids Hin. pose proof (ids_packages db Hids) as Hk.
  destruct Hk as (Hnd & Hr & Hn).
  unfold delete_package, path_id.
  destruct (Z.leb_spec 1 (Package.package_id package)) as [_|Hlt];
    [|specialize (Hr package Hin); lia].
  cbn [bind]. unfold _get_package_or_404.
  rewrite (keyed_first Package.package_id (next_package_id db) (packages db) package
             (ids_packages db Hids) Hin).
  cbn [bind]. eexists. split; [reflexivity|].
  cbn [payments clients shoots packages invoices].
  split; [|split; [|split; [|repeat split]]].
  - intros p. now apply filter_out_keyed.
  - apply List.length_map.
  - intros i Hi. exists (clear_package (fun pid => pid =? Package.package_id package) i).
    destruct (clear_package_cases (fun pid => pid =? Package.package_id package) i)
      as (Hsb & Hcleared & Hkept).
    split; [now apply in_map|]. split; [exact Hsb|]. split.
    + intros E. apply Hcleared. exists (Package.package_id package).
      split; [assumption|apply Z.eqb_refl].
    + intros E. apply Hkept. intros (pid & Hs & Hg). apply Z.eqb_eq in Hg. congruence.
Qed.

Lemma run_ids (db : Store) (ops : list Op) :
  ids_sound db -> ids_sound (run binary db ops).
Proof. apply (run_invariant binary ids_sound (step_ids binary)). Qed.

Lemma delete_package_clears_references_witness :
  exists db',
    delete_package 1 packaged = Ok (tt, db')
    /\ packages db' = []
    /\ map Invoice.package_id (invoices db') = [None]
    /\ List.length (invoices db') = List.length (invoices packaged).
Proof.
  destruct (delete_package_clears_references packaged
              (Package.mk 1 "Wedding" None 150000 true))
    as (db' & Hdel & _ & Hlen & _).
  - apply run_ids. apply sample_stores_ids.
  - left. reflexivity.
  - exists db'. split; [exact Hdel|]. split; [|split; [|exact Hlen]].
    + vm_compute in Hdel. injection Hdel as <-. reflexivity.
    + vm_compute in Hdel. injection Hdel as <-. reflexivity.
Defined.

(** ** References checked by the handlers *)

Lemma first_id_None {A} (id : A -> Z) (rows : list A) (k : Z) :
  ~ (exists r, In r rows /\ id r = k) ->
  first (fun x => id x =? k) rows = None.
Proof.
  intros H. destruct (first _ rows) as [r|] eqn:E; [|reflexivity].
  elim H. now apply has_first in E.
Qed.

Lemma first_id_Some {A} (id : A -> Z) (rows : list A) (k : Z) :
  (exists r, In r rows /\ id r = k) ->
  exists r, first (fun x => id x =? k) rows = Some r.
Proof.
  intros (r & Hin & Hk). apply (first_exists _ rows r Hin). now apply Z.eqb_eq.
Qed.



(** X14.  [update_invoice] refuses, in this order and without writing: an id
    below 1 (validation), an id that names no invoice (404), a [shoot_id] set
    to an id that names no shoot (400 "Shoot does not exist"), a [package_id]
    set to an id that names no package (400 "Package does not exist").  A
    reference left out of the payload, or set to null, is not looked up. *)
Theorem update_invoice_checks_references
    (invoice_id : Z) (payload : InvoiceUpdate.t) (db : Store) :
  (invoice_id < 1 ->
   update_invoice invoice_id payload db = Raise RequestValidationError)
  /\ (1 <= invoice_id ->
      ~ (exists i, In i (invoices db) /\ Invoice.invoice_id i = invoice_id) ->
      update_invoice invoice_id payload db = Raise (HTTPException 404 "Invoice not found"))
  /\ (forall sid,
        1 <= invoice_id ->
        (exists i, In i (invoices db) /\ Invoice.invoice_id i = invoice_id) ->
        InvoiceUpdate.shoot_id payload = Present (Some sid) ->
        ~ (exists s, In s (shoots db) /\ Shoot.shoot_id s = sid) ->
        update_invoice invoice_id payload db
        = Raise (HTTPException 400 "Shoot does not exist"))
  /\ (forall pid,
        1 <= invoice_id ->
        (exists i, In i (invoices db) /\ Invoice.invoice_id i = invoice_id) ->
        (forall sid, InvoiceUpdate.shoot_id payload = Present (Some sid) ->
                     exists s, In s (shoots db) /\ Shoot.shoot_id s = sid) ->
        InvoiceUpdate.package_id payload = Present (Some pid) ->
        ~ (exists p, In p (packages db) /\ Package.package_id p = pid) ->
        update_invoice invoice_id payload db
        = Raise (HTTPException 400 "Package does not exist")).
Proof.
  unfold update_invoice, path_id, _get_invoice_or_404.
  split; [|split; [|split]].
  - intros Hlt. destruct (Z.leb_spec 1 invoice_id); [lia|reflexivity].
  - intros Hid Hno. destruct (Z.leb_spec 1 invoice_id); [|lia]. cbn [bind].
    now rewrite (first_id_None Invoice.invoice_id (invoices db) _ Hno).
  - intros sid Hid Hi Hsid Hno. destruct (Z.leb_spec 1 invoice_id); [|lia]. cbn [bind].
    destruct (first_id_Some Invoice.invoice_id (invoices db) _ Hi) as [i ->].
    cbn [bind]. rewrite Hsid.
    now rewrite (first_id_None Shoot.shoot_id (shoots db) _ Hno).
  - intros pid Hid Hi Hs Hpid Hno. destruct (Z.leb_spec 1 invoice_id); [|lia]. cbn [bind].
    destruct (first_id_Some Invoice.invoice_id (invoices db) _ Hi) as [i ->].
    cbn [bind]. rewrite Hpid.
    rewrite (first_id_None Package.package_id (packages db) _ Hno).
    destruct (InvoiceUpdate.shoot_id payload) as [|[sid|]]; try reflexivity.
    destruct (first_id_Some Shoot.shoot_id (shoots db) _ (Hs sid eq_refl)) as [s ->].
    reflexivity.
Qed.

Lemma update_invoice_checks_references_witness :
  update_invoice 0 (InvoiceUpdate.mk Absent Absent Absent Absent (Present (Some 7)) Absent)
                 studio
  = Raise RequestValidationError
  /\ update_invoice 5 (InvoiceUpdate.mk Absent Absent Absent Absent (Present (Some 7)) Absent)
                    studio
     = Raise (HTTPException 404 "Invoice not found")
  /\ update_invoice 1 (InvoiceUpdate.mk Absent Absent Absent Absent (Present (Some 7)) Absent)
                    studio
     = Raise (HTTPException 400 "Shoot does not exist")
  /\ update_invoice 1 (InvoiceUpdate.mk Absent Absent Absent Absent (Present None)
                                        (Present (Some 7))) studio
     = Raise (HTTPException 400 "Package does not exist").
Proof.
  assert (Hinv : exists i, In i (invoices studio) /\ Invoice.invoice_id i = 1).
  { exists (Invoice.mk 1 1 None None 10000 "draft" 20240105 None).
    split; [left|]; reflexivity. }
  split; [|split; [|split]].
  - apply (proj1 (update_invoice_checks_references 0 _ studio)). lia.
  - apply (proj1 (proj2 (update_invoice_checks_references 5 _ studio))); [lia|].
    simpl. intros (i & [<-|[]] & E). discriminate.
  - apply (proj1 (proj2 (proj2 (update_invoice_checks_references 1 _ studio))) 7);
      [lia|exact Hinv|reflexivity|].
    simpl. intros (s & [] & _).
  - apply (proj2 (proj2 (proj2 (update_invoice_checks_references 1 _ studio))) 7);
      [lia|exact Hinv| |reflexivity|].
    + simpl. discriminate.
    + simpl. intros (p & [] & _).
Defined.

(** What each update handler has done when it returns. *)
Lemma update_client_Ok (collate : string -> string) (client_id : Z)
    (payload : ClientUpdate.t) (db db' : Store) (client' : Client.t) :
  update_client collate client_id payload db = Ok (client', db') ->
  exists client,
    1 <= client_id
    /\ _get_client_or_404 db client_id = Ok client
    /\ (forall email, ClientUpdate.email payload = Present email ->
          first (fun c => sql_eq collate (Client.email c) email
                          && negb (Client.client_id c =? client_id)) (clients db)
          = None)
    /\ client_update_row payload client = Ok client'
    /\ db' = mkStore (map (fun c => if Client.client_id c =? Client.client_id client
                                    then client' else c) (clients db))
               (shoots db) (packages db) (invoices db) (payments db)
               (next_client_id db) (next_shoot_id db) (next_package_id db)
               (next_invoice_id db) (next_payment_id db).
Proof.
  unfold update_client, path_id.
  destruct (Z.leb_spec 1 client_id) as [Hid|]; [|discriminate]. cbn [bind].
  destruct (_get_client_or_404 db client_id) as [client|] eqn:Hget; [|discriminate].
  cbn [bind].
  destruct (ClientUpdate.email payload) as [|email] eqn:Hemail.
  - cbn [bind].
    destruct (client_update_row payload client) as [row|] eqn:Hrow; [|discriminate].
    cbn [bind]. intros H. injection H as <- <-. exists client.
    repeat split; try assumption. intros email E. discriminate.
  - destruct (first _ (clients db)) as [clash|] eqn:Hclash; [discriminate|].
    cbn [bind].
    destruct (client_update_row payload client) as [row|] eqn:Hrow; [|discriminate].
    cbn [bind]. intros H. injection H as <- <-. exists client.
    repeat split; try assumption. intros email' E. injection E as <-. exact Hclash.
Qed.

Lemma update_shoot_Ok (shoot_id : Z) (payload : ShootUpdate.t) (db db' : Store)
    (shoot' : Shoot.t) :
  update_shoot shoot_id payload db = Ok (shoot', db') ->
  exists shoot,
    1 <= shoot_id
    /\ _get_shoot_or_404 db shoot_id = Ok shoot
    /\ shoot_update_row payload shoot = Ok shoot'
    /\ db' = mkStore (clients db)
               (map (fun s => if Shoot.shoot_id s =? Shoot.shoot_id shoot
                              then shoot' else s) (shoots db))
               (packages db) (invoices db) (payments db)
               (next_client_id db) (next_shoot_id db) (next_package_id db)
               (next_invoice_id db) (next_payment_id db).
Proof.
  unfold update_shoot, path_id.
  destruct (Z.leb_spec 1 shoot_id) as [Hid|]; [|discriminate]. cbn [bind].
  destruct (_get_shoot_or_404 db shoot_id) as [shoot|] eqn:Hget; [|discriminate].
  cbn [bind].
  destruct (shoot_update_row payload shoot) as [row|] eqn:Hrow; [|discriminate].
  cbn [bind]. intros H. injection H as <- <-. exists shoot. auto.
Qed.

Lemma update_package_Ok (collate : string -> string) (package_id : Z)
    (payload : PackageUpdate.t) (db db' : Store) (package' : Package.t) :
  update_package collate package_id payload db = Ok (package', db') ->
  exists package,
    1 <= package_id
    /\ _get_package_or_404 db package_id = Ok package
    /\ package_update_row payload package = Ok package'
    /\ package_name_taken collate package' db = false
    /\ db' = mkStore (clients db) (shoots db)
               (map (fun p => if Package.package_id p =? Package.package_id package
                              then package' else p) (packages db))
               (invoices db) (payments db)
               (next_client_id db) (next_shoot_id db) (next_package_id db)
               (next_invoice_id db) (next_payment_id db).
Proof.
  unfold update_package, path_id.
  destruct (Z.leb_spec 1 package_id) as [Hid|]; [|discriminate]. cbn [bind].
  destruct (_get_package_or_404 db package_id) as [package|] eqn:Hget; [|discriminate].
  cbn [bind].
  destruct (package_update_row payload package) as [row|] eqn:Hrow; [|discriminate].
  cbn [bind].
  destruct (package_name_taken collate row db) eqn:Htaken; [discriminate|].
  intros H. injection H as <- <-. exists package. auto.
Qed.

(** X15.  No update handler writes null into a column declared
    [nullable=False]: a payload that sets the name or email of a client, the
    date of a shoot, the name, price or active flag of a package, or the
    amount, status or issued date of an invoice to null never succeeds,
    whatever the store and the other fields are. *)
Theorem null_in_required_column_is_refused
    (collate : string -> string) (id : Z) (db : Store) :
  (forall payload,
      ClientUpdate.name payload = Present None
      \/ ClientUpdate.email payload = Present None ->
      exists e, update_client collate id payload db = Raise e)
  /\ (forall payload,
        ShootUpdate.shoot_date payload = Present None ->
        exists e, update_shoot id payload db = Raise e)
  /\ (forall payload,
        PackageUpdate.name payload = Present None
        \/ PackageUpdate.price payload = Present None
        \/ PackageUpdate.is_active payload = Present None ->
        exists e, update_package collate id payload db = Raise e)
  /\ (forall payload,
        InvoiceUpdate.amount payload = Present None
        \/ InvoiceUpdate.status payload = Present None
        \/ InvoiceUpdate.issued_date payload = Present None ->
        exists e, update_invoice id payload db = Raise e).
Proof.
  split; [|split; [|split]].
  - intros payload H.
    destruct (update_client collate id payload db) as [[new db']|e] eqn:E;
      [|now exists e].
    apply update_client_Ok in E. destruct E as (old & _ & _ & _ & Hrow & _).
    unfold client_update_row in Hrow.
    destruct H as [H|H]; rewrite H in Hrow;
      try discriminate;
      destruct (ClientUpdate.name payload) as [|[n|]]; discriminate.
  - intros payload H.
    destruct (update_shoot id payload db) as [[new db']|e] eqn:E; [|now exists e].
    apply update_shoot_Ok in E. destruct E as (old & _ & _ & Hrow & _).
    unfold shoot_update_row in Hrow. rewrite H in Hrow. discriminate.
  - intros payload H.
    destruct (update_package collate id payload db) as [[new db']|e] eqn:E;
      [|now exists e].
    apply update_package_Ok in E. destruct E as (old & _ & _ & Hrow & _).
    unfold package_update_row in Hrow.
    destruct H as [H|[H|H]]; rewrite H in Hrow; try discriminate;
      destruct (PackageUpdate.name payload) as [|[n|]]; try discriminate;
      destruct (PackageUpdate.price payload) as [|[pr|]]; discriminate.
  - intros payload H.
    destruct (update_invoice id payload db) as [[new db']|e] eqn:E; [|now exists e].
    apply update_invoice_Ok in E. destruct E as (old & _ & _ & Hrow & _).
    unfold invoice_update_row in Hrow.
    destruct H as [H|[H|H]]; rewrite H in Hrow; try discriminate;
      destruct (InvoiceUpdate.amount payload) as [|[a|]]; try discriminate;
      destruct (InvoiceUpdate.status payload) as [|[st|]]; discriminate.
Qed.

Lemma null_in_required_column_is_refused_witness :
  (exists e,
     update_client binary 2 (ClientUpdate.mk (Present None) Absent Absent) two_clients
     = Raise e)
  /\ (exists e,
        update_invoice 1
          (InvoiceUpdate.mk (Present (Some 500)) (Present None) Absent Absent Absent Absent)
          studio
        = Raise e).
Proof.
  destruct (null_in_required_column_is_refused binary 2 two_clients) as (Hc & _).
  destruct (null_in_required_column_is_refused binary 1 studio) as (_ & _ & _ & Hi).
  split.
  - apply Hc. left. reflexivity.
  - apply Hi. right. left. reflexivity.
Defined.

(** ** Pages *)




Lemma page_params_inv (skip limit : option Z) (s l : Z) :
  page_params skip limit = Ok (s, l) ->
  s = coalesce skip 0 /\ l = coalesce limit 50 /\ 0 <= s /\ 1 <= l <= 200.
Proof.
  unfold page_params.
  destruct (Z.leb_spec 0 (coalesce skip 0)); [|discriminate].
  destruct (Z.leb_spec 1 (coalesce limit 50)); [|discriminate].
  destruct (Z.leb_spec (coalesce limit 50) 200); [|discriminate].
  simpl. intros E. injection E as <- <-. lia.
Qed.

Lemma order_by_In {A} (leb : A -> A -> bool) (rows : list A) (x : A) :
  In x (order_by leb rows) <-> In x rows.
Proof.
  split; apply Permutation_in;
    [apply order_by_Permutation|apply Permutation_sym, order_by_Permutation].
Qed.





Lemma firstn_plus {A} (n m : nat) (l : list A) :
  firstn (n + m) l = firstn n l ++ firstn m (skipn n l).
Proof.
  revert l. induction n as [|n IH]; intros l; simpl; [reflexivity|].
  destruct l as [|x l]; simpl.
  - now destruct m.
  - now rewrite IH.
Qed.

Lemma window_next {A} (skip limit limit' : Z) (rows : list A) :
  0 <= skip -> 0 <= limit -> 0 <= limit' ->
  window skip limit rows ++ window (skip + limit) limit' rows
  = window skip (limit + limit') rows.
Proof.
  intros Hs Hl Hl'. unfold window.
  rewrite (Z2Nat.inj_add limit limit') by assumption.
  rewrite firstn_plus, skipn_skipn.
  rewrite (Z2Nat.inj_add skip limit) by assumption.
  now rewrite Nat.add_comm.
Qed.

(** The same for what a list handler computes. *)
Lemma listed_next {A} (rows : list A) (s l l' : Z) (a b : list A) :
  ('(s0, l0) <- page_params (Some s) (Some l) ;; Ok (window s0 l0 rows)) = Ok a ->
  ('(s0, l0) <- page_params (Some (s + l)) (Some l') ;; Ok (window s0 l0 rows)) = Ok b ->
  l + l' <= 200 ->
  ('(s0, l0) <- page_params (Some s) (Some (l + l')) ;; Ok (window s0 l0 rows))
  = Ok (a ++ b).
Proof.
  intros Ha Hb Hsum.
  destruct (page_params (Some s) (Some l)) as [[s1 l1]|] eqn:E1; [|discriminate].
  destruct (page_params (Some (s + l)) (Some l')) as [[s2 l2]|] eqn:E2; [|discriminate].
  apply page_params_inv in E1, E2. simpl in E1, E2.
  destruct E1 as (-> & -> & Hs1 & Hl1). destruct E2 as (-> & -> & Hs2 & Hl2).
  cbn [bind] in Ha, Hb. injection Ha as <-. injection Hb as <-.
  rewrite (page_params_Ok (Some s) (Some (l + l'))) by (simpl; lia).
  cbn [bind coalesce]. now rewrite window_next by lia.
Qed.

(** X17.  Successive pages join up: for each list handler, the page at
    [skip], [limit] followed by the page at [skip + limit], [limit'] is the
    page at [skip], [limit + limit'], as long as that limit is within 200.
    Nothing is listed twice and nothing is left out between two pages. *)
Theorem successive_pages_join (s l l' : Z) (db : Store) :
  l + l' <= 200 ->
  (forall a b,
      list_clients (Some s) (Some l) db = Ok a ->
      list_clients (Some (s + l)) (Some l') db = Ok b ->
      list_clients (Some s) (Some (l + l')) db = Ok (a ++ b))
  /\ (forall a b,
        list_shoots (Some s) (Some l) db = Ok a ->
        list_shoots (Some (s + l)) (Some l') db = Ok b ->
        list_shoots (Some s) (Some (l + l')) db = Ok (a ++ b))
  /\ (forall a b,
        list_packages (Some s) (Some l) db = Ok a ->
        list_packages (Some (s + l)) (Some l') db = Ok b ->
        list_packages (Some s) (Some (l + l')) db = Ok (a ++ b))
  /\ (forall a b,
        list_payments (Some s) (Some l) db = Ok a ->
        list_payments (Some (s + l)) (Some l') db = Ok b ->
        list_payments (Some s) (Some (l + l')) db = Ok (a ++ b))
  /\ (forall date_from date_to a b,
        list_invoices (Some s) (Some l) date_from date_to db = Ok a ->
        list_invoices (Some (s + l)) (Some l') date_from date_to db = Ok b ->
        list_invoices (Some s) (Some (l + l')) date_from date_to db = Ok (a ++ b)).
Proof.
  intros Hsum. split; [|split; [|split; [|split]]].
  - intros a b Ha Hb. now apply (listed_next _ s l l' a b Ha Hb).
  - intros a b Ha Hb. now apply (listed_next _ s l l' a b Ha Hb).
  - intros a b Ha Hb. now apply (listed_next _ s l l' a b Ha Hb).
  - intros a b Ha Hb. now apply (listed_next _ s l l' a b Ha Hb).
  - intros date_from date_to a b Ha Hb. now apply (listed_next _ s l l' a b Ha Hb).
Qed.

Lemma successive_pages_join_witness :
  list_payments (Some 0) (Some 2) backdated
  = Ok ([Payment.mk 2 1 1000 None 20240103] ++ [Payment.mk 1 1 1000 None 20240110]).
Proof.
  apply (proj1 (proj2 (proj2 (proj2 (successive_pages_join 0 1 1 backdated
                                        ltac:(lia)))))).
  - reflexivity.
  - reflexivity.
Defined.

(** ** Updates applied twice, and updates that say nothing *)

Lemma set_required_again {A} (f : Field A) (old v : A) :
  set_required f old = Ok v -> set_required f v = Ok v.
Proof. destruct f as [|[w|]]; simpl; intros H; try discriminate; congruence. Qed.

Lemma set_nullable_again {A} (f : Field A) (old : option A) :
  set_nullable f (set_nullable f old) = set_nullable f old.
Proof. now destruct f. Qed.

Lemma first_replaced {A} (id : A -> Z) (k : Z) (old new : A) (rows : list A) :
  first (fun x => id x =? k) rows = Some old ->
  id new = id old ->
  first (fun x => id x =? k) (map (fun x => if id x =? id old then new else x) rows)
  = Some new.
Proof.
  intros Hfirst Hid.
  assert (Hk : id old = k) by (apply first_Some in Hfirst; now apply Z.eqb_eq).
  revert Hfirst. unfold first.
  induction rows as [|y rest IH]; simpl; [discriminate|].
  destruct (Z.eqb_spec (id y) k) as [E|E].
  - intros H. injection H as ->. rewrite Z.eqb_refl. simpl.
    rewrite Hid, Hk. now rewrite Z.eqb_refl.
  - intros H. destruct (Z.eqb_spec (id y) (id old)) as [E'|_]; [congruence|].
    simpl. destruct (Z.eqb_spec (id y) k); [contradiction|]. now apply IH.
Qed.

Lemma replaced_again {A} (id : A -> Z) (old new : A) (rows : list A) :
  id new = id old ->
  map (fun x => if id x =? id new then new else x)
      (map (fun x => if id x =? id old then new else x) rows)
  = map (fun x => if id x =? id old then new else x) rows.
Proof.
  intros Hid. rewrite map_map. apply map_ext. intros x. rewrite Hid.
  destruct (Z.eqb_spec (id x) (id old)) as [E|E].
  - now rewrite Hid, Z.eqb_refl.
  - now destruct (Z.eqb_spec (id x) (id old)).
Qed.

Lemma client_update_row_again (payload : ClientUpdate.t) (old new : Client.t) :
  client_update_row payload old = Ok new -> client_update_row payload new = Ok new.
Proof.
  unfold client_update_row.
  destruct (set_required (ClientUpdate.name payload) _) as [n|] eqn:E1; [|discriminate].
  destruct (set_required (ClientUpdate.email payload) _) as [e|] eqn:E2; [|discriminate].
  simpl. intros H. injection H as <-. simpl.
  rewrite (set_required_again _ _ _ E1), (set_required_again _ _ _ E2). simpl.
  now rewrite set_nullable_again.
Qed.

Lemma shoot_update_row_again (payload : ShootUpdate.t) (old new : Shoot.t) :
  shoot_update_row payload old = Ok new -> shoot_update_row payload new = Ok new.
Proof.
  unfold shoot_update_row.
  destruct (set_required (ShootUpdate.shoot_date payload) _) as [d|] eqn:E1; [|discriminate].
  simpl. intros H. injection H as <-. simpl.
  rewrite (set_required_again _ _ _ E1). simpl. now rewrite set_nullable_again.
Qed.

Lemma package_update_row_again (payload : PackageUpdate.t) (old new : Package.t) :
  package_update_row payload old = Ok new -> package_update_row payload new = Ok new.
Proof.
  unfold package_update_row.
  destruct (set_required (PackageUpdate.name payload) _) as [n|] eqn:E1; [|discriminate].
  destruct (set_required (PackageUpdate.price payload) _) as [p|] eqn:E2; [|discriminate].
  destruct (set_required (PackageUpdate.is_active payload) _) as [a|] eqn:E3;
    [|discriminate].
  simpl. intros H. injection H as <-. simpl.
  rewrite (set_required_again _ _ _ E1), (set_required_again _ _ _ E2),
    (set_required_again _ _ _ E3). simpl.
  now rewrite set_nullable_again.
Qed.

Lemma invoice_update_row_again (payload : InvoiceUpdate.t) (old new : Invoice.t) :
  invoice_update_row payload old = Ok new -> invoice_update_row payload new = Ok new.
Proof.
  unfold invoice_update_row.
  destruct (set_required (InvoiceUpdate.amount payload) _) as [a|] eqn:E1; [|discriminate].
  destruct (set_required (InvoiceUpdate.status payload) _) as [s|] eqn:E2; [|discriminate].
  destruct (set_required (InvoiceUpdate.issued_date payload) _) as [d|] eqn:E3;
    [|discriminate].
  simpl. intros H. injection H as <-. simpl.
  rewrite (set_required_again _ _ _ E1), (set_required_again _ _ _ E2),
    (set_required_again _ _ _ E3). simpl.
  now rewrite !set_nullable_again.
Qed.

Lemma update_invoice_again (invoice_id : Z) (payload : InvoiceUpdate.t) (db db' : Store)
    (new : Invoice.t) :
  update_invoice invoice_id payload db = Ok (new, db') ->
  update_invoice invoice_id payload db' = Ok (new, db').
Proof.
  intros H. pose proof H as H0. apply update_invoice_Ok in H.
  destruct H as (old & Hid & Hget & Hrow & ->).
  destruct (invoice_update_row_Ok _ _ _ Hrow) as [Hnew _].
  revert H0. unfold update_invoice, path_id.
  destruct (Z.leb_spec 1 invoice_id); [|lia]. cbn [bind]. rewrite Hget. cbn [bind].
  unfold _get_invoice_or_404 in *. cbn [invoices shoots packages].
  destruct (first _ (invoices db)) as [found|] eqn:Hfirst; [|discriminate].
  injection Hget as ->.
  rewrite (first_replaced Invoice.invoice_id invoice_id old new (invoices db) Hfirst Hnew).
  cbn [bind].
  destruct (match InvoiceUpdate.shoot_id payload with
            | Present (Some sid) => _ | _ => Ok tt end) as [[]|]; [|discriminate].
  cbn [bind].
  destruct (match InvoiceUpdate.package_id payload with
            | Present (Some pid) => _ | _ => Ok tt end) as [[]|]; [|discriminate].
  cbn [bind]. rewrite Hrow, (invoice_update_row_again _ _ _ Hrow). cbn [bind].
  intros _. cbn [clients payments next_client_id next_shoot_id next_package_id
                 next_invoice_id next_payment_id].
  now rewrite (replaced_again Invoice.invoice_id old new (invoices db) Hnew).
Qed.

Lemma update_shoot_again (shoot_id : Z) (payload : ShootUpdate.t) (db db' : Store)
    (new : Shoot.t) :
  update_shoot shoot_id payload db = Ok (new, db') ->
  update_shoot shoot_id payload db' = Ok (new, db').
Proof.
  intros H. apply update_shoot_Ok in H.
  destruct H as (old & Hid & Hget & Hrow & ->).
  assert (Hnew : Shoot.shoot_id new = Shoot.shoot_id old)
    by (apply shoot_update_row_patched in Hrow; apply Hrow).
  unfold update_shoot, path_id.
  destruct (Z.leb_spec 1 shoot_id); [|lia]. cbn [bind].
  unfold _get_shoot_or_404 in *. cbn [shoots].
  destruct (first _ (shoots db)) as [found|] eqn:Hfirst; [|discriminate].
  injection Hget as ->.
  rewrite (first_replaced Shoot.shoot_id shoot_id old new (shoots db) Hfirst Hnew).
  cbn [bind]. rewrite (shoot_update_row_again _ _ _ Hrow). cbn [bind].
  cbn [clients packages invoices payments next_client_id next_shoot_id next_package_id
       next_invoice_id next_payment_id].
  now rewrite (replaced_again Shoot.shoot_id old new (shoots db) Hnew).
Qed.

Lemma update_client_again (collate : string -> string) (client_id : Z)
    (payload : ClientUpdate.t) (db db' : Store) (new : Client.t) :
  update_client collate client_id payload db = Ok (new, db') ->
  update_client collate client_id payload db' = Ok (new, db').
Proof.
  intros H. apply update_client_Ok in H.
  destruct H as (old & Hid & Hget & Hclash & Hrow & ->).
  destruct (client_update_row_Ok _ _ _ Hrow) as [Hnew _].
  destruct (get_client_Ok _ _ _ Hget) as [_ Hold].
  unfold update_client, path_id.
  destruct (Z.leb_spec 1 client_id); [|lia]. cbn [bind].
  unfold _get_client_or_404 in *. cbn [clients].
  destruct (first _ (clients db)) as [found|] eqn:Hfirst; [|discriminate].
  injection Hget as ->.
  rewrite (first_replaced Client.client_id client_id old new (clients db) Hfirst Hnew).
  cbn [bind].
  assert (Hfree : match ClientUpdate.email payload with
                  | Absent => Ok tt
                  | Present email =>
                      match first (fun c => sql_eq collate (Client.email c) email
                                            && negb (Client.client_id c =? client_id))
                                  (map (fun c => if Client.client_id c =? Client.client_id old
                                                 then new else c) (clients db)) with
                      | Some clash =>
                          Raise (HTTPException 409
                                   "Oops another client already uses this email")
                      | None => Ok tt
                      end
                  end = Ok tt).
  { destruct (ClientUpdate.email payload) as [|email]; [reflexivity|].
    specialize (Hclash email eq_refl). rewrite first_None in Hclash.
    assert (Hnone : first (fun c => sql_eq collate (Client.email c) email
                                    && negb (Client.client_id c =? client_id))
                          (map (fun c => if Client.client_id c =? Client.client_id old
                                         then new else c) (clients db)) = None).
    { apply first_None. intros c' Hc'. apply in_map_iff in Hc'.
      destruct Hc' as (c & <- & Hc).
      destruct (Z.eqb_spec (Client.client_id c) (Client.client_id old)) as [E|E].
      - rewrite Hnew, Hold, Z.eqb_refl. apply andb_false_r.
      - now apply Hclash. }
    now rewrite Hnone. }
  rewrite Hfree. cbn [bind]. rewrite (client_update_row_again _ _ _ Hrow). cbn [bind].
  cbn [shoots packages invoices payments next_client_id next_shoot_id next_package_id
       next_invoice_id next_payment_id].
  now rewrite (replaced_again Client.client_id old new (clients db) Hnew).
Qed.

Lemma update_package_again (collate : string -> string) (package_id : Z)
    (payload : PackageUpdate.t) (db db' : Store) (new : Package.t) :
  update_package collate package_id payload db = Ok (new, db') ->
  update_package collate package_id payload db' = Ok (new, db').
Proof.
  intros H. apply update_package_Ok in H.
  destruct H as (old & Hid & Hget & Hrow & Htaken & ->).
  assert (Hnew : Package.package_id new = Package.package_id old)
    by (apply package_update_row_patched in Hrow; apply Hrow).
  unfold update_package, path_id.
  destruct (Z.leb_spec 1 package_id); [|lia]. cbn [bind].
  unfold _get_package_or_404 in *. cbn [packages].
  destruct (first _ (packages db)) as [found|] eqn:Hfirst; [|discriminate].
  injection Hget as ->.
  rewrite (first_replaced Package.package_id package_id old new (packages db) Hfirst Hnew).
  cbn [bind]. rewrite (package_update_row_again _ _ _ Hrow). cbn [bind].
  assert (Hfree : package_name_taken collate new
                    (mkStore (clients db) (shoots db)
                       (map (fun p => if Package.package_id p =? Package.package_id old
                                      then new else p) (packages db))
                       (invoices db) (payments db)
                       (next_client_id db) (next_shoot_id db) (next_package_id db)
                       (next_invoice_id db) (next_payment_id db)) = false).
  { unfold package_name_taken in *. cbn [packages].
    destruct (existsb _ (map _ (packages db))) eqn:E; [|reflexivity].
    apply existsb_exists in E. destruct E as (p' & Hp' & Hpred).
    apply in_map_iff in Hp'. destruct Hp' as (p & <- & Hp).
    destruct (Z.eqb_spec (Package.package_id p) (Package.package_id old)) as [E|E].
    - rewrite Z.eqb_refl, andb_false_r in Hpred. discriminate.
    - assert (Ht : existsb (fun p0 => same_text collate (Package.name p0) (Package.name new)
                                      && negb (Package.package_id p0
                                               =? Package.package_id new))
                     (packages db) = true)
        by (apply existsb_exists; now exists p).
      congruence. }
  rewrite Hfree.
  cbn [clients shoots invoices payments next_client_id next_shoot_id next_package_id
       next_invoice_id next_payment_id packages].
  now rewrite (replaced_again Package.package_id old new (packages db) Hnew).
Qed.

(** X18.  Every update handler is idempotent: the same update sent again to
    the store the first one left succeeds, returns the same row and leaves
    that store as it is. *)
Theorem updates_are_idempotent
    (collate : string -> string) (id : Z) (db db' : Store) :
  (forall payload new,
      update_client collate id payload db = Ok (new, db') ->
      update_client collate id payload db' = Ok (new, db'))
  /\ (forall payload new,
        update_shoot id payload db = Ok (new, db') ->
        update_shoot id payload db' = Ok (new, db'))
  /\ (forall payload new,
        update_package collate id payload db = Ok (new, db') ->
        update_package collate id payload db' = Ok (new, db'))
  /\ (forall payload new,
        update_invoice id payload db = Ok (new, db') ->
        update_invoice id payload db' = Ok (new, db')).
Proof.
  split; [|split; [|split]]; intros payload new.
  - apply update_client_again.
  - apply update_shoot_again.
  - apply update_package_again.
  - apply update_invoice_again.
Qed.

Lemma updates_are_idempotent_witness :
  let payload :=
    InvoiceUpdate.mk (Present (Some 12000)) (Present (Some "sent")) Absent
                     (Present (Some 20240205)) Absent Absent in
  let new := Invoice.mk 1 1 None None 12000 "sent" 20240105 (Some 20240205) in
  let db' := run binary studio_partly_paid [UpdateInvoice 1 payload] in
  update_invoice 1 payload db' = Ok (new, db').
Proof.
  apply (proj2 (proj2 (proj2
           (updates_are_idempotent binary 1 studio_partly_paid
              (run binary studio_partly_paid
                 [UpdateInvoice 1
                    (InvoiceUpdate.mk (Present (Some 12000)) (Present (Some "sent")) Absent
                                      (Present (Some 20240205)) Absent Absent)]))))).
  reflexivity.
Defined.

Lemma replace_self {A} (id : A -> Z) (old : A) (rows : list A) :
  NoDup (map id rows) -> In old rows ->
  map (fun x => if id x =? id old then old else x) rows = rows.
Proof.
  intros Hnd Hin. rewrite <- (map_id rows) at 2. apply map_ext_in. intros x Hx.
  destruct (Z.eqb_spec (id x) (id old)) as [E|_]; [|reflexivity].
  symmetry. now apply (NoDup_map_eq id rows).
Qed.

Lemma store_eta (db : Store) :
  mkStore (clients db) (shoots db) (packages db) (invoices db) (payments db)
          (next_client_id db) (next_shoot_id db) (next_package_id db)
          (next_invoice_id db) (next_payment_id db) = db.
Proof. now destruct db. Qed.

(** X19.  An update whose payload sets no field changes nothing: in a store
    with sound keys (and, for packages, distinct names) each update handler,
    given the id of a stored row and an empty payload, returns that row and
    leaves the store exactly as it was. *)
Theorem empty_update_changes_nothing (collate : string -> string) (db : Store) :
  ids_sound db ->
  package_names_unique collate db ->
  (forall c, In c (clients db) ->
     update_client collate (Client.client_id c) (ClientUpdate.mk Absent Absent Absent) db
     = Ok (c, db))
  /\ (forall s, In s (shoots db) ->
        update_shoot (Shoot.shoot_id s) (ShootUpdate.mk Absent Absent) db = Ok (s, db))
  /\ (forall p, In p (packages db) ->
        update_package collate (Package.package_id p)
                       (PackageUpdate.mk Absent Absent Absent Absent) db
        = Ok (p, db))
  /\ (forall i, In i (invoices db) ->
        update_invoice (Invoice.invoice_id i)
                       (InvoiceUpdate.mk Absent Absent Absent Absent Absent Absent) db
        = Ok (i, db)).
Proof.
  intros [Hc Hs Hp Hi Hy] Hnames. split; [|split; [|split]].
  - intros c Hin. pose proof Hc as (Hnd & Hr & Hn). specialize (Hr c Hin).
    unfold update_client, path_id.
    destruct (Z.leb_spec 1 (Client.client_id c)); [|lia]. cbn [bind].
    unfold _get_client_or_404.
    rewrite (keyed_first Client.client_id _ _ c Hc Hin). cbn [bind].
    unfold client_update_row. cbn [ClientUpdate.name ClientUpdate.email ClientUpdate.phone
                                   set_required set_nullable bind].
    destruct c as [cid n e ph].
    cbn [Client.client_id Client.name Client.email Client.phone] in *.
    pose proof (replace_self Client.client_id (Client.mk cid n e ph) (clients db) Hnd Hin)
      as Hrep.
    cbn [Client.client_id] in Hrep. rewrite Hrep. now rewrite store_eta.
  - intros s Hin. pose proof Hs as (Hnd & Hr & Hn). specialize (Hr s Hin).
    unfold update_shoot, path_id.
    destruct (Z.leb_spec 1 (Shoot.shoot_id s)); [|lia]. cbn [bind].
    unfold _get_shoot_or_404.
    rewrite (keyed_first Shoot.shoot_id _ _ s Hs Hin). cbn [bind].
    unfold shoot_update_row. cbn [ShootUpdate.shoot_date ShootUpdate.location
                                  set_required set_nullable bind].
    destruct s as [sid c d l].
    cbn [Shoot.shoot_id Shoot.client_id Shoot.shoot_date Shoot.location] in *.
    pose proof (replace_self Shoot.shoot_id (Shoot.mk sid c d l) (shoots db) Hnd Hin)
      as Hrep.
    cbn [Shoot.shoot_id] in Hrep. rewrite Hrep. now rewrite store_eta.
  - intros p Hin. pose proof Hp as (Hnd & Hr & Hn). specialize (Hr p Hin).
    unfold update_package, path_id.
    destruct (Z.leb_spec 1 (Package.package_id p)); [|lia]. cbn [bind].
    unfold _get_package_or_404.
    rewrite (keyed_first Package.package_id _ _ p Hp Hin). cbn [bind].
    unfold package_update_row.
    cbn [PackageUpdate.name PackageUpdate.description PackageUpdate.price
         PackageUpdate.is_active set_required set_nullable bind].
    assert (Hfree : package_name_taken collate p db = false).
    { unfold package_name_taken. destruct (existsb _ (packages db)) eqn:E; [|reflexivity].
      apply existsb_exists in E. destruct E as (q & Hq & Hpred).
      apply andb_true_iff in Hpred. destruct Hpred as [Hsame Hne].
      apply negb_true_iff, Z.eqb_neq in Hne. elim Hne. now apply Hnames. }
    destruct p as [pid n d pr a]. cbn [Package.package_id Package.name Package.description
                                      Package.price Package.is_active] in *.
    rewrite Hfree.
    pose proof (replace_self Package.package_id (Package.mk pid n d pr a) (packages db)
                  Hnd Hin) as Hrep.
    cbn [Package.package_id] in Hrep. rewrite Hrep. now rewrite store_eta.
  - intros i Hin. pose proof Hi as (Hnd & Hr & Hn). specialize (Hr i Hin).
    unfold update_invoice, path_id.
    destruct (Z.leb_spec 1 (Invoice.invoice_id i)); [|lia]. cbn [bind].
    unfold _get_invoice_or_404.
    rewrite (keyed_first Invoice.invoice_id _ _ i Hi Hin). cbn [bind].
    unfold invoice_update_row.
    cbn [InvoiceUpdate.amount InvoiceUpdate.status InvoiceUpdate.issued_date
         InvoiceUpdate.due_date InvoiceUpdate.shoot_id InvoiceUpdate.package_id
         set_required set_nullable bind].
    destruct i as [iid c sh pk a st isd due].
    cbn [Invoice.invoice_id Invoice.client_id Invoice.shoot_id Invoice.package_id
         Invoice.amount Invoice.status Invoice.issued_date Invoice.due_date] in *.
    pose proof (replace_self Invoice.invoice_id (Invoice.mk iid c sh pk a st isd due)
                  (invoices db) Hnd Hin) as Hrep.
    cbn [Invoice.invoice_id] in Hrep. rewrite Hrep. now rewrite store_eta.
Qed.

Lemma empty_update_changes_nothing_witness :
  update_package binary 1 (PackageUpdate.mk Absent Absent Absent Absent) packaged
  = Ok (Package.mk 1 "Wedding" None 150000 true, packaged)
  /\ update_invoice 1 (InvoiceUpdate.mk Absent Absent Absent Absent Absent Absent) packaged
     = Ok (Invoice.mk 1 1 None (Some 1) 150000 "draft" 20240201 None, packaged).
Proof.
  assert (Hids : ids_sound packaged) by (apply run_ids; apply sample_stores_ids).
  assert (Hnames : package_names_unique binary packaged).
  { apply (run_invariant binary (package_names_unique binary)
             (step_package_names binary)).
    apply (run_invariant binary (package_names_unique binary)
             (step_package_names binary)).
    intros p q []. }
  destruct (empty_update_changes_nothing binary packaged Hids Hnames)
    as (_ & _ & Hp & Hi).
  split.
  - apply (Hp (Package.mk 1 "Wedding" None 150000 true)). left. reflexivity.
  - apply (Hi (Invoice.mk 1 1 None (Some 1) 150000 "draft" 20240201 None)).
    left. reflexivity.
Defined.

(** ** The summary where the invariants hold *)

Lemma sum_amounts_positive (ps : list Payment.t) :
  (forall p, In p ps -> 0 < Payment.amount p) ->
  0 <= sum_amounts ps /\ (sum_amounts ps = 0 -> ps = []).
Proof.
  unfold sum_amounts. induction ps as [|p ps IH]; simpl; intros H; [split; [lia|auto]|].
  assert (0 < Payment.amount p) by (apply H; now left).
  destruct (IH (fun q Hq => H q (or_intror Hq))) as [Hge _].
  split; [lia|]. intros E. lia.
Qed.

(** X20.  Where every payment is positive and no invoice is overpaid, the
    summary of a stored invoice has a paid total and a balance between 0 and
    the amount, and its status says what was paid: "paid" exactly when the
    total equals the amount, "unpaid" exactly when the invoice has no payment
    and a non-zero amount, "partial" exactly when it has a payment and the
    total is below the amount. *)
Theorem summary_in_sound_store (db : Store) (inv : Invoice.t) :
  ids_sound db ->
  payments_positive db ->
  never_overpaid db ->
  In inv (invoices db) ->
  exists s,
    get_invoice_summary (Invoice.invoice_id inv) db = Ok s
    /\ 0 <= InvoiceSummary.total_paid s <= Invoice.amount inv
    /\ 0 <= InvoiceSummary.balance s <= Invoice.amount inv
    /\ (InvoiceSummary.status s = "paid" <->
        InvoiceSummary.total_paid s = Invoice.amount inv)
    /\ (InvoiceSummary.status s = "unpaid" <->
        payments_of db (Invoice.invoice_id inv) = [] /\ Invoice.amount inv <> 0)
    /\ (InvoiceSummary.status s = "partial" <->
        payments_of db (Invoice.invoice_id inv) <> []
        /\ InvoiceSummary.total_paid s < Invoice.amount inv).
Proof.
  intros Hids Hpos Hover Hin.
  destruct (ids_invoices db Hids) as (Hnd & Hr & _). specialize (Hr inv Hin).
  specialize (Hover inv Hin).
  destruct (sum_amounts_positive (payments_of db (Invoice.invoice_id inv))) as [Hge Hzero].
  { intros p Hp. apply filter_In in Hp. apply Hpos. tauto. }
  unfold get_invoice_summary, path_id.
  destruct (Z.leb_spec 1 (Invoice.invoice_id inv)); [|lia]. cbn [bind].
  rewrite (get_invoice_of_stored db inv Hnd Hin). cbn [bind].
  rewrite total_paid_of_sum.
  set (P := sum_amounts (payments_of db (Invoice.invoice_id inv))) in *.
  set (A := Invoice.amount inv) in *.
  eexists. split; [reflexivity|].
  cbn [InvoiceSummary.total_paid InvoiceSummary.balance InvoiceSummary.status].
  split; [lia|]. split; [lia|].
  assert (Hempty : payments_of db (Invoice.invoice_id inv) = [] -> P = 0)
    by (intros E; unfold P; now rewrite E).
  destruct (Z.eqb_spec (A - P) 0) as [E|E].
  - split; [split; [lia|reflexivity]|]. split.
    + split; [discriminate|]. intros [Hnone HA]. apply Hempty in Hnone. lia.
    + split; [discriminate|]. intros [_ Hlt]. lia.
  - destruct (Z.ltb_spec 0 P) as [HP|HP]; destruct (Z.ltb_spec P A) as [HA|HA];
      cbn [andb]; try lia.
    + split; [split; [discriminate|lia]|]. split.
      * split; [discriminate|]. intros [Hnone _]. apply Hempty in Hnone. lia.
      * split; [|reflexivity]. intros _. split; [|assumption].
        intros Hnone. apply Hempty in Hnone. lia.
    + split; [split; [discriminate|lia]|]. split.
      * split; [|reflexivity]. intros _. split; [apply Hzero; lia|lia].
      * split; [discriminate|]. intros [Hsome _]. elim Hsome. apply Hzero. lia.
Qed.

Lemma studio_partly_paid_invariants :
  ids_sound studio_partly_paid
  /\ payments_positive studio_partly_paid
  /\ never_overpaid studio_partly_paid.
Proof.
  split; [apply sample_stores_ids|]. split.
  - apply (run_invariant binary payments_positive (step_payments_positive binary)).
    apply (run_invariant binary payments_positive (step_payments_positive binary)).
    intros p [].
  - apply sound_never_overpaid, (reachable_sound binary).
    unfold studio_partly_paid, studio, studio_ops, run. cbn [fold_left].
    repeat (apply reachable_step; [|simpl; try lia; exact I]).
    apply reachable_empty.
Qed.

Lemma summary_in_sound_store_witness :
  exists s,
    get_invoice_summary 1 studio_partly_paid = Ok s
    /\ 0 <= InvoiceSummary.total_paid s <= 10000
    /\ 0 <= InvoiceSummary.balance s <= 10000
    /\ (InvoiceSummary.status s = "paid" <-> InvoiceSummary.total_paid s = 10000)
    /\ (InvoiceSummary.status s = "unpaid" <->
        payments_of studio_partly_paid 1 = [] /\ 10000 <> 0)
    /\ (InvoiceSummary.status s = "partial" <->
        payments_of studio_partly_paid 1 <> [] /\ InvoiceSummary.total_paid s < 10000).
Proof.
  destruct studio_partly_paid_invariants as (Hids & Hpos & Hover).
  apply (summary_in_sound_store studio_partly_paid
           (Invoice.mk 1 1 None None 10000 "draft" 20240105 None) Hids Hpos Hover).
  left. reflexivity.
Defined.

(** X21.  Paying what is left settles the invoice: in a store with sound
    keys, a payment of exactly the remaining balance of a stored invoice, when
    something is left to pay, is accepted; after it the summary of the invoice
    has balance 0 and status "paid", and every further payment of a positive
    amount on that invoice is refused with 400 "Payment exceeds invoice
    amount". *)
Theorem paying_the_balance_settles
    (now : Z) (payload : PaymentCreate.t) (db : Store) (inv : Invoice.t) :
  let id := Invoice.invoice_id inv in
  let remaining := Invoice.amount inv - sum_amounts (payments_of db id) in
  ids_sound db ->
  In inv (invoices db) ->
  0 < remaining ->
  PaymentCreate.invoice_id payload = id ->
  PaymentCreate.amount payload = remaining ->
  exists payment db',
    create_payment now payload db = Ok (payment, db')
    /\ (exists s,
          get_invoice_summary id db' = Ok s
          /\ InvoiceSummary.balance s = 0
          /\ InvoiceSummary.status s = "paid")
    /\ (forall now' more,
          PaymentCreate.invoice_id more = id ->
          0 < PaymentCreate.amount more ->
          create_payment now' more db' = Raise OverpaymentError).
Proof.
  intros id remaining Hids Hin Hrem Hpid Hamount.
  destruct (ids_invoices db Hids) as (Hnd & Hr & _). specialize (Hr inv Hin).
  pose proof (get_invoice_of_stored db inv Hnd Hin) as Hget. fold id in Hget.
  assert (Hcheck : create_payment_check payload db = Ok tt).
  { apply (create_payment_check_fits payload db inv); rewrite ?Hpid, ?Hamount;
      [assumption|assumption|unfold remaining; lia]. }
  unfold create_payment at 1. rewrite Hcheck. cbn [bind].
  destruct (create_payment_insert now payload db) as [payment db'] eqn:Hins.
  exists payment, db'. split; [reflexivity|].
  assert (Hinv' : invoices db' = invoices db)
    by (unfold create_payment_insert in Hins; injection Hins as _ <-; reflexivity).
  assert (Htotal : total_paid_of db' id = Invoice.amount inv).
  { pose proof (create_payment_insert_total now payload db) as Ht.
    rewrite Hins, Hpid, Hamount in Ht. cbn [snd] in Ht.
    rewrite Ht, total_paid_of_sum. unfold remaining. lia. }
  assert (Hget' : _get_invoice_or_404 db' id = Ok inv)
    by (unfold _get_invoice_or_404 in *; now rewrite Hinv').
  split.
  - unfold get_invoice_summary, path_id. fold id in Hr.
    destruct (Z.leb_spec 1 id); [|lia]. cbn [bind]. rewrite Hget'. cbn [bind].
    fold id. rewrite Htotal, Z.sub_diag. cbn [Z.eqb].
    eexists. split; [reflexivity|]. split; reflexivity.
  - intros now' more Hmid Hmore. unfold create_payment.
    rewrite (create_payment_check_over more db' inv); [reflexivity| | |].
    + now rewrite Hmid.
    + assumption.
    + rewrite Hmid, <- total_paid_of_sum, Htotal. lia.
Qed.

Lemma paying_the_balance_settles_witness :
  exists payment db',
    create_payment 600 (PaymentCreate.mk 1 4000 None None) studio_partly_paid
    = Ok (payment, db')
    /\ (exists s,
          get_invoice_summary 1 db' = Ok s
          /\ InvoiceSummary.balance s = 0
          /\ InvoiceSummary.status s = "paid")
    /\ (forall now' more,
          PaymentCreate.invoice_id more = 1 ->
          0 < PaymentCreate.amount more ->
          create_payment now' more db' = Raise OverpaymentError).
Proof.
  destruct studio_partly_paid_invariants as (Hids & _).
  apply (paying_the_balance_settles 600 (PaymentCreate.mk 1 4000 None None)
           studio_partly_paid (Invoice.mk 1 1 None None 10000 "draft" 20240105 None) Hids).
  - left. reflexivity.
  - vm_compute. reflexivity.
  - reflexivity.
  - reflexivity.
Defined.

(** ** The report *)

Lemma report_query_rows (date_from date_to : option Z) (db : Store) (r : ReportQueryRow.t) :
  In r (report_query date_from date_to db) ->
  exists inv cli,
    In inv (invoices db)
    /\ in_date_range date_from date_to inv = true
    /\ In cli (clients db)
    /\ Client.client_id cli = Invoice.client_id inv
    /\ ReportQueryRow.invoice_id r = Invoice.invoice_id inv
    /\ ReportQueryRow.issued_date r = Invoice.issued_date inv
    /\ ReportQueryRow.due_date r = Invoice.due_date inv
    /\ ReportQueryRow.client_name r = Client.name cli
    /\ ReportQueryRow.amount r = Invoice.amount inv
    /\ ReportQueryRow.total_paid r = sum_amounts (payments_of db (Invoice.invoice_id inv))
    /\ (Invoice.package_id inv = None -> ReportQueryRow.package_name r = None).
Proof.
  unfold report_query. intros Hr. apply in_flat_map in Hr.
  destruct Hr as (inv & Hinv & Hr). apply order_by_In, filter_In in Hinv.
  destruct Hinv as [Hinv Hrange].
  destruct (first _ (clients db)) as [cli|] eqn:Hcli; [|contradiction].
  apply first_Some in Hcli. destruct Hcli as [Hcli Hid]. apply Z.eqb_eq in Hid.
  destruct Hr as [<-|[]]. exists inv, cli.
  cbn [ReportQueryRow.invoice_id ReportQueryRow.issued_date ReportQueryRow.due_date
       ReportQueryRow.client_name ReportQueryRow.amount ReportQueryRow.total_paid
       ReportQueryRow.package_name].
  repeat (split; [first [assumption|reflexivity|apply coalesce_sql_sum]|]).
  intros Hnone. rewrite Hnone.
  replace (first (fun p => refers None (Package.package_id p)) (packages db))
    with (@None Package.t); [reflexivity|].
  symmetry. apply first_None. reflexivity.
Qed.

Lemma report_query_ids (date_from date_to : option Z) (db : Store) :
  refs_sound db ->
  map ReportQueryRow.invoice_id (report_query date_from date_to db)
  = map Invoice.invoice_id
        (order_by invoice_order (filter (in_date_range date_from date_to) (invoices db))).
Proof.
  intros Hrefs. unfold report_query.
  assert (Hsub : forall inv,
             In inv (order_by invoice_order
                       (filter (in_date_range date_from date_to) (invoices db))) ->
             In inv (invoices db)).
  { intros inv H. apply order_by_In, filter_In in H. tauto. }
  induction (order_by invoice_order _) as [|inv rest IH]; [reflexivity|].
  cbn [flat_map]. rewrite map_app, IH by (intros i Hi; apply Hsub; now right).
  destruct (refs_invoice_client db Hrefs inv (Hsub inv (or_introl eq_refl)))
    as (c & Hc & Hid).
  destruct (first_id_Some Client.client_id (clients db) _ (ex_intro _ c (conj Hc Hid)))
    as [cli ->].
  reflexivity.
Qed.

(** X22.  Where the references are sound, the query of [report_invoices] has
    exactly one row for each invoice issued within the bounds given, in the
    order of the report (issued date, then id, both descending), and none for
    any other invoice.  Each row carries the dates and the amount of its
    invoice, the name of the client of the invoice, the sum of the payments of
    that invoice alone, and no package name when the invoice has no package.
    The handler answers with the empty list exactly when no invoice is within
    the bounds. *)
Theorem report_covers_the_range (date_from date_to : option Z) (db : Store) :
  refs_sound db ->
  map ReportQueryRow.invoice_id (report_query date_from date_to db)
  = map Invoice.invoice_id
        (order_by invoice_order (filter (in_date_range date_from date_to) (invoices db)))
  /\ (forall r, In r (report_query date_from date_to db) ->
        exists inv cli,
          In inv (invoices db)
          /\ in_date_range date_from date_to inv = true
          /\ In cli (clients db)
          /\ Client.client_id cli = Invoice.client_id inv
          /\ ReportQueryRow.invoice_id r = Invoice.invoice_id inv
          /\ ReportQueryRow.issued_date r = Invoice.issued_date inv
          /\ ReportQueryRow.due_date r = Invoice.due_date inv
          /\ ReportQueryRow.client_name r = Client.name cli
          /\ ReportQueryRow.amount r = Invoice.amount inv
          /\ ReportQueryRow.total_paid r
             = sum_amounts (payments_of db (Invoice.invoice_id inv))
          /\ (Invoice.package_id inv = None -> ReportQueryRow.package_name r = None))
  /\ (report_invoices date_from date_to db = Ok [] <->
      forall inv, In inv (invoices db) -> in_date_range date_from date_to inv = false).
Proof.
  intros Hrefs. pose proof (report_query_ids date_from date_to db Hrefs) as Hids.
  split; [exact Hids|]. split; [intros r; apply report_query_rows|].
  split.
  - intros Hempty inv Hinv.
    destruct (in_date_range date_from date_to inv) eqn:Hrange; [|reflexivity].
    assert (Hq : report_query date_from date_to db <> []).
    { intros E. rewrite E in Hids. symmetry in Hids. apply map_eq_nil in Hids.
      assert (Hin : In inv (order_by invoice_order
                              (filter (in_date_range date_from date_to) (invoices db))))
        by (apply order_by_In, filter_In; auto).
      rewrite Hids in Hin. contradiction. }
    rewrite (report_invoices_raises _ _ _ Hq) in Hempty. discriminate.
  - intros Hnone. unfold report_invoices.
    assert (Hq : report_query date_from date_to db = []).
    { apply (map_eq_nil ReportQueryRow.invoice_id). rewrite Hids.
      replace (filter (in_date_range date_from date_to) (invoices db))
        with (@nil Invoice.t); [reflexivity|].
      symmetry. destruct (filter _ (invoices db)) as [|x l] eqn:E; [reflexivity|].
      assert (Hx : In x (filter (in_date_range date_from date_to) (invoices db)))
        by (rewrite E; now left).
      apply filter_In in Hx. destruct Hx as [Hx Hr]. rewrite (Hnone x Hx) in Hr.
      discriminate. }
    now rewrite Hq.
Qed.

Lemma report_covers_the_range_witness :
  map ReportQueryRow.invoice_id (report_query (Some 20240101) (Some 20240131) studio) = [1]
  /\ (report_invoices (Some 20240201) None studio = Ok [] <->
      forall inv, In inv (invoices studio) ->
                  in_date_range (Some 20240201) None inv = false).
Proof.
  assert (Hrefs : refs_sound studio).
  { apply (run_invariant binary refs_sound (step_refs binary)), empty_store_refs. }
  split.
  - rewrite (proj1 (report_covers_the_range (Some 20240101) (Some 20240131) studio Hrefs)).
    reflexivity.
  - apply (proj2 (proj2 (report_covers_the_range (Some 20240201) None studio Hrefs))).
Defined.

(** ** Two payment requests at once, whatever the schedule *)

Lemma advance_passed (req : Request) (db : Store) :
  passed req = true -> passed (fst (advance req db)) = true.
Proof.
  destruct req as [now payload|now payload|[payment|e]]; simpl; try discriminate;
    reflexivity.
Qed.

Lemma interleave_passed (schedule : list bool) (r1 r2 : Request) (db : Store) :
  (passed r1 = true -> passed (fst (fst (interleave schedule r1 r2 db))) = true)
  /\ (passed r2 = true -> passed (snd (fst (interleave schedule r1 r2 db))) = true).
Proof.
  revert r1 r2 db. induction schedule as [|turn rest IH]; intros r1 r2 db.
  - split; auto.
  - destruct turn; cbn [interleave].
    + pose proof (advance_passed r2 db) as Hadv.
      destruct (advance r2 db) as [r2' db']. cbn [fst] in Hadv.
      destruct (IH r1 r2' db') as [IH1 IH2]. split; auto.
    + pose proof (advance_passed r1 db) as Hadv.
      destruct (advance r1 db) as [r1' db']. cbn [fst] in Hadv.
      destruct (IH r1' r2 db') as [IH1 IH2]. split; auto.
Qed.

Lemma passed_finished_accepted (req : Request) :
  passed req = true -> finished req = true -> accepted req = true.
Proof. destruct req as [| |[|]]; simpl; congruence. Qed.

(** X23.  Two payment requests on the same invoice, each of a positive amount
    that fits the remaining balance by itself, are never both refused: however
    the steps of the two handlers are interleaved, once both requests have
    been answered at least one of them was accepted. *)
Theorem some_payment_is_accepted
    (schedule : list bool) (now1 now2 : Z) (p1 p2 : PaymentCreate.t)
    (db : Store) (inv : Invoice.t) :
  let i := Invoice.invoice_id inv in
  let remaining := Invoice.amount inv - sum_amounts (payments_of db i) in
  _get_invoice_or_404 db i = Ok inv ->
  PaymentCreate.invoice_id p1 = i ->
  PaymentCreate.invoice_id p2 = i ->
  0 < PaymentCreate.amount p1 <= remaining ->
  0 < PaymentCreate.amount p2 <= remaining ->
  let r1 := fst (fst (interleave schedule (Submitted now1 p1) (Submitted now2 p2) db)) in
  let r2 := snd (fst (interleave schedule (Submitted now1 p1) (Submitted now2 p2) db)) in
  finished r1 = true ->
  finished r2 = true ->
  accepted r1 = true \/ accepted r2 = true.
Proof.
  intros i remaining Hget H1 H2 Hf1 Hf2.
  assert (Hc1 : create_payment_check p1 db = Ok tt).
  { apply (create_payment_check_fits p1 db inv); rewrite ?H1;
      [assumption|lia|unfold remaining in Hf1; lia]. }
  assert (Hc2 : create_payment_check p2 db = Ok tt).
  { apply (create_payment_check_fits p2 db inv); rewrite ?H2;
      [assumption|lia|unfold remaining in Hf2; lia]. }
  destruct schedule as [|turn rest].
  - simpl. discriminate.
  - destruct turn; cbn [interleave advance].
    + rewrite Hc2. cbn [interleave]. intros Hfin1 Hfin2. right.
      apply passed_finished_accepted; [|assumption].
      now apply (interleave_passed rest (Submitted now1 p1) (Checked now2 p2) db).
    + rewrite Hc1. cbn [interleave]. intros Hfin1 Hfin2. left.
      apply passed_finished_accepted; [|assumption].
      now apply (interleave_passed rest (Checked now1 p1) (Submitted now2 p2) db).
Qed.

Lemma some_payment_is_accepted_witness :
  let r1 := fst (fst (interleave [true; false; false; true]
                        (Submitted 600 (PaymentCreate.mk 1 3000 None None))
                        (Submitted 601 (PaymentCreate.mk 1 2000 None None))
                        studio_partly_paid)) in
  let r2 := snd (fst (interleave [true; false; false; true]
                        (Submitted 600 (PaymentCreate.mk 1 3000 None None))
                        (Submitted 601 (PaymentCreate.mk 1 2000 None None))
                        studio_partly_paid)) in
  accepted r1 = true \/ accepted r2 = true.
Proof.
  apply (some_payment_is_accepted [true; false; false; true] 600 601
           (PaymentCreate.mk 1 3000 None None) (PaymentCreate.mk 1 2000 None None)
           studio_partly_paid (Invoice.mk 1 1 None None 10000 "draft" 20240105 None)).
  - reflexivity.
  - reflexivity.
  - reflexivity.
  - vm_compute. split; [reflexivity|discriminate].
  - vm_compute. split; [reflexivity|discriminate].
  - reflexivity.
  - reflexivity.
Defined.

(** ** Requests on ids that name nothing *)

Ltac unknown_id Hno :=
  unfold get_client, update_client, delete_client, _get_client_or_404,
    get_shoot, update_shoot, delete_shoot, _get_shoot_or_404,
    get_package, update_package, delete_package, _get_package_or_404,
    get_invoice, update_invoice, delete_invoice, get_invoice_summary,
    _get_invoice_or_404, get_payment, delete_payment, _get_payment_or_404, path_id;
  match goal with
  | |- context [1 <=? ?id] => destruct (Z.leb_spec 1 id); [|lia]
  end;
  cbn [bind]; rewrite (first_id_None _ _ _ Hno); repeat split.

(** X24.  The get, update and delete handlers of every entity, and the invoice
    summary, refuse an id below 1 at validation, and answer 404 with the
    message of the entity ("Client not found", "Shoot not found", "Package not
    found", "Invoice not found", "Payment not found") for an id that names no
    row, whatever the payload; being refusals, they leave the store as it
    is. *)
Theorem unknown_ids_are_refused (collate : string -> string) (id : Z) (db : Store) :
  (id < 1 ->
   forall cu su pu iu,
     get_client id db = Raise RequestValidationError
     /\ update_client collate id cu db = Raise RequestValidationError
     /\ delete_client id db = Raise RequestValidationError
     /\ get_shoot id db = Raise RequestValidationError
     /\ update_shoot id su db = Raise RequestValidationError
     /\ delete_shoot id db = Raise RequestValidationError
     /\ get_package id db = Raise RequestValidationError
     /\ update_package collate id pu db = Raise RequestValidationError
     /\ delete_package id db = Raise RequestValidationError
     /\ get_invoice id db = Raise RequestValidationError
     /\ update_invoice id iu db = Raise RequestValidationError
     /\ delete_invoice id db = Raise RequestValidationError
     /\ get_invoice_summary id db = Raise RequestValidationError
     /\ get_payment id db = Raise RequestValidationError
     /\ delete_payment id db = Raise RequestValidationError)
  /\ (1 <= id ->
      (~ (exists c, In c (clients db) /\ Client.client_id c = id) ->
       forall cu,
         get_client id db = Raise (HTTPException 404 "Client not found")
         /\ update_client collate id cu db = Raise (HTTPException 404 "Client not found")
         /\ delete_client id db = Raise (HTTPException 404 "Client not found"))
      /\ (~ (exists s, In s (shoots db) /\ Shoot.shoot_id s = id) ->
          forall su,
            get_shoot id db = Raise (HTTPException 404 "Shoot not found")
            /\ update_shoot id su db = Raise (HTTPException 404 "Shoot not found")
            /\ delete_shoot id db = Raise (HTTPException 404 "Shoot not found"))
      /\ (~ (exists p, In p (packages db) /\ Package.package_id p = id) ->
          forall pu,
            get_package id db = Raise (HTTPException 404 "Package not found")
            /\ update_package collate id pu db
               = Raise (HTTPException 404 "Package not found")
            /\ delete_package id db = Raise (HTTPException 404 "Package not found"))
      /\ (~ (exists i, In i (invoices db) /\ Invoice.invoice_id i = id) ->
          forall iu,
            get_invoice id db = Raise (HTTPException 404 "Invoice not found")
            /\ update_invoice id iu db = Raise (HTTPException 404 "Invoice not found")
            /\ delete_invoice id db = Raise (HTTPException 404 "Invoice not found")
            /\ get_invoice_summary id db = Raise (HTTPException 404 "Invoice not found"))
      /\ (~ (exists p, In p (payments db) /\ Payment.payment_id p = id) ->
          get_payment id db = Raise (HTTPException 404 "Payment not found")
          /\ delete_payment id db = Raise (HTTPException 404 "Payment not found"))).
Proof.
  split.
  - intros Hlt cu su pu iu.
    unfold get_client, update_client, delete_client, get_shoot, update_shoot,
      delete_shoot, get_package, update_package, delete_package, get_invoice,
      update_invoice, delete_invoice, get_invoice_summary, get_payment,
      delete_payment, path_id.
    destruct (Z.leb_spec 1 id); [lia|]. repeat split.
  - intros Hid. split; [|split; [|split; [|split]]].
    + intros Hno cu. unknown_id Hno.
    + intros Hno su. unknown_id Hno.
    + intros Hno pu. unknown_id Hno.
    + intros Hno iu. unknown_id Hno.
    + intros Hno. unknown_id Hno.
Qed.

Lemma unknown_ids_are_refused_witness :
  delete_invoice 0 studio = Raise RequestValidationError
  /\ get_invoice_summary 7 studio = Raise (HTTPException 404 "Invoice not found")
  /\ delete_payment 7 studio = Raise (HTTPException 404 "Payment not found").
Proof.
  destruct (unknown_ids_are_refused binary 0 studio) as [H0 _].
  destruct (unknown_ids_are_refused binary 7 studio) as [_ H7].
  destruct H7 as (_ & _ & _ & Hi & Hp); [lia|].
  split; [|split].
  - apply (H0 ltac:(lia)
             (ClientUpdate.mk Absent Absent Absent) (ShootUpdate.mk Absent Absent)
             (PackageUpdate.mk Absent Absent Absent Absent)
             (InvoiceUpdate.mk Absent Absent Absent Absent Absent Absent)).
  - apply Hi.
    + simpl. intros (i & [<-|[]] & E). discriminate.
    + exact (InvoiceUpdate.mk Absent Absent Absent Absent Absent Absent).
  - apply Hp. simpl. intros (p & [] & _).
Defined.
